(** * chronos: occurrence calculation and bounded execution

    A shallow embedding of the scheduling package [chronos]
    (files [chronos.go] and the [Job] builder) together with the
    properties of its three cadences ([periodic], [monthly], [yearly])
    and of [Job.run].

    The file [chronos.go] carries two revisions of the package one after
    the other; the embedding follows the later one (the one with
    [newPeriodic], [getCandidate] and [next() (bool, time.Duration)]),
    the earlier one being a draft that the later one replaces. *)

From Stdlib Require Import ZArith Lia List Bool String Sorted.
Import ListNotations.
Local Open Scope Z_scope.

(* ================================================================== *)
(** ** Go's [int] and [int64] *)

(** On the 64-bit targets Go's [int] has 64 bits; arithmetic on it wraps
    around in two's complement, silently.  Values are carried as [Z],
    every operation of the source is followed by [wrap64]. *)
Module GoInt.

Definition maxInt64 : Z := 9223372036854775807.
Definition minInt64 : Z := -9223372036854775808.

Definition wrap64 (z : Z) : Z :=
  (z + 9223372036854775808) mod 18446744073709551616 - 9223372036854775808.

Definition add64 (x y : Z) : Z := wrap64 (x + y).
Definition sub64 (x y : Z) : Z := wrap64 (x - y).
Definition mul64 (x y : Z) : Z := wrap64 (x * y).
Definition neg64 (x : Z) : Z := wrap64 (- x).

(** [n++] *)
Definition incr64 (n : Z) : Z := add64 n 1.

Definition in_int64 (z : Z) : Prop := minInt64 <= z <= maxInt64.

(** Integers of at most 62 bits: the sum of two of them fits in 64. *)
Definition small (z : Z) : Prop :=
  -2305843009213693952 <= z <= 2305843009213693952.

End GoInt.
Export GoInt.

(* ================================================================== *)
(** ** The part of Go's [time] package that the package calls

    A [time.Time] is an instant together with the [Location] in which
    its calendar fields are read.  The instant is kept as [Time], the
    number of nanoseconds since January 1, year 1, 00:00:00 UTC (the
    zero [Time]); Go holds its seconds in an [int64], and what [Date]
    builds is reduced to that range.  [Add], [Sub], [Before] and
    [IsZero] work on the instant alone; [Date], [AddDate] and [Day]
    take the location as an argument.  The calendar is the proleptic
    Gregorian one.  The monotonic reading that Go attaches to
    [time.Now()] is not modelled.  [time.Duration] is an [int64] count
    of nanoseconds. *)
Module time.

Definition Duration : Type := Z.
Definition Time : Type := Z.

Definition Nanosecond : Duration := 1.
Definition Microsecond : Duration := 1000 * Nanosecond.
Definition Millisecond : Duration := 1000 * Microsecond.
Definition Second : Duration := 1000 * Millisecond.
Definition Minute : Duration := 60 * Second.
Definition Hour : Duration := 60 * Minute.

Definition nsPerSecond : Z := 1000000000.
Definition nsPerDay : Z := 86400000000000.

Definition IsZero (t : Time) : bool := t =? 0.
Definition Before (t u : Time) : bool := t <? u.
Definition Add (t : Time) (d : Duration) : Time := t + d.

(** [t.Sub(u)]: the difference, saturated to the range of [Duration]. *)
Definition Sub (t u : Time) : Duration :=
  let d := t - u in
  if d <? minInt64 then minInt64
  else if maxInt64 <? d then maxInt64
  else d.

(** *** Locations *)

(** A [Location] maps instants to offsets from UTC, in seconds east:
    the offset in use before the first transition, and the transitions
    in the order of their times, each with the Unix time from which it
    holds and its offset.  The names of the zones, the cache of the last
    lookup and the rule for the years after the last transition are left
    out. *)
Record Location : Type := mkLocation {
  loc_first : Z;
  loc_tx : list (Z * Z)
}.

Definition UTC : Location := mkLocation 0 [].

(** [time.FixedZone(name, offset)] *)
Definition FixedZone (offset : Z) : Location := mkLocation offset [].

Definition alpha : Z := minInt64.
Definition omega : Z := maxInt64.

Fixpoint lookup_from (offset start : Z) (tx : list (Z * Z)) (sec : Z)
    : Z * Z * Z :=
  match tx with
  | [] => (offset, start, omega)
  | (from, offset') :: rest =>
      if sec <? from then (offset, start, from)
      else lookup_from offset' from rest sec
  end.

(** [l.lookup(sec)]: the offset in use at the Unix time [sec], with the
    Unix times between which it is in use. *)
Definition lookup (l : Location) (sec : Z) : Z * Z * Z :=
  lookup_from (loc_first l) alpha (loc_tx l) sec.

(** Seconds from January 1, year 1 to January 1, 1970. *)
Definition unixToInternal : Z := 62135596800.

Definition unixSec (t : Time) : Z := t / nsPerSecond - unixToInternal.

(** The offset of [l] at the instant [t]. *)
Definition offsetAt (l : Location) (t : Time) : Z :=
  fst (fst (lookup l (unixSec t))).

(** The wall clock of [l] at [t]: the nanoseconds since January 1,
    year 1, 00:00:00 of the location's own reading. *)
Definition wall (l : Location) (t : Time) : Z :=
  t + offsetAt l t * nsPerSecond.

(** *** Calendar *)

Definition isLeap (year : Z) : bool :=
  (year mod 4 =? 0) && (negb (year mod 100 =? 0) || (year mod 400 =? 0)).

(** [daysBefore[i]]: days of a non-leap year before month [i+1]. *)
Definition daysBefore (i : Z) : Z :=
  match i with
  | 0 => 0 | 1 => 31 | 2 => 59 | 3 => 90 | 4 => 120 | 5 => 151
  | 6 => 181 | 7 => 212 | 8 => 243 | 9 => 273 | 10 => 304 | 11 => 334
  | _ => 365
  end.

Definition daysIn (month year : Z) : Z :=
  if (month =? 2) && isLeap year then 29
  else daysBefore month - daysBefore (month - 1).

Definition daysInYear (year : Z) : Z :=
  if isLeap year then 366 else 365.

(** Days from January 1 of year 1 to January 1 of [year]. *)
Definition daysSinceEpoch (year : Z) : Z :=
  let y := year - 1 in
  365 * y + y / 4 - y / 100 + y / 400.

(** Day number of a civil date whose month is in range; [day] is free,
    and overflows into the neighbouring months as in [time.Date]. *)
Definition dayNumber (year month day : Z) : Z :=
  daysSinceEpoch year + daysBefore (month - 1)
  + (if isLeap year && (3 <=? month) then 1 else 0)
  + (day - 1).

(** [norm(hi, lo, base)]: [hi] and [lo] with [lo] brought into
    [0 <= lo < base]; Go's division truncates. *)
Definition norm (hi lo base : Z) : Z * Z :=
  let '(hi, lo) :=
    if lo <? 0 then
      let n := add64 (Z.quot (sub64 (neg64 lo) 1) base) 1 in
      (sub64 hi n, add64 lo (mul64 n base))
    else (hi, lo) in
  if base <=? lo then
    let n := Z.quot lo base in
    (add64 hi n, sub64 lo (mul64 n base))
  else (hi, lo).

(** The wall clock that shows the time of day [tod] on the day [day] of
    the month [month] of [year]. *)
Definition wallOf (year month day tod : Z) : Z :=
  dayNumber year month day * nsPerDay + tod.

(** The end of [time.Date]: the instant at which the wall clock of [l]
    shows [w].  The wall clock is turned into Unix seconds, the offset
    of the location is looked up there, and looked up again at the
    instant it leads to when that instant lies outside the span of the
    first; the seconds are [int64] values and wrap around. *)
Definition fromWall (l : Location) (w : Z) : Time :=
  let unix := wrap64 (w / nsPerSecond - unixToInternal) in
  let '(offset, start, end_) := lookup l unix in
  let offset :=
    if offset =? 0 then 0
    else
      let utc := sub64 unix offset in
      if (utc <? start) || (end_ <=? utc) then fst (fst (lookup l utc))
      else offset in
  let unix := sub64 unix offset in
  add64 unix unixToInternal * nsPerSecond + w mod nsPerSecond.

(** [time.Date(year, month, day, hour, min, sec, nsec, loc)], the time
    of day given as one count [tod] of nanoseconds: the month is
    normalised into the year, the day into the month.  Go counts the
    days in a [uint64] from the year -292277022399 on; reduced to the
    64 bits of the seconds, its count and the one of [dayNumber] are
    the same for the years from that one up to ten quadrillion, where
    all dates of this development lie. *)
Definition Date (year month day : Z) (tod : Z) (l : Location) : Time :=
  let m := sub64 month 1 in
  let '(year, m) := norm year m 12 in
  let month := add64 m 1 in
  fromWall l (wallOf year month day tod).

(** The wall clock [w] is shown in [l] by the instant that [time.Date]
    builds for it: no transition of [l] skips it, and its seconds fit
    in 64 bits. *)
Definition shown (l : Location) (w : Z) : Prop := wall l (fromWall l w) = w.

(** Year and day of the year (from 0) of a day number: whole cycles of
    400, 100, 4 and 1 years are cut off in turn. *)
Definition yearDay (d : Z) : Z * Z :=
  let n400 := d / 146097 in
  let d1 := d - 146097 * n400 in
  let n100 := d1 / 36524 in
  let n100 := n100 - n100 / 4 in
  let d2 := d1 - 36524 * n100 in
  let n4 := d2 / 1461 in
  let d3 := d2 - 1461 * n4 in
  let n1 := d3 / 365 in
  let n1 := n1 - n1 / 4 in
  let d4 := d3 - 365 * n1 in
  (400 * n400 + 100 * n100 + 4 * n4 + n1 + 1, d4).

(** Month and day of the month of the day [yday] of a year. *)
Definition monthDay (leap : bool) (yday : Z) : Z * Z :=
  if leap && (yday =? 59) then (2, 29)
  else
    let day := if leap && (59 <? yday) then yday - 1 else yday in
    let month := day / 31 in
    let e := daysBefore (month + 1) in
    if e <=? day then (month + 2, day - e + 1)
    else (month + 1, day - daysBefore month + 1).

(** The civil date and the time of day that a wall clock shows. *)
Definition dateOf (w : Z) : Z * Z * Z :=
  let '(year, yday) := yearDay (w / nsPerDay) in
  let '(month, day) := monthDay (isLeap year) yday in
  (year, month, day).

Definition clockOf (w : Z) : Z := w mod nsPerDay.

(** [t.Date()] and [t.Clock()] with [t.Nanosecond()], for a [t] whose
    location is [l]. *)
Definition civil (l : Location) (t : Time) : Z * Z * Z := dateOf (wall l t).
Definition timeOfDay (l : Location) (t : Time) : Z := clockOf (wall l t).

Definition Year (l : Location) (t : Time) : Z := fst (fst (civil l t)).
Definition Month (l : Location) (t : Time) : Z := snd (fst (civil l t)).
Definition Day (l : Location) (t : Time) : Z := snd (civil l t).

(** [t.AddDate(years, months, days)] for a [t] whose location is [l];
    the result has the same location. *)
Definition AddDate (l : Location) (t : Time) (years months days : Z) : Time :=
  let '(year, month, day) := civil l t in
  Date (add64 year years) (add64 month months) (add64 day days)
       (timeOfDay l t) l.

(** The remaining definitions serve the proofs.  Day of the year (from
    0) of a civil date. *)
Definition yearDayOf (leap : bool) (month day : Z) : Z :=
  daysBefore (month - 1) + (if leap && (3 <=? month) then 1 else 0) + (day - 1).

(** [daysIn], the leap year given as a flag. *)
Definition daysInMonth (leap : bool) (month : Z) : Z :=
  if (month =? 2) && leap then 29
  else daysBefore month - daysBefore (month - 1).

(** The month after [(year, month)]. *)
Definition nextMonth (year month : Z) : Z * Z :=
  if month =? 12 then (year + 1, 1) else (year, month + 1).

(** Year and month of the month numbered [month] from January of
    [year], as [time.Date] normalises them while its integers do not
    wrap. *)
Definition normMonth (year month : Z) : Z * Z :=
  (year + (month - 1) / 12, (month - 1) mod 12 + 1).

(** A location without transitions, UTC or a fixed zone, whose offset
    fits in 32 bits as the offsets of the zone files do. *)
Definition plainLocation (l : Location) : Prop :=
  loc_tx l = [] /\ -2147483648 <= loc_first l <= 2147483647.

(** Years whose seconds since the year 1 fit in 64 bits with room to
    spare; the seconds of Go reach a little beyond 292 billion years
    either way. *)
Definition yearMax : Z := 290000000000.
Definition inYears (year : Z) : Prop := - yearMax <= year <= yearMax.

(** The nanoseconds of those years, and of a year more. *)
Definition wallMax : Z := 9170496000172886400000000000.

End time.

Export time.

(* ================================================================== *)
(** ** Package-level declarations of [chronos] *)

(** The constant [Day] of the package; its name here makes room for
    the method [Time.Day]. *)
Definition Day_ : Duration := 24 * Hour.
Definition Week : Duration := 7 * Day_.

(** Enum of scheduler kind *)
Definition periodicKind : Z := 0.
Definition monthlyKind : Z := 1.
Definition yearlyKind : Z := 2.

(** The adjustment that ends both [getCandidate] methods, [l] being the
    location of [start] and so of [res]. *)
Definition clampTo (l : Location) (start res : Time) : Time :=
  if negb (Day l res =? Day l start) then AddDate l res 0 0 (- Day l res)
  else res.

(** What a Go constructor returns, a pointer together with an [error]:
    a value and a nil error, or a nil pointer and an error. *)
Inductive result (A : Type) : Type :=
| Ok (a : A)
| Err (msg : string).
Arguments Ok {A} a.
Arguments Err {A} msg.

(** The wall clock as one call of [next] sees it: [clk k] is what the
    call of [time.Now()] returns that [k] others have come before
    during the call. *)
Definition Clock : Type := nat -> Time.

(** A clock that stands still for the length of a call: the [now] of
    [next(now)]. *)
Definition frozen (now : Time) : Clock := fun _ => now.

(* ------------------------------------------------------------------ *)
(** *** [periodic]

    The location of [start] has no part in what a periodic cadence
    computes and is not kept. *)

Record periodic : Type := mkPeriodic {
  periodic_start : Time;        (* Start time *)
  periodic_end : Time;          (* End time, zero value means no end *)
  periodic_started : bool;      (* Internal flag to handle first executions *)
  periodic_ammount : Duration;  (* Period *)
  periodic_n : Z                (* Number of already executed events *)
}.

Definition periodic_set_n (s : periodic) (z : Z) : periodic :=
  mkPeriodic (periodic_start s) (periodic_end s) (periodic_started s)
             (periodic_ammount s) z.

Definition periodic_set_started (s : periodic) (b : bool) : periodic :=
  mkPeriodic (periodic_start s) (periodic_end s) b
             (periodic_ammount s) (periodic_n s).

(** [now] is the reading of [time.Now()] taken when [start] is zero. *)
Definition newPeriodic (now : Time) (start end_ : Time) (ammount : Z)
    (unit : Duration) (notInmediately : bool) : result periodic :=
  if (ammount =? 0) || (unit =? 0) then Err "0 is not a valid period"
  else
    let start := if IsZero start then now else start in
    let n := if notInmediately then 1 else 0 in
    Ok (mkPeriodic start end_ notInmediately (mul64 ammount unit) n).

Definition periodic_getCandidate (s : periodic) : Time :=
  Add (periodic_start s) (mul64 (periodic_n s) (periodic_ammount s)).

(** The [for] loop of [periodic.next]; [k] counts the clock readings
    taken so far, [None] is a loop that has not ended within [fuel]
    tests of its condition.  The result carries the cadence, the local
    [next] and the number of readings. *)
Fixpoint periodic_next_loop (fuel : nat) (clk : Clock) (k : nat)
    (s : periodic) (next : Time) : option (periodic * Time * nat) :=
  match fuel with
  | O => None
  | S fuel =>
      if Before next (clk k) then
        if negb (periodic_started s) then Some (s, next, S k)
        else
          let s := periodic_set_n s (incr64 (periodic_n s)) in
          periodic_next_loop fuel clk (S k) s (periodic_getCandidate s)
      else Some (s, next, S k)
  end.

Definition periodic_next (fuel : nat) (clk : Clock) (s : periodic)
    : option (periodic * (bool * Duration)) :=
  match periodic_next_loop fuel clk 0 s (periodic_getCandidate s) with
  | None => None
  | Some (s, next, k) =>
      let s := if negb (periodic_started s)
               then periodic_set_started s true else s in
      Some (s, (IsZero (periodic_end s) || Before next (periodic_end s),
                Sub next (clk k)))
  end.

(* ------------------------------------------------------------------ *)
(** *** [monthly]

    The field [start] of the source is the pair of [monthly_start], its
    instant, and [monthly_loc], its location. *)

Record monthly : Type := mkMonthly {
  monthly_start : Time;
  monthly_loc : Location;
  monthly_end : Time;
  monthly_started : bool;
  monthly_ammount : Z;          (* Ammount of months that made up a period *)
  monthly_n : Z
}.

Definition monthly_set_n (s : monthly) (z : Z) : monthly :=
  mkMonthly (monthly_start s) (monthly_loc s) (monthly_end s)
            (monthly_started s) (monthly_ammount s) z.

Definition monthly_set_started (s : monthly) (b : bool) : monthly :=
  mkMonthly (monthly_start s) (monthly_loc s) (monthly_end s) b
            (monthly_ammount s) (monthly_n s).

(** [now] and [local] are the reading of [time.Now()] and its location,
    [time.Local]; [loc] is the location of [start]. *)
Definition newMonthly (now : Time) (local : Location) (start : Time)
    (loc : Location) (end_ : Time) (ammount : Z) (notInmediately : bool)
    : result monthly :=
  if ammount =? 0 then Err "0 months is not a valid period"
  else
    let '(start, loc) := if IsZero start then (now, local) else (start, loc) in
    let n := if notInmediately then 1 else 0 in
    Ok (mkMonthly start loc end_ notInmediately ammount n).

Definition monthly_getCandidate (s : monthly) : Time :=
  let l := monthly_loc s in
  let res := AddDate l (monthly_start s) 0
                     (mul64 (monthly_n s) (monthly_ammount s)) 0 in
  if negb (Day l res =? Day l (monthly_start s))
  then AddDate l res 0 0 (- Day l res)
  else res.

Fixpoint monthly_next_loop (fuel : nat) (clk : Clock) (k : nat)
    (s : monthly) (next : Time) : option (monthly * Time * nat) :=
  match fuel with
  | O => None
  | S fuel =>
      if Before next (clk k) then
        if negb (monthly_started s) then Some (s, next, S k)
        else
          let s := monthly_set_n s (incr64 (monthly_n s)) in
          monthly_next_loop fuel clk (S k) s (monthly_getCandidate s)
      else Some (s, next, S k)
  end.

Definition monthly_next (fuel : nat) (clk : Clock) (s : monthly)
    : option (monthly * (bool * Duration)) :=
  match monthly_next_loop fuel clk 0 s (monthly_getCandidate s) with
  | None => None
  | Some (s, next, k) =>
      let s := if negb (monthly_started s)
               then monthly_set_started s true else s in
      Some (s, (IsZero (monthly_end s) || Before next (monthly_end s),
                Sub next (clk k)))
  end.

(* ------------------------------------------------------------------ *)
(** *** [yearly] *)

Record yearly : Type := mkYearly {
  yearly_start : Time;
  yearly_loc : Location;
  yearly_end : Time;
  yearly_started : bool;
  yearly_ammount : Z;           (* Ammount of years that made up a period *)
  yearly_n : Z
}.

Definition yearly_set_n (s : yearly) (z : Z) : yearly :=
  mkYearly (yearly_start s) (yearly_loc s) (yearly_end s)
           (yearly_started s) (yearly_ammount s) z.

Definition yearly_set_started (s : yearly) (b : bool) : yearly :=
  mkYearly (yearly_start s) (yearly_loc s) (yearly_end s) b
           (yearly_ammount s) (yearly_n s).

Definition newYearly (now : Time) (local : Location) (start : Time)
    (loc : Location) (end_ : Time) (ammount : Z) (notInmediately : bool)
    : result yearly :=
  if ammount =? 0 then Err "0 years is not a valid period"
  else
    let '(start, loc) := if IsZero start then (now, local) else (start, loc) in
    let n := if notInmediately then 1 else 0 in
    Ok (mkYearly start loc end_ notInmediately ammount n).

Definition yearly_getCandidate (s : yearly) : Time :=
  let l := yearly_loc s in
  let res := AddDate l (yearly_start s)
                     (mul64 (yearly_n s) (yearly_ammount s)) 0 0 in
  if negb (Day l res =? Day l (yearly_start s))
  then AddDate l res 0 0 (- Day l res)
  else res.

Fixpoint yearly_next_loop (fuel : nat) (clk : Clock) (k : nat)
    (s : yearly) (next : Time) : option (yearly * Time * nat) :=
  match fuel with
  | O => None
  | S fuel =>
      if Before next (clk k) then
        if negb (yearly_started s) then Some (s, next, S k)
        else
          let s := yearly_set_n s (incr64 (yearly_n s)) in
          yearly_next_loop fuel clk (S k) s (yearly_getCandidate s)
      else Some (s, next, S k)
  end.

Definition yearly_next (fuel : nat) (clk : Clock) (s : yearly)
    : option (yearly * (bool * Duration)) :=
  match yearly_next_loop fuel clk 0 s (yearly_getCandidate s) with
  | None => None
  | Some (s, next, k) =>
      let s := if negb (yearly_started s)
               then yearly_set_started s true else s in
      Some (s, (IsZero (yearly_end s) || Before next (yearly_end s),
                Sub next (clk k)))
  end.

(* ------------------------------------------------------------------ *)
(** *** The [scheduler] interface

    The interface has the one method [next]; its three implementations
    are the three cadences, so a value of the interface is one of
    them. *)

Inductive scheduler : Type :=
| Periodic (s : periodic)
| Monthly (s : monthly)
| Yearly (s : yearly).

Definition next (fuel : nat) (clk : Clock) (s : scheduler)
    : option (scheduler * (bool * Duration)) :=
  match s with
  | Periodic p =>
      match periodic_next fuel clk p with
      | Some (p', r) => Some (Periodic p', r)
      | None => None
      end
  | Monthly m =>
      match monthly_next fuel clk m with
      | Some (m', r) => Some (Monthly m', r)
      | None => None
      end
  | Yearly y =>
      match yearly_next fuel clk y with
      | Some (y', r) => Some (Yearly y', r)
      | None => None
      end
  end.

(** Field access through the interface value. *)
Definition sched_start (s : scheduler) : Time :=
  match s with
  | Periodic p => periodic_start p
  | Monthly m => monthly_start m
  | Yearly y => yearly_start y
  end.

Definition sched_end (s : scheduler) : Time :=
  match s with
  | Periodic p => periodic_end p
  | Monthly m => monthly_end m
  | Yearly y => yearly_end y
  end.

Definition sched_started (s : scheduler) : bool :=
  match s with
  | Periodic p => periodic_started p
  | Monthly m => monthly_started m
  | Yearly y => yearly_started y
  end.

Definition sched_ammount (s : scheduler) : Z :=
  match s with
  | Periodic p => periodic_ammount p
  | Monthly m => monthly_ammount m
  | Yearly y => yearly_ammount y
  end.

Definition sched_n (s : scheduler) : Z :=
  match s with
  | Periodic p => periodic_n p
  | Monthly m => monthly_n m
  | Yearly y => yearly_n y
  end.

Definition sched_set_n (s : scheduler) (z : Z) : scheduler :=
  match s with
  | Periodic p => Periodic (periodic_set_n p z)
  | Monthly m => Monthly (monthly_set_n m z)
  | Yearly y => Yearly (yearly_set_n y z)
  end.

Definition sched_set_started (s : scheduler) (b : bool) : scheduler :=
  match s with
  | Periodic p => Periodic (periodic_set_started p b)
  | Monthly m => Monthly (monthly_set_started m b)
  | Yearly y => Yearly (yearly_set_started y b)
  end.

Definition getCandidate (s : scheduler) : Time :=
  match s with
  | Periodic p => periodic_getCandidate p
  | Monthly m => monthly_getCandidate m
  | Yearly y => yearly_getCandidate y
  end.

(** The candidate of [s] for the occurrence index [k]. *)
Definition candidateAt (s : scheduler) (k : Z) : Time :=
  getCandidate (sched_set_n s k).

(** The index reached from [n] by [k] executions of [s.n++]. *)
Definition indexAfter (k : nat) (n : Z) : Z := Nat.iter k incr64 n.

(** The value of [s.end.IsZero() || next.Before(s.end)]. *)
Definition hasMore (s : scheduler) (next : Time) : bool :=
  IsZero (sched_end s) || Before next (sched_end s).

(** *** Where neither the integers nor the seconds wrap around *)

(** The anchor of a calendar cadence is held in a location without
    transitions and lies in a year within [yearMax]; nothing is asked
    of a periodic cadence. *)
Definition plainAnchor (s : scheduler) : Prop :=
  match s with
  | Periodic _ => True
  | Monthly m =>
      plainLocation (monthly_loc m)
      /\ inYears (Year (monthly_loc m) (monthly_start m))
  | Yearly y =>
      plainLocation (yearly_loc y)
      /\ inYears (Year (yearly_loc y) (yearly_start y))
  end.

(** The index [i] of [s] is within range: [i] times the step fits in
    64 bits and, for a calendar cadence, the year that the shift leads
    to is within [yearMax]. *)
Definition inWindow (s : scheduler) (i : Z) : Prop :=
  match s with
  | Periodic p => in_int64 (i * periodic_ammount p)
  | Monthly m =>
      in_int64 (i * monthly_ammount m)
      /\ inYears (fst (normMonth (Year (monthly_loc m) (monthly_start m))
                                 (Month (monthly_loc m) (monthly_start m)
                                  + i * monthly_ammount m)))
  | Yearly y =>
      in_int64 (i * yearly_ammount y)
      /\ inYears (Year (yearly_loc y) (yearly_start y) + i * yearly_ammount y)
  end.

(** A length of time by which the candidates of a cadence with a
    positive step are apart at the least: the step of a periodic
    cadence, a day for the calendar cadences. *)
Definition minStep (s : scheduler) : Z :=
  match s with
  | Periodic p => periodic_ammount p
  | Monthly _ => nsPerDay
  | Yearly _ => nsPerDay
  end.

(* ------------------------------------------------------------------ *)
(** *** [Job]

    The task is an opaque [func()]; what it does is a change of some
    world [W], which is threaded through [run].  The two channels and
    the goroutine of [Done] are left out; calls of [run] are taken one
    after the other, which is what the mutex of [run] enforces. *)

(** Auxiliar type that holds the information needed to build the
    scheduler; [aux_loc] is the location of [aux_start]. *)
Record auxiliar : Type := mkAuxiliar {
  aux_kind : Z;
  aux_ammount : Z;
  aux_notInmediately : bool;
  aux_start : Time;
  aux_loc : Location;
  aux_end : Time;
  aux_unit : Duration
}.

Section JobDefinitions.

Context {W : Type}.

Record Job : Type := mkJob {
  Job_task : W -> W;                (* Task to be scheduled *)
  Job_times : Z;                    (* Times that it can be executed, -1 means no limit *)
  Job_n : Z;                        (* Times that it has been executed *)
  Job_aux : auxiliar;               (* Holds the values for following API calls *)
  Job_schedule : option scheduler   (* Scheduler to determine when to run the job *)
}.

Definition Job_set_aux (j : Job) (a : auxiliar) : Job :=
  mkJob (Job_task j) (Job_times j) (Job_n j) a (Job_schedule j).

Definition Schedule (f : W -> W) : Job :=
  mkJob f (-1) 0 (mkAuxiliar 0 0 false 0 UTC 0 0) None.

Definition NTimes (j : Job) (n : Z) : Job :=
  mkJob (Job_task j) n (Job_n j) (Job_aux j) (Job_schedule j).

Definition Once (j : Job) : Job := NTimes j 1.
Definition Twice (j : Job) : Job := NTimes j 2.

(** [Every(times ...int)]; [None] is the panic on more than one
    argument. *)
Definition Every (j : Job) (times : list Z) : option Job :=
  let a := Job_aux j in
  let set z := Job_set_aux j
    (mkAuxiliar (aux_kind a) z (aux_notInmediately a)
                (aux_start a) (aux_loc a) (aux_end a) (aux_unit a)) in
  match times with
  | [] => Some (set 1)
  | [t] => Some (set t)
  | _ => None
  end.

Definition duration (j : Job) (d : Duration) : Job :=
  let a := Job_aux j in
  Job_set_aux j
    (mkAuxiliar periodicKind (aux_ammount a) (aux_notInmediately a)
                (aux_start a) (aux_loc a) (aux_end a) d).

(** The unit methods come in pairs, [Second] and [Seconds] and so on,
    the plural calling the singular; they are given once, under the
    plural name. *)
Definition Nanoseconds (j : Job) : Job := duration j Nanosecond.
Definition Microseconds (j : Job) : Job := duration j Microsecond.
Definition Milliseconds (j : Job) : Job := duration j Millisecond.
Definition Seconds (j : Job) : Job := duration j Second.
Definition Minutes (j : Job) : Job := duration j Minute.
Definition Hours (j : Job) : Job := duration j Hour.
Definition Days (j : Job) : Job := duration j Day_.
Definition Weeks (j : Job) : Job := duration j Week.

Definition Months (j : Job) : Job :=
  let a := Job_aux j in
  Job_set_aux j
    (mkAuxiliar monthlyKind (aux_ammount a) (aux_notInmediately a)
                (aux_start a) (aux_loc a) (aux_end a) (aux_unit a)).

Definition Years (j : Job) : Job :=
  let a := Job_aux j in
  Job_set_aux j
    (mkAuxiliar yearlyKind (aux_ammount a) (aux_notInmediately a)
                (aux_start a) (aux_loc a) (aux_end a) (aux_unit a)).

Definition NotInmediately (j : Job) : Job :=
  let a := Job_aux j in
  Job_set_aux j
    (mkAuxiliar (aux_kind a) (aux_ammount a) true
                (aux_start a) (aux_loc a) (aux_end a) (aux_unit a)).

(** [At(t)], [loc] being the location of [t]. *)
Definition At (j : Job) (t : Time) (loc : Location) : Job :=
  let a := Job_aux j in
  Job_set_aux j
    (mkAuxiliar (aux_kind a) (aux_ammount a) (aux_notInmediately a)
                t loc (aux_end a) (aux_unit a)).

(** [In(d)], [now] and [local] being the reading of [time.Now()] and
    its location. *)
Definition In (j : Job) (now : Time) (local : Location) (d : Duration) : Job :=
  At j (Add now d) local.

Definition Until (j : Job) (t : Time) : Job :=
  let a := Job_aux j in
  Job_set_aux j
    (mkAuxiliar (aux_kind a) (aux_ammount a) (aux_notInmediately a)
                (aux_start a) (aux_loc a) t (aux_unit a)).

(** The [switch] of [Done]: the scheduler that the configuration
    builds, or the error of its constructor.  A kind outside the enum
    matches no case. *)
Definition Done_schedule (now : Time) (local : Location) (j : Job)
    : result (option scheduler) :=
  let a := Job_aux j in
  if aux_kind a =? periodicKind then
    match newPeriodic now (aux_start a) (aux_end a) (aux_ammount a)
                      (aux_unit a) (aux_notInmediately a) with
    | Ok p => Ok (Some (Periodic p))
    | Err e => Err e
    end
  else if aux_kind a =? monthlyKind then
    match newMonthly now local (aux_start a) (aux_loc a) (aux_end a)
                     (aux_ammount a) (aux_notInmediately a) with
    | Ok m => Ok (Some (Monthly m))
    | Err e => Err e
    end
  else if aux_kind a =? yearlyKind then
    match newYearly now local (aux_start a) (aux_loc a) (aux_end a)
                    (aux_ammount a) (aux_notInmediately a) with
    | Ok y => Ok (Some (Yearly y))
    | Err e => Err e
    end
  else Ok None.

(** [run]: the job and the world after the call. *)
Definition run (jw : Job * W) : Job * W :=
  let '(j, w) := jw in
  if (Job_times j =? -1) || (Job_n j <? Job_times j) then
    (mkJob (Job_task j) (Job_times j) (incr64 (Job_n j))
           (Job_aux j) (Job_schedule j),
     Job_task j w)
  else (j, w).

End JobDefinitions.

Arguments Job W : clear implicits.

(* ================================================================== *)
(** ** The catch-up loop, once for the three cadences

    The three [next] methods are the same text up to the receiver's
    type.  The class below names what that text uses of a cadence; the
    loop is written once over it and each method is shown to be that
    loop. *)

Class Cadence (S : Type) : Type := {
  c_started : S -> bool;
  c_n : S -> Z;
  c_end : S -> Time;
  c_candidate : S -> Time;
  c_set_n : S -> Z -> S;
  c_set_started : S -> bool -> S;
  c_n_set_n : forall s z, c_n (c_set_n s z) = z;
  c_started_set_n : forall s z, c_started (c_set_n s z) = c_started s;
  c_end_set_n : forall s z, c_end (c_set_n s z) = c_end s;
  c_set_n_set_n : forall s y z, c_set_n (c_set_n s y) z = c_set_n s z;
  c_set_n_same : forall s, c_set_n s (c_n s) = s;
  c_started_set_started : forall s b, c_started (c_set_started s b) = b;
  c_n_set_started : forall s b, c_n (c_set_started s b) = c_n s;
  c_end_set_started : forall s b, c_end (c_set_started s b) = c_end s;
  c_candidate_set_started :
    forall s b, c_candidate (c_set_started s b) = c_candidate s;
  c_set_started_same : forall s, c_set_started s (c_started s) = s
}.

Section Generic.

Context {S : Type} `{Cadence S}.

Fixpoint catch_up (fuel : nat) (clk : Clock) (k : nat) (s : S)
    : option (S * nat) :=
  match fuel with
  | O => None
  | Datatypes.S fuel =>
      if Before (c_candidate s) (clk k) then
        if negb (c_started s) then Some (s, Datatypes.S k)
        else catch_up fuel clk (Datatypes.S k) (c_set_n s (incr64 (c_n s)))
      else Some (s, Datatypes.S k)
  end.

(** The candidate of [s] for the index [j]. *)
Definition c_at (s : S) (j : Z) : Time := c_candidate (c_set_n s j).

Definition c_next (fuel : nat) (clk : Clock) (s : S)
    : option (S * (bool * Duration)) :=
  match catch_up fuel clk 0 s with
  | None => None
  | Some (s1, k) =>
      let s2 := if negb (c_started s1) then c_set_started s1 true else s1 in
      Some (s2, (IsZero (c_end s2) || Before (c_candidate s1) (c_end s2),
                 Sub (c_candidate s1) (clk k)))
  end.

End Generic.

#[export] Instance scheduler_Cadence : Cadence scheduler.
Proof.
  refine {| c_started := sched_started;
            c_n := sched_n;
            c_end := sched_end;
            c_candidate := getCandidate;
            c_set_n := sched_set_n;
            c_set_started := sched_set_started |}.
  all: intros s; intros.
  all: destruct s as [c | c | c]; destruct c.
  all: cbv beta iota delta
         [sched_started sched_n sched_end getCandidate sched_set_n
          sched_set_started
          periodic_getCandidate periodic_set_n periodic_set_started
          periodic_start periodic_end periodic_started periodic_ammount
          periodic_n
          monthly_getCandidate monthly_set_n monthly_set_started
          monthly_start monthly_loc monthly_end monthly_started
          monthly_ammount monthly_n
          yearly_getCandidate yearly_set_n yearly_set_started
          yearly_start yearly_loc yearly_end yearly_started yearly_ammount
          yearly_n].
  all: reflexivity.
Defined.

(* ================================================================== *)
(** ** Runs of calls *)

(** Successive calls of [next], one clock for each, every loop given
    [fuel] tests: the cadence after each call with what the call
    returned. *)
Fixpoint calls (fuel : nat) (s : scheduler) (clks : list Clock)
    : option (list (scheduler * (bool * Duration))) :=
  match clks with
  | [] => Some []
  | clk :: rest =>
      match next fuel clk s with
      | None => None
      | Some (s', r) =>
          match calls fuel s' rest with
          | None => None
          | Some rs => Some ((s', r) :: rs)
          end
      end
  end.

(** A simulated clock: [m] readings, the first at [t0], each [step]
    after the one before. *)
Definition ticks (t0 : Time) (step : Duration) (m : nat) : list Time :=
  map (fun i => t0 + Z.of_nat i * step) (seq 0 m).


(* ================================================================== *)
(** ** Facts about the calendar *)

Lemma daysSinceEpoch_succ (y : Z) :
  daysSinceEpoch (y + 1) = daysSinceEpoch y + daysInYear y.
Proof.
  unfold daysSinceEpoch, daysInYear, isLeap.
  replace (y + 1 - 1) with y by lia.
  destruct (y mod 4 =? 0) eqn:E4; destruct (y mod 100 =? 0) eqn:E100;
    destruct (y mod 400 =? 0) eqn:E400; cbn [negb orb andb];
    rewrite ?Z.eqb_eq, ?Z.eqb_neq in *;
    Z.to_euclidean_division_equations; lia.
Qed.

Lemma daysInYear_bounds (y : Z) : 365 <= daysInYear y <= 366.
Proof. unfold daysInYear. destruct (isLeap y); lia. Qed.

Lemma daysSinceEpoch_lt (y y' : Z) :
  y < y' -> daysSinceEpoch y + daysInYear y <= daysSinceEpoch y'.
Proof.
  intros Hlt.
  replace y' with (y + 1 + Z.of_nat (Z.to_nat (y' - y - 1))) by lia.
  induction (Z.to_nat (y' - y - 1)) as [| n IH].
  - rewrite Z.add_0_r, daysSinceEpoch_succ. lia.
  - replace (y + 1 + Z.of_nat (S n)) with (y + 1 + Z.of_nat n + 1) by lia.
    rewrite daysSinceEpoch_succ.
    pose proof (daysInYear_bounds (y + 1 + Z.of_nat n)). lia.
Qed.

Lemma yearDay_spec (d : Z) :
  let '(y, yd) := yearDay d in
  daysSinceEpoch y + yd = d /\ 0 <= yd < daysInYear y.
Proof.
  unfold yearDay, daysSinceEpoch, daysInYear, isLeap.
  set (n400 := d / 146097).
  set (d1 := d - 146097 * n400).
  assert (H1 : 0 <= d1 < 146097) by (subst d1 n400; Z.to_euclidean_division_equations; lia).
  set (q100 := d1 / 36524).
  assert (Hq100 : 0 <= q100 <= 4) by (subst q100; Z.to_euclidean_division_equations; lia).
  assert (Hq100' : 36524 * q100 <= d1 < 36524 * q100 + 36524)
    by (subst q100; Z.to_euclidean_division_equations; lia).
  set (n100 := q100 - q100 / 4).
  assert (Hn100 : (q100 = 4 /\ n100 = 3) \/ (q100 < 4 /\ n100 = q100))
    by (subst n100; Z.to_euclidean_division_equations; lia).
  set (d2 := d1 - 36524 * n100).
  set (n4 := d2 / 1461).
  assert (Hn4 : 1461 * n4 <= d2 < 1461 * n4 + 1461)
    by (subst n4; Z.to_euclidean_division_equations; lia).
  set (d3 := d2 - 1461 * n4).
  set (q1 := d3 / 365).
  assert (Hq1' : 365 * q1 <= d3 < 365 * q1 + 365)
    by (subst q1; Z.to_euclidean_division_equations; lia).
  set (n1 := q1 - q1 / 4).
  assert (Hn1 : (q1 = 4 /\ n1 = 3) \/ (q1 < 4 /\ n1 = q1))
    by (subst n1; Z.to_euclidean_division_equations; lia).
  set (d4 := d3 - 365 * n1).
  replace (400 * n400 + 100 * n100 + 4 * n4 + n1 + 1 - 1)
    with (400 * n400 + 100 * n100 + 4 * n4 + n1) by lia.
  set (Y := 400 * n400 + 100 * n100 + 4 * n4 + n1).
  assert (B100 : 0 <= n100 <= 3) by lia.
  assert (B4 : 0 <= n4 <= 24) by lia.
  assert (B1 : 0 <= n1 <= 3) by lia.
  assert (Y4 : Y / 4 = 100 * n400 + 25 * n100 + n4)
    by (subst Y; Z.to_euclidean_division_equations; lia).
  assert (Y100 : Y / 100 = 4 * n400 + n100)
    by (subst Y; Z.to_euclidean_division_equations; lia).
  assert (Y400 : Y / 400 = n400)
    by (subst Y; Z.to_euclidean_division_equations; lia).
  rewrite Y4, Y100, Y400.
  split; [subst Y d4 d3 d2 d1; lia |].
  assert (M4 : (Y + 1) mod 4 = (n1 + 1) mod 4)
    by (subst Y; Z.to_euclidean_division_equations; lia).
  assert (M100 : (Y + 1) mod 100 = (4 * n4 + n1 + 1) mod 100)
    by (subst Y; Z.to_euclidean_division_equations; lia).
  assert (M400 : (Y + 1) mod 400 = (100 * n100 + 4 * n4 + n1 + 1) mod 400)
    by (subst Y; Z.to_euclidean_division_equations; lia).
  rewrite M4, M100, M400.
  destruct ((n1 + 1) mod 4 =? 0) eqn:E4;
    destruct ((4 * n4 + n1 + 1) mod 100 =? 0) eqn:E100;
    destruct ((100 * n100 + 4 * n4 + n1 + 1) mod 400 =? 0) eqn:E400;
    cbn [negb orb andb];
    rewrite ?Z.eqb_eq, ?Z.eqb_neq in *;
    subst d4 d3 d2;
    Z.to_euclidean_division_equations; lia.
Qed.

Lemma yearDay_unique (y yd : Z) :
  0 <= yd < daysInYear y -> yearDay (daysSinceEpoch y + yd) = (y, yd).
Proof.
  intros Hyd.
  pose proof (yearDay_spec (daysSinceEpoch y + yd)) as Hs.
  destruct (yearDay (daysSinceEpoch y + yd)) as [y' yd'].
  destruct Hs as [Heq Hb].
  assert (y' = y).
  { destruct (Z.lt_trichotomy y y') as [Hlt | [-> | Hlt]]; [| reflexivity |].
    - pose proof (daysSinceEpoch_lt y y' Hlt). lia.
    - pose proof (daysSinceEpoch_lt y' y Hlt). lia. }
  subst y'. f_equal. lia.
Qed.

Lemma monthDay_yearDayOf (leap : bool) (m d : Z) :
  1 <= m <= 12 -> 1 <= d <= daysInMonth leap m ->
  monthDay leap (yearDayOf leap m d) = (m, d).
Proof.
  intros Hm Hd.
  assert (Hc : m = 1 \/ m = 2 \/ m = 3 \/ m = 4 \/ m = 5 \/ m = 6 \/ m = 7
               \/ m = 8 \/ m = 9 \/ m = 10 \/ m = 11 \/ m = 12) by lia.
  unfold yearDayOf.
  destruct leap;
    repeat (destruct Hc as [-> | Hc]); try subst m;
    cbn in Hd;
    match goal with
    | |- context [daysBefore (?a - 1) + ?i] =>
        let v := eval compute in (daysBefore (a - 1) + i) in
        change (daysBefore (a - 1) + i) with v
    end;
    match goal with
    | |- monthDay _ ?e = _ => remember e as x eqn:Hx
    end;
    unfold monthDay; cbn [andb].
  all: repeat match goal with
       | |- context [Z.eqb ?a ?b] => destruct (Z.eqb_spec a b); try lia
       | |- context [Z.ltb ?a ?b] => destruct (Z.ltb_spec a b); try lia
       end.
  all: try (f_equal; lia).
  all: match goal with
       | |- context [daysBefore (?y / 31 + 1)] =>
           let q := fresh "q" in
           set (q := y / 31);
           assert (Hq31 : 31 * q <= y < 31 * q + 31)
             by (subst q; Z.to_euclidean_division_equations; lia);
           clearbody q;
           assert (Hqc : q = 0 \/ q = 1 \/ q = 2 \/ q = 3 \/ q = 4 \/ q = 5
                         \/ q = 6 \/ q = 7 \/ q = 8 \/ q = 9 \/ q = 10
                         \/ q = 11) by lia;
           repeat (destruct Hqc as [-> | Hqc]); try subst q; try lia
       end.
  all: cbn [daysBefore Z.add Pos.add Pos.succ].
  all: repeat match goal with
       | |- context [Z.leb ?a ?b] => destruct (Z.leb_spec a b); try lia
       end.
  all: try (f_equal; lia).
Qed.

Ltac month_consts :=
  repeat match goal with
  | |- context [daysBefore ?a] =>
      let v := eval compute in (daysBefore a) in
      progress change (daysBefore a) with v
  | |- context [Z.leb ?a ?b] =>
      let v := eval compute in (Z.leb a b) in
      progress change (Z.leb a b) with v
  | |- context [Z.eqb ?a ?b] =>
      let v := eval compute in (Z.eqb a b) in
      progress change (Z.eqb a b) with v
  end;
  rewrite ?Bool.andb_true_r, ?Bool.andb_false_r, ?Bool.andb_true_l,
    ?Bool.andb_false_l.

Lemma daysIn_daysInMonth (m y : Z) : daysIn m y = daysInMonth (isLeap y) m.
Proof. reflexivity. Qed.

Lemma dayNumber_yearDayOf (y m d : Z) :
  dayNumber y m d = daysSinceEpoch y + yearDayOf (isLeap y) m d.
Proof. unfold dayNumber, yearDayOf. lia. Qed.

Lemma daysInMonth_bounds (leap : bool) (m : Z) :
  1 <= m <= 12 -> 28 <= daysInMonth leap m <= 31.
Proof.
  intros Hm.
  assert (Hc : m = 1 \/ m = 2 \/ m = 3 \/ m = 4 \/ m = 5 \/ m = 6 \/ m = 7
               \/ m = 8 \/ m = 9 \/ m = 10 \/ m = 11 \/ m = 12) by lia.
  destruct leap; repeat (destruct Hc as [-> | Hc]); try subst m;
    vm_compute; split; discriminate.
Qed.

Lemma yearDayOf_bounds (leap : bool) (m d : Z) :
  1 <= m <= 12 -> 1 <= d <= daysInMonth leap m ->
  0 <= yearDayOf leap m d < (if leap then 366 else 365).
Proof.
  intros Hm Hd.
  assert (Hc : m = 1 \/ m = 2 \/ m = 3 \/ m = 4 \/ m = 5 \/ m = 6 \/ m = 7
               \/ m = 8 \/ m = 9 \/ m = 10 \/ m = 11 \/ m = 12) by lia.
  unfold yearDayOf.
  destruct leap; repeat (destruct Hc as [-> | Hc]); try subst m;
    cbn in Hd; month_consts; lia.
Qed.

Lemma dayNumber_nextMonth (y m d : Z) :
  1 <= m <= 12 ->
  dayNumber y m d
  = dayNumber (fst (nextMonth y m)) (snd (nextMonth y m)) (d - daysIn m y).
Proof.
  intros Hm.
  assert (Hc : m = 1 \/ m = 2 \/ m = 3 \/ m = 4 \/ m = 5 \/ m = 6 \/ m = 7
               \/ m = 8 \/ m = 9 \/ m = 10 \/ m = 11 \/ m = 12) by lia.
  unfold dayNumber, daysIn.
  repeat (destruct Hc as [-> | Hc]); try subst m;
    cbn [nextMonth fst snd Z.eqb Pos.eqb];
    try rewrite daysSinceEpoch_succ; unfold daysInYear;
    month_consts; destruct (isLeap y); lia.
Qed.

Lemma yearDayOf_onto (leap : bool) (yd : Z) :
  0 <= yd < (if leap then 366 else 365) ->
  exists m d, 1 <= m <= 12 /\ 1 <= d <= daysInMonth leap m
              /\ yearDayOf leap m d = yd.
Proof.
  intros Hyd.
  set (l := if leap then 1 else 0).
  assert (Hl : l = if leap then 1 else 0) by reflexivity.
  assert (Hc : yd < 31 \/ 31 <= yd < 59 + l \/ 59 + l <= yd < 90 + l
               \/ 90 + l <= yd < 120 + l \/ 120 + l <= yd < 151 + l
               \/ 151 + l <= yd < 181 + l \/ 181 + l <= yd < 212 + l
               \/ 212 + l <= yd < 243 + l \/ 243 + l <= yd < 273 + l
               \/ 273 + l <= yd < 304 + l \/ 304 + l <= yd < 334 + l
               \/ 334 + l <= yd) by (destruct leap; lia).
  destruct Hc as [Hc | [Hc | [Hc | [Hc | [Hc | [Hc | [Hc | [Hc | [Hc | [Hc | [Hc | Hc]]]]]]]]]]].
  all: unfold yearDayOf.
  - exists 1, (yd + 1). destruct leap; unfold daysInMonth; month_consts; cbn in Hl; lia.
  - exists 2, (yd - 31 + 1). destruct leap; unfold daysInMonth; month_consts; cbn in Hl; lia.
  - exists 3, (yd - (59 + l) + 1). destruct leap; unfold daysInMonth; month_consts; cbn in Hl; lia.
  - exists 4, (yd - (90 + l) + 1). destruct leap; unfold daysInMonth; month_consts; cbn in Hl; lia.
  - exists 5, (yd - (120 + l) + 1). destruct leap; unfold daysInMonth; month_consts; cbn in Hl; lia.
  - exists 6, (yd - (151 + l) + 1). destruct leap; unfold daysInMonth; month_consts; cbn in Hl; lia.
  - exists 7, (yd - (181 + l) + 1). destruct leap; unfold daysInMonth; month_consts; cbn in Hl; lia.
  - exists 8, (yd - (212 + l) + 1). destruct leap; unfold daysInMonth; month_consts; cbn in Hl; lia.
  - exists 9, (yd - (243 + l) + 1). destruct leap; unfold daysInMonth; month_consts; cbn in Hl; lia.
  - exists 10, (yd - (273 + l) + 1). destruct leap; unfold daysInMonth; month_consts; cbn in Hl; lia.
  - exists 11, (yd - (304 + l) + 1). destruct leap; unfold daysInMonth; month_consts; cbn in Hl; lia.
  - exists 12, (yd - (334 + l) + 1). destruct leap; unfold daysInMonth; month_consts; cbn in Hl; lia.
Qed.

Lemma dateOf_dayNumber (y m d tod : Z) :
  1 <= m <= 12 -> 1 <= d <= daysIn m y -> 0 <= tod < nsPerDay ->
  dateOf (dayNumber y m d * nsPerDay + tod) = (y, m, d).
Proof.
  intros Hm Hd Ht.
  unfold dateOf.
  replace ((dayNumber y m d * nsPerDay + tod) / nsPerDay) with (dayNumber y m d)
    by (unfold nsPerDay in *; Z.to_euclidean_division_equations; lia).
  rewrite dayNumber_yearDayOf.
  rewrite daysIn_daysInMonth in Hd.
  pose proof (yearDayOf_bounds (isLeap y) m d Hm Hd) as Hb.
  rewrite yearDay_unique by (unfold daysInYear; destruct (isLeap y); lia).
  rewrite monthDay_yearDayOf by assumption.
  reflexivity.
Qed.

Lemma clockOf_bounds (w : Z) : 0 <= clockOf w < nsPerDay.
Proof. unfold clockOf, nsPerDay. apply Z.mod_pos_bound. lia. Qed.

(** Every wall clock shows a valid civil date and a time of day. *)
Lemma dateOf_valid (t : Z) :
  let '(y, m, d) := dateOf t in
  1 <= m <= 12 /\ 1 <= d <= daysIn m y
  /\ t = dayNumber y m d * nsPerDay + clockOf t.
Proof.
  unfold dateOf.
  pose proof (yearDay_spec (t / nsPerDay)) as Hs.
  destruct (yearDay (t / nsPerDay)) as [y yd].
  destruct Hs as [Heq Hb].
  destruct (yearDayOf_onto (isLeap y) yd) as (m & d & Hm & Hd & Hy).
  { unfold daysInYear in Hb. destruct (isLeap y); lia. }
  rewrite <- Hy, monthDay_yearDayOf by assumption.
  rewrite daysIn_daysInMonth, dayNumber_yearDayOf, Hy, Heq.
  repeat split; try lia.
  unfold clockOf, nsPerDay. Z.to_euclidean_division_equations; lia.
Qed.

Lemma normMonth_range (y m : Z) : 1 <= snd (normMonth y m) <= 12.
Proof. unfold normMonth; cbn [snd]. Z.to_euclidean_division_equations; lia. Qed.

Lemma normMonth_id (y m : Z) : 1 <= m <= 12 -> normMonth y m = (y, m).
Proof.
  intros Hm. unfold normMonth.
  f_equal; Z.to_euclidean_division_equations; lia.
Qed.

Lemma clockOf_compose (D tod : Z) :
  0 <= tod < nsPerDay -> clockOf (D * nsPerDay + tod) = tod.
Proof.
  intros Ht. unfold clockOf, nsPerDay in *.
  Z.to_euclidean_division_equations; lia.
Qed.

Lemma nextMonth_range (y m : Z) :
  1 <= m <= 12 -> 1 <= snd (nextMonth y m) <= 12.
Proof.
  intros Hm. unfold nextMonth.
  destruct (Z.eqb_spec m 12); cbn [snd]; lia.
Qed.

Lemma daysIn_bounds (m y : Z) : 1 <= m <= 12 -> 28 <= daysIn m y <= 31.
Proof. intros Hm. rewrite daysIn_daysInMonth. now apply daysInMonth_bounds. Qed.

(* ================================================================== *)
(** ** Facts about machine integers, instants and durations *)

Lemma wrap64_small (z : Z) : in_int64 z -> wrap64 z = z.
Proof.
  unfold in_int64, wrap64, minInt64, maxInt64. intros Hz.
  Z.to_euclidean_division_equations; lia.
Qed.

Lemma wrap64_range (z : Z) : in_int64 (wrap64 z).
Proof.
  unfold in_int64, wrap64, minInt64, maxInt64.
  Z.to_euclidean_division_equations; lia.
Qed.

Lemma mul64_small (x y : Z) : in_int64 (x * y) -> mul64 x y = x * y.
Proof. intros Hr. unfold mul64. now apply wrap64_small. Qed.

Lemma incr64_small (n : Z) : minInt64 <= n < maxInt64 -> incr64 n = n + 1.
Proof.
  intros Hn. unfold incr64, add64. apply wrap64_small.
  unfold in_int64. lia.
Qed.

Lemma indexAfter_succ_r (k : nat) (n : Z) :
  indexAfter (S k) n = indexAfter k (incr64 n).
Proof. unfold indexAfter. apply Nat.iter_succ_r. Qed.

Lemma indexAfter_small (k : nat) (n : Z) :
  minInt64 <= n -> n + Z.of_nat k <= maxInt64 ->
  indexAfter k n = n + Z.of_nat k.
Proof.
  induction k as [| k IH]; intros Hlo Hhi.
  - cbn. lia.
  - unfold indexAfter in *. rewrite Nat.iter_succ.
    rewrite IH by lia. rewrite incr64_small by lia. lia.
Qed.

Lemma Before_true (t u : Time) : Before t u = true <-> t < u.
Proof. unfold Before. apply Z.ltb_lt. Qed.

Lemma Before_false (t u : Time) : Before t u = false <-> u <= t.
Proof. unfold Before. apply Z.ltb_ge. Qed.

Lemma IsZero_true (t : Time) : IsZero t = true <-> t = 0.
Proof. unfold IsZero. apply Z.eqb_eq. Qed.

Lemma Add_plus (t : Time) (d : Duration) : Add t d = t + d.
Proof. reflexivity. Qed.

Lemma Sub_exact (t u : Time) : in_int64 (t - u) -> Sub t u = t - u.
Proof.
  unfold in_int64, Sub. intros Hr.
  destruct (Z.ltb_spec (t - u) minInt64); [lia |].
  destruct (Z.ltb_spec maxInt64 (t - u)); [lia | reflexivity].
Qed.

Lemma Sub_pos (t u : Time) : 0 < Sub t u <-> u < t.
Proof.
  unfold Sub, minInt64, maxInt64.
  destruct (Z.ltb_spec (t - u) (-9223372036854775808));
    [| destruct (Z.ltb_spec 9223372036854775807 (t - u))]; lia.
Qed.

Lemma Sub_zero (t u : Time) : Sub t u = 0 <-> t = u.
Proof.
  unfold Sub, minInt64, maxInt64.
  destruct (Z.ltb_spec (t - u) (-9223372036854775808));
    [| destruct (Z.ltb_spec 9223372036854775807 (t - u))]; lia.
Qed.

Lemma Sub_neg (t u : Time) : Sub t u < 0 <-> t < u.
Proof.
  unfold Sub, minInt64, maxInt64.
  destruct (Z.ltb_spec (t - u) (-9223372036854775808));
    [| destruct (Z.ltb_spec 9223372036854775807 (t - u))]; lia.
Qed.


Lemma add64_small (x y : Z) : in_int64 (x + y) -> add64 x y = x + y.
Proof. intros Hr. unfold add64. now apply wrap64_small. Qed.

Lemma sub64_small (x y : Z) : in_int64 (x - y) -> sub64 x y = x - y.
Proof. intros Hr. unfold sub64. now apply wrap64_small. Qed.

Lemma neg64_small (x : Z) : in_int64 (- x) -> neg64 x = - x.
Proof. intros Hr. unfold neg64. now apply wrap64_small. Qed.

(* ================================================================== *)
(** ** Facts about locations and [time.Date] *)

Lemma small_in_int64 (z : Z) : small z -> in_int64 z.
Proof. unfold small, in_int64, minInt64, maxInt64. lia. Qed.

Lemma small_near (z c : Z) : small z -> -12 <= c <= 12 -> in_int64 (z + c).
Proof. unfold small, in_int64, minInt64, maxInt64. lia. Qed.

Lemma inYears_small (y : Z) : inYears y -> small y.
Proof. unfold inYears, yearMax, small. lia. Qed.

(** While nothing wraps, [norm] is the division with a remainder that
    is not negative. *)
Lemma norm_12 (hi lo : Z) :
  -4611686018427387904 <= hi <= 4611686018427387904 ->
  -4611686018427387904 <= lo <= 4611686018427387904 ->
  norm hi lo 12 = (hi + lo / 12, lo mod 12).
Proof.
  intros Hhi Hlo. unfold norm.
  destruct (Z.ltb_spec lo 0) as [Hneg | Hpos].
  - rewrite neg64_small by (unfold in_int64, minInt64, maxInt64; lia).
    rewrite sub64_small by (unfold in_int64, minInt64, maxInt64; lia).
    rewrite Z.quot_div_nonneg by lia.
    set (q := (- lo - 1) / 12).
    assert (Hq : 12 * q <= - lo - 1 < 12 * q + 12)
      by (subst q; Z.to_euclidean_division_equations; lia).
    clearbody q.
    rewrite (add64_small q 1) by (unfold in_int64, minInt64, maxInt64; lia).
    rewrite mul64_small by (unfold in_int64, minInt64, maxInt64; lia).
    rewrite sub64_small by (unfold in_int64, minInt64, maxInt64; lia).
    rewrite add64_small by (unfold in_int64, minInt64, maxInt64; lia).
    destruct (Z.leb_spec 12 (lo + (q + 1) * 12)) as [Hge | Hlt]; [lia |].
    f_equal; Z.to_euclidean_division_equations; lia.
  - destruct (Z.leb_spec 12 lo) as [Hge | Hlt].
    + rewrite Z.quot_div_nonneg by lia.
      set (q := lo / 12).
      assert (Hq : 12 * q <= lo < 12 * q + 12)
        by (subst q; Z.to_euclidean_division_equations; lia).
      assert (Hr : lo mod 12 = lo - q * 12)
        by (subst q; Z.to_euclidean_division_equations; lia).
      clearbody q.
      rewrite mul64_small by (unfold in_int64, minInt64, maxInt64; lia).
      rewrite add64_small by (unfold in_int64, minInt64, maxInt64; lia).
      rewrite sub64_small by (unfold in_int64, minInt64, maxInt64; lia).
      rewrite Hr. reflexivity.
    + f_equal; Z.to_euclidean_division_equations; lia.
Qed.

Lemma lookup_plain (l : Location) (sec : Z) :
  loc_tx l = [] -> lookup l sec = (loc_first l, alpha, omega).
Proof. intros Htx. unfold lookup. rewrite Htx. reflexivity. Qed.

Lemma offsetAt_plain (l : Location) (t : Time) :
  plainLocation l -> offsetAt l t = loc_first l.
Proof.
  intros [Htx _]. unfold offsetAt. rewrite lookup_plain by exact Htx.
  reflexivity.
Qed.

(** In a location without transitions the wall clock is the instant
    moved by the offset. *)
Lemma wall_plain (l : Location) (t : Time) :
  plainLocation l -> wall l t = t + loc_first l * nsPerSecond.
Proof. intros Hl. unfold wall. rewrite offsetAt_plain by exact Hl. reflexivity. Qed.

Lemma daysBefore_bounds (i : Z) : 0 <= daysBefore i <= 365.
Proof.
  destruct i as [| p | p]; cbn; try lia.
  do 4 (destruct p as [p | p |]; cbn; try lia).
Qed.

(** The day numbers of the years within reach, and one year more, are
    far from what 64 bits of seconds hold. *)
Lemma dayNumber_bounds (y m d : Z) :
  - (yearMax + 1) <= y <= yearMax + 1 -> -31 <= d <= 62 ->
  -106140000002000 <= dayNumber y m d <= 106140000002000.
Proof.
  unfold yearMax, dayNumber, daysSinceEpoch. intros Hy Hd.
  pose proof (daysBefore_bounds (m - 1)) as Hb.
  assert (Hl : 0 <= (if isLeap y && (3 <=? m) then 1 else 0) <= 1)
    by (destruct (isLeap y && (3 <=? m)); lia).
  revert Hl. generalize (if isLeap y && (3 <=? m) then 1 else 0).
  revert Hb. generalize (daysBefore (m - 1)).
  intros b Hb c Hc.
  Z.to_euclidean_division_equations; lia.
Qed.

Lemma wallOf_bounds (y m d tod : Z) :
  - (yearMax + 1) <= y <= yearMax + 1 -> -31 <= d <= 62 ->
  0 <= tod < nsPerDay ->
  - wallMax <= wallOf y m d tod <= wallMax.
Proof.
  intros Hy Hd Htod. pose proof (dayNumber_bounds y m d Hy Hd).
  unfold wallOf, wallMax, nsPerDay in *. lia.
Qed.

(** In a location without transitions [time.Date] moves the wall clock
    back by the offset, as long as the seconds fit. *)
Lemma fromWall_plain (l : Location) (w : Z) :
  plainLocation l -> - wallMax <= w <= wallMax ->
  fromWall l w = w - loc_first l * nsPerSecond.
Proof.
  intros [Htx Hoff] Hw. unfold fromWall.
  assert (Hs : w = nsPerSecond * (w / nsPerSecond) + w mod nsPerSecond)
    by (apply Z.div_mod; unfold nsPerSecond; lia).
  pose proof (Z.mod_pos_bound w nsPerSecond ltac:(unfold nsPerSecond; lia))
    as Hr.
  set (q := w / nsPerSecond) in *.
  assert (Hqb : -9170496000172886401 <= q <= 9170496000172886400).
  { revert Hs Hr. generalize (w mod nsPerSecond). intros r Hs Hr.
    unfold nsPerSecond, wallMax in *. lia. }
  rewrite wrap64_small
    by (unfold in_int64, minInt64, maxInt64, unixToInternal; lia).
  rewrite lookup_plain by exact Htx.
  cbv beta iota zeta.
  assert (Hsel :
    (if loc_first l =? 0 then 0
     else if (sub64 (q - unixToInternal) (loc_first l) <? alpha)
             || (omega <=? sub64 (q - unixToInternal) (loc_first l))
          then fst (fst (lookup l (sub64 (q - unixToInternal) (loc_first l))))
          else loc_first l)
    = loc_first l).
  { destruct (Z.eqb_spec (loc_first l) 0) as [-> | _]; [reflexivity |].
    rewrite lookup_plain by exact Htx. cbn [fst].
    destruct ((sub64 (q - unixToInternal) (loc_first l) <? alpha)
              || (omega <=? sub64 (q - unixToInternal) (loc_first l)));
      reflexivity. }
  rewrite Hsel.
  rewrite sub64_small
    by (unfold in_int64, minInt64, maxInt64, unixToInternal; lia).
  rewrite add64_small
    by (unfold in_int64, minInt64, maxInt64, unixToInternal; lia).
  unfold nsPerSecond in *. lia.
Qed.

(** In a location without transitions every wall clock within reach is
    shown. *)
Lemma shown_plain (l : Location) (w : Z) :
  plainLocation l -> - wallMax <= w <= wallMax -> shown l w.
Proof.
  intros Hl Hw. unfold shown.
  rewrite wall_plain, fromWall_plain by assumption. lia.
Qed.

(** [time.Date] builds the instant for the wall clock of the normalised
    month, while its integers do not wrap. *)
Lemma Date_fromWall (l : Location) (y m d tod Y M : Z) :
  small y -> small m -> normMonth y m = (Y, M) ->
  Date y m d tod l = fromWall l (wallOf Y M d tod).
Proof.
  intros Hy Hm Hnorm.
  unfold normMonth in Hnorm. injection Hnorm as HYe HMe.
  unfold Date.
  rewrite sub64_small
    by (unfold small, in_int64, minInt64, maxInt64 in *; lia).
  rewrite norm_12 by (unfold small in *; lia).
  rewrite HYe.
  assert (Hmod : 0 <= (m - 1) mod 12 < 12)
    by (apply Z.mod_pos_bound; lia).
  rewrite add64_small
    by (unfold in_int64, minInt64, maxInt64; lia).
  rewrite HMe. reflexivity.
Qed.

(** Every instant shows a valid civil date and a time of day in every
    location. *)
Lemma civil_valid (l : Location) (t : Time) :
  let '(y, m, d) := civil l t in
  1 <= m <= 12 /\ 1 <= d <= daysIn m y
  /\ wall l t = wallOf y m d (timeOfDay l t).
Proof. unfold civil, timeOfDay, wallOf. apply dateOf_valid. Qed.

Lemma Day_civil (l : Location) (t : Time) : Day l t = snd (civil l t).
Proof. reflexivity. Qed.

Lemma timeOfDay_wall (l : Location) (t : Time) :
  timeOfDay l t = clockOf (wall l t).
Proof. reflexivity. Qed.

Lemma timeOfDay_bounds (l : Location) (t : Time) :
  0 <= timeOfDay l t < nsPerDay.
Proof. unfold timeOfDay. apply clockOf_bounds. Qed.

Lemma dateOf_wallOf (y m d tod : Z) :
  1 <= m <= 12 -> 1 <= d <= daysIn m y -> 0 <= tod < nsPerDay ->
  dateOf (wallOf y m d tod) = (y, m, d).
Proof. unfold wallOf. apply dateOf_dayNumber. Qed.

Lemma clockOf_wallOf (y m d tod : Z) :
  0 <= tod < nsPerDay -> clockOf (wallOf y m d tod) = tod.
Proof. unfold wallOf. apply clockOf_compose. Qed.

Lemma wallOf_nextMonth (y m d tod : Z) :
  1 <= m <= 12 ->
  wallOf y m d tod
  = wallOf (fst (nextMonth y m)) (snd (nextMonth y m)) (d - daysIn m y) tod.
Proof.
  intros Hm. unfold wallOf. rewrite (dayNumber_nextMonth y m d Hm).
  reflexivity.
Qed.

Lemma normMonth_small_year (y x Y M : Z) :
  normMonth y x = (Y, M) -> inYears y -> inYears Y -> small x.
Proof.
  unfold normMonth, inYears, yearMax, small.
  intros Hn Hy HY. injection Hn as HYe _.
  Z.to_euclidean_division_equations; lia.
Qed.

(** [AddDate] by whole years and months builds the instant for the
    anchor's day and time of day in the month shifted to. *)
Lemma AddDate_fromWall (l : Location) (t : Time) (dy dm : Z) :
  forall y m d Y M,
    civil l t = (y, m, d) ->
    small (y + dy) -> small (m + dm) ->
    normMonth (y + dy) (m + dm) = (Y, M) ->
    AddDate l t dy dm 0 = fromWall l (wallOf Y M d (timeOfDay l t)).
Proof.
  intros y m d Y M Hciv Hsy Hsm Hnorm.
  pose proof (civil_valid l t) as Hv. rewrite Hciv in Hv.
  destruct Hv as (Hm & Hd & _).
  pose proof (daysIn_bounds m y Hm) as Hdim.
  unfold AddDate. rewrite Hciv.
  rewrite !add64_small
    by (apply small_in_int64; unfold small in *; lia).
  rewrite Z.add_0_r.
  now apply Date_fromWall.
Qed.

(** Shifting by whole years and months and adjusting as [getCandidate]
    does gives the shifted month, on the day of the start or on the
    month's last day, at the start's time of day: as long as the
    location shows the wall clock that the shift names and the one that
    the adjustment names. *)
Lemma clampTo_AddDate_shown (l : Location) (t : Time) (dy dm : Z) :
  forall y m d Y M,
    civil l t = (y, m, d) ->
    small (y + dy) -> small (m + dm) ->
    normMonth (y + dy) (m + dm) = (Y, M) ->
    inYears Y ->
    shown l (wallOf Y M d (timeOfDay l t)) ->
    shown l (wallOf Y M (Z.min d (daysIn M Y)) (timeOfDay l t)) ->
    clampTo l t (AddDate l t dy dm 0)
    = fromWall l (wallOf Y M (Z.min d (daysIn M Y)) (timeOfDay l t)).
Proof.
  intros y m d Y M Hciv Hsy Hsm Hnorm HY Hshift Hlast.
  pose proof (civil_valid l t) as Hv. rewrite Hciv in Hv.
  destruct Hv as (Hm & Hd & Ht).
  pose proof (timeOfDay_bounds l t) as Htod.
  pose proof (normMonth_range (y + dy) (m + dm)) as HM.
  rewrite Hnorm in HM; cbn [snd] in HM.
  pose proof (daysIn_bounds m y Hm) as Hdim.
  pose proof (daysIn_bounds M Y HM) as HdimM.
  assert (Hres : AddDate l t dy dm 0
                 = fromWall l (wallOf Y M d (timeOfDay l t)))
    by exact (AddDate_fromWall l t dy dm y m d Y M Hciv Hsy Hsm Hnorm).
  assert (Hwall : wall l (AddDate l t dy dm 0)
                  = wallOf Y M d (timeOfDay l t))
    by (rewrite Hres; exact Hshift).
  unfold clampTo.
  assert (HDt : Day l t = d) by (unfold Day; rewrite Hciv; reflexivity).
  rewrite HDt.
  destruct (Z.le_gt_cases d (daysIn M Y)) as [Hle | Hgt].
  - (* the day exists in the target month *)
    assert (HD : Day l (AddDate l t dy dm 0) = d).
    { unfold Day, civil. rewrite Hwall.
      rewrite dateOf_wallOf by lia. reflexivity. }
    rewrite HD, Z.eqb_refl. cbn [negb].
    rewrite Z.min_l by lia. exact Hres.
  - (* it does not: [AddDate] has run into the month after *)
    pose proof (nextMonth_range Y M HM) as HnM.
    pose proof (wallOf_nextMonth Y M d (timeOfDay l t) HM) as Hnext.
    pose proof (wallOf_nextMonth Y M (daysIn M Y) (timeOfDay l t) HM) as Hlst.
    destruct (nextMonth Y M) as [nY nM] eqn:EnM. cbn [fst snd] in *.
    pose proof (daysIn_bounds nM nY HnM) as HdimN.
    assert (HnY : - (yearMax + 1) <= nY <= yearMax + 1).
    { unfold nextMonth in EnM. unfold inYears in HY.
      destruct (M =? 12); injection EnM as <- _; lia. }
    assert (Hciv' : civil l (AddDate l t dy dm 0) = (nY, nM, d - daysIn M Y)).
    { unfold civil. rewrite Hwall, Hnext. apply dateOf_wallOf; lia. }
    assert (Htod' : timeOfDay l (AddDate l t dy dm 0) = timeOfDay l t).
    { unfold timeOfDay at 1. rewrite Hwall. apply clockOf_wallOf. lia. }
    assert (HD : Day l (AddDate l t dy dm 0) = d - daysIn M Y).
    { unfold Day. rewrite Hciv'. reflexivity. }
    rewrite HD.
    destruct (Z.eqb_spec (d - daysIn M Y) d) as [Heq | _]; [lia |].
    cbn [negb].
    unfold AddDate at 1. rewrite Hciv', Htod'.
    rewrite !add64_small
      by (apply small_in_int64; unfold small, yearMax in *; lia).
    rewrite !Z.add_0_r.
    replace (d - daysIn M Y + - (d - daysIn M Y)) with 0 by lia.
    rewrite (Date_fromWall l nY nM 0 _ nY nM);
      try (unfold small, yearMax in *; lia);
      [| apply normMonth_id; lia].
    rewrite Z.min_r by lia.
    rewrite Hlst.
    replace (daysIn M Y - daysIn M Y) with 0 by lia.
    reflexivity.
Qed.

Lemma civil_clampTo_AddDate_shown (l : Location) (t : Time) (dy dm : Z) :
  forall y m d Y M,
    civil l t = (y, m, d) ->
    small (y + dy) -> small (m + dm) ->
    normMonth (y + dy) (m + dm) = (Y, M) ->
    inYears Y ->
    shown l (wallOf Y M d (timeOfDay l t)) ->
    shown l (wallOf Y M (Z.min d (daysIn M Y)) (timeOfDay l t)) ->
    civil l (clampTo l t (AddDate l t dy dm 0)) = (Y, M, Z.min d (daysIn M Y))
    /\ timeOfDay l (clampTo l t (AddDate l t dy dm 0)) = timeOfDay l t.
Proof.
  intros y m d Y M Hciv Hsy Hsm Hnorm HY Hshift Hlast.
  pose proof (civil_valid l t) as Hv. rewrite Hciv in Hv.
  destruct Hv as (Hm & Hd & Ht).
  pose proof (timeOfDay_bounds l t) as Htod.
  pose proof (normMonth_range (y + dy) (m + dm)) as HM.
  rewrite Hnorm in HM; cbn [snd] in HM.
  pose proof (daysIn_bounds M Y HM) as HdimM.
  assert (Hwall : wall l (clampTo l t (AddDate l t dy dm 0))
                  = wallOf Y M (Z.min d (daysIn M Y)) (timeOfDay l t)).
  { rewrite (clampTo_AddDate_shown l t dy dm y m d Y M) by assumption.
    exact Hlast. }
  unfold civil at 1, timeOfDay at 1. rewrite Hwall.
  split.
  - apply dateOf_wallOf; lia.
  - apply clockOf_wallOf; lia.
Qed.

(** In a location without transitions the wall clocks of the years
    within reach are shown. *)
Lemma shown_plain_date (l : Location) (t : Time) (Y M d : Z) :
  plainLocation l -> inYears Y -> 1 <= d <= 31 ->
  shown l (wallOf Y M d (timeOfDay l t)).
Proof.
  intros Hl HY Hd. apply shown_plain; [exact Hl |].
  apply wallOf_bounds; [unfold inYears in HY; lia | lia |].
  apply timeOfDay_bounds.
Qed.

Lemma min_day_range (m y d M Y : Z) :
  1 <= m <= 12 -> 1 <= d <= daysIn m y -> 1 <= M <= 12 ->
  1 <= d <= 31 /\ 1 <= Z.min d (daysIn M Y) <= 31.
Proof.
  intros Hm Hd HM.
  pose proof (daysIn_bounds m y Hm). pose proof (daysIn_bounds M Y HM). lia.
Qed.

(** The same in a location without transitions: nothing need be asked
    of the wall clocks. *)
Lemma clampTo_AddDate (l : Location) (t : Time) (dy dm : Z) :
  forall y m d Y M,
    plainLocation l ->
    civil l t = (y, m, d) ->
    small (y + dy) -> small (m + dm) ->
    normMonth (y + dy) (m + dm) = (Y, M) ->
    inYears Y ->
    clampTo l t (AddDate l t dy dm 0)
    = wallOf Y M (Z.min d (daysIn M Y)) (timeOfDay l t)
      - loc_first l * nsPerSecond.
Proof.
  intros y m d Y M Hl Hciv Hsy Hsm Hnorm HY.
  pose proof (civil_valid l t) as Hv. rewrite Hciv in Hv.
  destruct Hv as (Hm & Hd & _).
  pose proof (normMonth_range (y + dy) (m + dm)) as HM.
  rewrite Hnorm in HM; cbn [snd] in HM.
  destruct (min_day_range m y d M Y Hm Hd HM) as [Hd1 Hd2].
  rewrite (clampTo_AddDate_shown l t dy dm y m d Y M Hciv Hsy Hsm Hnorm HY).
  - apply fromWall_plain; [exact Hl |].
    apply wallOf_bounds; [unfold inYears in HY; lia | lia |].
    apply timeOfDay_bounds.
  - now apply shown_plain_date.
  - now apply shown_plain_date.
Qed.

Lemma civil_clampTo_AddDate (l : Location) (t : Time) (dy dm : Z) :
  forall y m d Y M,
    plainLocation l ->
    civil l t = (y, m, d) ->
    small (y + dy) -> small (m + dm) ->
    normMonth (y + dy) (m + dm) = (Y, M) ->
    inYears Y ->
    civil l (clampTo l t (AddDate l t dy dm 0)) = (Y, M, Z.min d (daysIn M Y))
    /\ timeOfDay l (clampTo l t (AddDate l t dy dm 0)) = timeOfDay l t.
Proof.
  intros y m d Y M Hl Hciv Hsy Hsm Hnorm HY.
  pose proof (civil_valid l t) as Hv. rewrite Hciv in Hv.
  destruct Hv as (Hm & Hd & _).
  pose proof (normMonth_range (y + dy) (m + dm)) as HM.
  rewrite Hnorm in HM; cbn [snd] in HM.
  destruct (min_day_range m y d M Y Hm Hd HM) as [Hd1 Hd2].
  apply (civil_clampTo_AddDate_shown l t dy dm y m d Y M Hciv Hsy Hsm Hnorm HY);
    now apply shown_plain_date.
Qed.

Lemma dayNumber_day (y m d d' : Z) :
  dayNumber y m d' = dayNumber y m d + (d' - d).
Proof. unfold dayNumber. lia. Qed.

Lemma normMonth_years (y dy x : Z) :
  normMonth (y + dy) x = normMonth y (x + 12 * dy).
Proof.
  unfold normMonth. f_equal; Z.to_euclidean_division_equations; lia.
Qed.

Lemma normMonth_succ (y x : Z) :
  normMonth y (x + 1)
  = nextMonth (fst (normMonth y x)) (snd (normMonth y x)).
Proof.
  unfold normMonth, nextMonth. cbn [fst snd].
  destruct (Z.eqb_spec ((x - 1) mod 12 + 1) 12);
    f_equal; Z.to_euclidean_division_equations; lia.
Qed.

(** A later month begins after an earlier month has ended. *)
Lemma month_start_later (k : nat) (y x : Z) :
  dayNumber (fst (normMonth y x)) (snd (normMonth y x)) 1
  + daysIn (snd (normMonth y x)) (fst (normMonth y x))
  <= dayNumber (fst (normMonth y (x + Z.of_nat (S k))))
               (snd (normMonth y (x + Z.of_nat (S k)))) 1.
Proof.
  induction k as [| k IH].
  - change (Z.of_nat 1) with 1. rewrite normMonth_succ.
    pose proof (normMonth_range y x) as Hr.
    pose proof (dayNumber_nextMonth (fst (normMonth y x)) (snd (normMonth y x))
                  (daysIn (snd (normMonth y x)) (fst (normMonth y x)) + 1) Hr)
      as Hn.
    rewrite (dayNumber_day _ _ 1) in Hn.
    replace (daysIn (snd (normMonth y x)) (fst (normMonth y x)) + 1
             - daysIn (snd (normMonth y x)) (fst (normMonth y x)))
      with 1 in Hn by lia.
    lia.
  - replace (x + Z.of_nat (S (S k))) with (x + Z.of_nat (S k) + 1) by lia.
    rewrite normMonth_succ.
    set (Y := fst (normMonth y (x + Z.of_nat (S k)))) in *.
    set (M := snd (normMonth y (x + Z.of_nat (S k)))) in *.
    pose proof (normMonth_range y (x + Z.of_nat (S k))) as Hr. fold M in Hr.
    pose proof (dayNumber_nextMonth Y M (daysIn M Y + 1) Hr) as Hn.
    rewrite (dayNumber_day _ _ 1) in Hn.
    replace (daysIn M Y + 1 - daysIn M Y) with 1 in Hn by lia.
    pose proof (daysIn_bounds M Y Hr). lia.
Qed.

(** Of two shifts of an anchor by whole years and months, the one by
    more months gives the later instant after the adjustment, by a day
    at the least. *)
Lemma clampTo_AddDate_lt (l : Location) (t : Time) (dy dm dy' dm' : Z) :
  plainLocation l ->
  small (Year l t + dy) -> small (Month l t + dm) ->
  small (Year l t + dy') -> small (Month l t + dm') ->
  inYears (fst (normMonth (Year l t + dy) (Month l t + dm))) ->
  inYears (fst (normMonth (Year l t + dy') (Month l t + dm'))) ->
  12 * dy + dm < 12 * dy' + dm' ->
  clampTo l t (AddDate l t dy dm 0) + nsPerDay
  <= clampTo l t (AddDate l t dy' dm' 0).
Proof.
  unfold Year, Month.
  destruct (civil l t) as [[y m] d] eqn:Hciv. cbn [fst snd].
  intros Hl Hsy Hsm Hsy' Hsm' HY HY' Hlt.
  pose proof (civil_valid l t) as Hv. rewrite Hciv in Hv.
  destruct Hv as (Hm & Hd & _).
  pose proof (timeOfDay_bounds l t) as Htod.
  set (x := m + dm + 12 * dy).
  set (x' := m + dm' + 12 * dy').
  assert (Hn : normMonth (y + dy) (m + dm) = normMonth y x)
    by apply normMonth_years.
  assert (Hn' : normMonth (y + dy') (m + dm') = normMonth y x')
    by apply normMonth_years.
  rewrite Hn in HY. rewrite Hn' in HY'.
  rewrite (clampTo_AddDate l t dy dm y m d _ _ Hl Hciv Hsy Hsm
             (eq_trans Hn (surjective_pairing _)) HY).
  rewrite (clampTo_AddDate l t dy' dm' y m d _ _ Hl Hciv Hsy' Hsm'
             (eq_trans Hn' (surjective_pairing _)) HY').
  pose proof (month_start_later (Z.to_nat (x' - x - 1)) y x) as Hlater.
  replace (x + Z.of_nat (S (Z.to_nat (x' - x - 1)))) with x' in Hlater
    by (subst x x'; lia).
  set (Y := fst (normMonth y x)) in *. set (M := snd (normMonth y x)) in *.
  set (Y' := fst (normMonth y x')) in *. set (M' := snd (normMonth y x')) in *.
  pose proof (normMonth_range y x) as Hr. fold M in Hr.
  pose proof (normMonth_range y x') as Hr'. fold M' in Hr'.
  pose proof (daysIn_bounds M Y Hr) as Hb.
  pose proof (daysIn_bounds M' Y' Hr') as Hb'.
  unfold wallOf.
  rewrite (dayNumber_day Y M 1 (Z.min d (daysIn M Y))).
  rewrite (dayNumber_day Y' M' 1 (Z.min d (daysIn M' Y'))).
  unfold nsPerDay in *. lia.
Qed.


#[local] Opaque IsZero Before Sub Add fromWall Date AddDate Day civil
  timeOfDay wall mul64 incr64.

(* ================================================================== *)
(** ** Each [next] is the shared loop *)

Lemma periodic_loop_catch_up (fuel : nat) (clk : Clock) :
  forall (k : nat) (p : periodic),
    match periodic_next_loop fuel clk k p (periodic_getCandidate p) with
    | None => catch_up fuel clk k (Periodic p) = None
    | Some (p', nx, k') =>
        catch_up fuel clk k (Periodic p) = Some (Periodic p', k')
        /\ nx = periodic_getCandidate p'
    end.
Proof.
  induction fuel as [| fuel IH]; intros k p; cbn [periodic_next_loop catch_up].
  - reflexivity.
  - change (c_candidate (Periodic p)) with (periodic_getCandidate p).
    change (c_started (Periodic p)) with (periodic_started p).
    destruct (Before (periodic_getCandidate p) (clk k)); [| split; reflexivity].
    destruct (negb (periodic_started p)); [split; reflexivity |].
    apply IH.
Qed.

Lemma monthly_loop_catch_up (fuel : nat) (clk : Clock) :
  forall (k : nat) (m : monthly),
    match monthly_next_loop fuel clk k m (monthly_getCandidate m) with
    | None => catch_up fuel clk k (Monthly m) = None
    | Some (m', nx, k') =>
        catch_up fuel clk k (Monthly m) = Some (Monthly m', k')
        /\ nx = monthly_getCandidate m'
    end.
Proof.
  induction fuel as [| fuel IH]; intros k m; cbn [monthly_next_loop catch_up].
  - reflexivity.
  - change (c_candidate (Monthly m)) with (monthly_getCandidate m).
    change (c_started (Monthly m)) with (monthly_started m).
    destruct (Before (monthly_getCandidate m) (clk k)); [| split; reflexivity].
    destruct (negb (monthly_started m)); [split; reflexivity |].
    apply IH.
Qed.

Lemma yearly_loop_catch_up (fuel : nat) (clk : Clock) :
  forall (k : nat) (y : yearly),
    match yearly_next_loop fuel clk k y (yearly_getCandidate y) with
    | None => catch_up fuel clk k (Yearly y) = None
    | Some (y', nx, k') =>
        catch_up fuel clk k (Yearly y) = Some (Yearly y', k')
        /\ nx = yearly_getCandidate y'
    end.
Proof.
  induction fuel as [| fuel IH]; intros k y; cbn [yearly_next_loop catch_up].
  - reflexivity.
  - change (c_candidate (Yearly y)) with (yearly_getCandidate y).
    change (c_started (Yearly y)) with (yearly_started y).
    destruct (Before (yearly_getCandidate y) (clk k)); [| split; reflexivity].
    destruct (negb (yearly_started y)); [split; reflexivity |].
    apply IH.
Qed.

Lemma next_c_next (fuel : nat) (clk : Clock) (s : scheduler) :
  next fuel clk s = c_next fuel clk s.
Proof.
  destruct s as [p | m | y]; unfold next, c_next.
  - unfold periodic_next.
    pose proof (periodic_loop_catch_up fuel clk 0 p) as L.
    destruct (periodic_next_loop fuel clk 0 p (periodic_getCandidate p))
      as [[[p' nx] k'] |].
    + destruct L as [-> ->].
      change (c_started (Periodic p')) with (periodic_started p').
      destruct (negb (periodic_started p')); reflexivity.
    + rewrite L. reflexivity.
  - unfold monthly_next.
    pose proof (monthly_loop_catch_up fuel clk 0 m) as L.
    destruct (monthly_next_loop fuel clk 0 m (monthly_getCandidate m))
      as [[[m' nx] k'] |].
    + destruct L as [-> ->].
      change (c_started (Monthly m')) with (monthly_started m').
      destruct (negb (monthly_started m')); reflexivity.
    + rewrite L. reflexivity.
  - unfold yearly_next.
    pose proof (yearly_loop_catch_up fuel clk 0 y) as L.
    destruct (yearly_next_loop fuel clk 0 y (yearly_getCandidate y))
      as [[[y' nx] k'] |].
    + destruct L as [-> ->].
      change (c_started (Yearly y')) with (yearly_started y').
      destruct (negb (yearly_started y')); reflexivity.
    + rewrite L. reflexivity.
Qed.

(* ================================================================== *)
(** ** What the shared loop does *)

Section GenericFacts.

Context {S : Type} `{Cadence S}.

(** An unprimed cadence leaves the loop at its first test, whatever the
    clock says. *)
Lemma catch_up_unprimed (fuel : nat) (clk : Clock) (i : nat) (s : S) :
  c_started s = false ->
  catch_up (Datatypes.S fuel) clk i s = Some (s, Datatypes.S i).
Proof.
  intros Hs. cbn [catch_up]. rewrite Hs. cbn [negb].
  destruct (Before (c_candidate s) (clk i)); reflexivity.
Qed.

(** A primed cadence whose candidates for the next [k] indices are
    before the clock, and whose candidate after them is not, leaves the
    loop on that one. *)
Lemma catch_up_primed (k : nat) :
  forall (fuel : nat) (clk : Clock) (i : nat) (s : S),
    c_started s = true ->
    (forall j, (j < k)%nat ->
       Before (c_at s (indexAfter j (c_n s))) (clk (i + j)%nat) = true) ->
    Before (c_at s (indexAfter k (c_n s))) (clk (i + k)%nat) = false ->
    (k < fuel)%nat ->
    catch_up fuel clk i s
    = Some (c_set_n s (indexAfter k (c_n s)), Datatypes.S (i + k)).
Proof.
  unfold c_at.
  induction k as [| k IH]; intros fuel clk i s Hs Hbefore Hstop Hfuel;
    (destruct fuel as [| fuel]; [lia |]); cbn [catch_up].
  - change (indexAfter 0 (c_n s)) with (c_n s) in *.
    rewrite c_set_n_same, Nat.add_0_r in *.
    rewrite Hstop. reflexivity.
  - pose proof (Hbefore 0%nat ltac:(lia)) as H0.
    change (indexAfter 0 (c_n s)) with (c_n s) in H0.
    rewrite c_set_n_same, Nat.add_0_r in H0.
    rewrite H0, Hs. cbn [negb].
    rewrite (IH fuel clk (Datatypes.S i) (c_set_n s (incr64 (c_n s)))).
    + rewrite c_n_set_n, c_set_n_set_n, <- indexAfter_succ_r.
      do 2 f_equal. lia.
    + rewrite c_started_set_n. exact Hs.
    + intros j Hj. rewrite c_n_set_n, c_set_n_set_n, <- indexAfter_succ_r.
      replace (Datatypes.S i + j)%nat with (i + Datatypes.S j)%nat by lia.
      apply Hbefore. lia.
    + rewrite c_n_set_n, c_set_n_set_n, <- indexAfter_succ_r.
      replace (Datatypes.S i + k)%nat with (i + Datatypes.S k)%nat by lia.
      exact Hstop.
    + lia.
Qed.

(** Conversely, whatever the loop returns was reached that way. *)
Lemma catch_up_inv (fuel : nat) :
  forall (clk : Clock) (i : nat) (s s' : S) (i' : nat),
    catch_up fuel clk i s = Some (s', i') ->
    exists k : nat,
      (k < fuel)%nat
      /\ s' = c_set_n s (indexAfter k (c_n s))
      /\ i' = Datatypes.S (i + k)
      /\ (c_started s = false -> k = 0%nat)
      /\ (c_started s = true ->
          Before (c_candidate s') (clk (i + k)%nat) = false
          /\ forall j, (j < k)%nat ->
               Before (c_at s (indexAfter j (c_n s))) (clk (i + j)%nat) = true).
Proof.
  unfold c_at.
  induction fuel as [| fuel IH]; intros clk i s s' i' Hrun;
    cbn [catch_up] in Hrun; [discriminate |].
  destruct (Before (c_candidate s) (clk i)) eqn:Hb.
  - destruct (c_started s) eqn:Hs; cbn [negb] in Hrun.
    + apply IH in Hrun.
      destruct Hrun as (k & Hk & -> & -> & _ & Hprimed).
      rewrite c_started_set_n in Hprimed.
      destruct (Hprimed Hs) as [Hstop Hbefore].
      rewrite c_n_set_n, c_set_n_set_n, <- indexAfter_succ_r in *.
      exists (Datatypes.S k). repeat split.
      * lia.
      * f_equal. lia.
      * discriminate.
      * replace (i + Datatypes.S k)%nat with (Datatypes.S i + k)%nat by lia.
        exact Hstop.
      * intros [| j] Hj.
        -- change (indexAfter 0 (c_n s)) with (c_n s).
           rewrite c_set_n_same, Nat.add_0_r. exact Hb.
        -- replace (i + Datatypes.S j)%nat with (Datatypes.S i + j)%nat by lia.
           specialize (Hbefore j ltac:(lia)).
           rewrite c_set_n_set_n, <- indexAfter_succ_r in Hbefore.
           exact Hbefore.
    + injection Hrun as <- <-.
      exists 0%nat. change (indexAfter 0 (c_n s)) with (c_n s).
      rewrite c_set_n_same, Nat.add_0_r.
      repeat split; try lia; discriminate.
  - injection Hrun as <- <-.
    exists 0%nat. change (indexAfter 0 (c_n s)) with (c_n s).
    rewrite c_set_n_same, Nat.add_0_r.
    repeat split; try lia; try assumption.
Qed.

(** [next] on an unprimed cadence. *)
Lemma c_next_unprimed (fuel : nat) (clk : Clock) (s : S) :
  c_started s = false ->
  c_next (Datatypes.S fuel) clk s
  = Some (c_set_started s true,
          (IsZero (c_end s) || Before (c_candidate s) (c_end s),
           Sub (c_candidate s) (clk 1%nat))).
Proof.
  intros Hs. unfold c_next.
  rewrite catch_up_unprimed by assumption.
  rewrite Hs. cbn [negb]. rewrite c_end_set_started. reflexivity.
Qed.

(** [next] on a primed cadence. *)
Lemma c_next_primed (k fuel : nat) (clk : Clock) (s : S) :
  c_started s = true ->
  (forall j, (j < k)%nat ->
     Before (c_at s (indexAfter j (c_n s))) (clk j) = true) ->
  Before (c_at s (indexAfter k (c_n s))) (clk k) = false ->
  (k < fuel)%nat ->
  c_next fuel clk s
  = Some (c_set_n s (indexAfter k (c_n s)),
          (IsZero (c_end s)
           || Before (c_at s (indexAfter k (c_n s))) (c_end s),
           Sub (c_at s (indexAfter k (c_n s))) (clk (Datatypes.S k)))).
Proof.
  intros Hs Hbefore Hstop Hfuel. unfold c_next.
  rewrite (catch_up_primed k fuel clk 0 s Hs Hbefore Hstop Hfuel).
  rewrite c_started_set_n, Hs. cbn [negb].
  rewrite c_end_set_n. reflexivity.
Qed.

(** Whatever [next] returns. *)
Lemma c_next_inv (fuel : nat) (clk : Clock) (s s' : S) (h : bool)
    (w : Duration) :
  c_next fuel clk s = Some (s', (h, w)) ->
  exists k : nat,
    (k < fuel)%nat
    /\ s' = c_set_started (c_set_n s (indexAfter k (c_n s))) true
    /\ h = (IsZero (c_end s) || Before (c_candidate s') (c_end s))
    /\ w = Sub (c_candidate s') (clk (Datatypes.S k))
    /\ (c_started s = false -> k = 0%nat)
    /\ (c_started s = true ->
        Before (c_candidate s') (clk k) = false
        /\ forall j, (j < k)%nat ->
             Before (c_at s (indexAfter j (c_n s))) (clk j) = true).
Proof.
  unfold c_next. intros Hrun.
  destruct (catch_up fuel clk 0 s) as [[s1 i1] |] eqn:Hloop; [| discriminate].
  apply catch_up_inv in Hloop.
  destruct Hloop as (k & Hk & -> & -> & Hun & Hpr).
  injection Hrun as <- <- <-.
  exists k.
  assert (Hsame : (if negb (c_started (c_set_n s (indexAfter k (c_n s))))
                   then c_set_started (c_set_n s (indexAfter k (c_n s))) true
                   else c_set_n s (indexAfter k (c_n s)))
                  = c_set_started (c_set_n s (indexAfter k (c_n s))) true).
  { destruct (c_started (c_set_n s (indexAfter k (c_n s)))) eqn:E;
      cbn [negb]; [| reflexivity].
    rewrite <- E, c_set_started_same. reflexivity. }
  rewrite Hsame, c_end_set_started, c_end_set_n, c_candidate_set_started.
  repeat split; try assumption; try lia; apply Hpr; assumption.
Qed.

End GenericFacts.

(* ================================================================== *)
(** ** The same facts on the interface value *)

Lemma sched_set_started_same (s : scheduler) :
  sched_started s = true -> sched_set_started s true = s.
Proof.
  intros Hs. rewrite <- Hs.
  exact (c_set_started_same (S := scheduler) s).
Qed.

Lemma sched_n_set_started (s : scheduler) (b : bool) :
  sched_n (sched_set_started s b) = sched_n s.
Proof. exact (c_n_set_started (S := scheduler) s b). Qed.

Lemma sched_started_set_started (s : scheduler) (b : bool) :
  sched_started (sched_set_started s b) = b.
Proof. exact (c_started_set_started (S := scheduler) s b). Qed.

Lemma sched_end_set_started (s : scheduler) (b : bool) :
  sched_end (sched_set_started s b) = sched_end s.
Proof. exact (c_end_set_started (S := scheduler) s b). Qed.

Lemma sched_n_set_n (s : scheduler) (z : Z) : sched_n (sched_set_n s z) = z.
Proof. exact (c_n_set_n (S := scheduler) s z). Qed.

Lemma sched_started_set_n (s : scheduler) (z : Z) :
  sched_started (sched_set_n s z) = sched_started s.
Proof. exact (c_started_set_n (S := scheduler) s z). Qed.

Lemma sched_end_set_n (s : scheduler) (z : Z) :
  sched_end (sched_set_n s z) = sched_end s.
Proof. exact (c_end_set_n (S := scheduler) s z). Qed.

Lemma sched_set_n_same (s : scheduler) : sched_set_n s (sched_n s) = s.
Proof. exact (c_set_n_same (S := scheduler) s). Qed.

Lemma sched_set_n_set_n (s : scheduler) (y z : Z) :
  sched_set_n (sched_set_n s y) z = sched_set_n s z.
Proof. exact (c_set_n_set_n (S := scheduler) s y z). Qed.

Lemma sched_start_set_n (s : scheduler) (z : Z) :
  sched_start (sched_set_n s z) = sched_start s.
Proof. destruct s as [c | c | c]; destruct c; reflexivity. Qed.

Lemma sched_start_set_started (s : scheduler) (b : bool) :
  sched_start (sched_set_started s b) = sched_start s.
Proof. destruct s as [c | c | c]; destruct c; reflexivity. Qed.

Lemma sched_ammount_set_n (s : scheduler) (z : Z) :
  sched_ammount (sched_set_n s z) = sched_ammount s.
Proof. destruct s as [c | c | c]; destruct c; reflexivity. Qed.

Lemma sched_ammount_set_started (s : scheduler) (b : bool) :
  sched_ammount (sched_set_started s b) = sched_ammount s.
Proof. destruct s as [c | c | c]; destruct c; reflexivity. Qed.

Lemma getCandidate_set_started (s : scheduler) (b : bool) :
  getCandidate (sched_set_started s b) = getCandidate s.
Proof. exact (c_candidate_set_started (S := scheduler) s b). Qed.

Lemma candidateAt_n (s : scheduler) : candidateAt s (sched_n s) = getCandidate s.
Proof. unfold candidateAt. rewrite sched_set_n_same. reflexivity. Qed.

Lemma candidateAt_set_n (s : scheduler) (i j : Z) :
  candidateAt (sched_set_n s i) j = candidateAt s j.
Proof. unfold candidateAt. rewrite sched_set_n_set_n. reflexivity. Qed.

Lemma candidateAt_set_started (s : scheduler) (b : bool) (j : Z) :
  candidateAt (sched_set_started s b) j = candidateAt s j.
Proof.
  unfold candidateAt.
  destruct s as [c | c | c]; destruct c; reflexivity.
Qed.

Lemma next_unprimed (fuel : nat) (clk : Clock) (s : scheduler) :
  sched_started s = false ->
  next (S fuel) clk s
  = Some (sched_set_started s true,
          (hasMore s (getCandidate s), Sub (getCandidate s) (clk 1%nat))).
Proof.
  intros Hs. rewrite next_c_next.
  exact (c_next_unprimed fuel clk s Hs).
Qed.

Lemma next_primed (k fuel : nat) (clk : Clock) (s : scheduler) :
  sched_started s = true ->
  (forall j, (j < k)%nat ->
     Before (candidateAt s (indexAfter j (sched_n s))) (clk j) = true) ->
  Before (candidateAt s (indexAfter k (sched_n s))) (clk k) = false ->
  (k < fuel)%nat ->
  next fuel clk s
  = Some (sched_set_n s (indexAfter k (sched_n s)),
          (hasMore s (candidateAt s (indexAfter k (sched_n s))),
           Sub (candidateAt s (indexAfter k (sched_n s))) (clk (S k)))).
Proof.
  intros Hs Hbefore Hstop Hfuel. rewrite next_c_next.
  exact (c_next_primed k fuel clk s Hs Hbefore Hstop Hfuel).
Qed.

Lemma next_inv (fuel : nat) (clk : Clock) (s s' : scheduler) (h : bool)
    (w : Duration) :
  next fuel clk s = Some (s', (h, w)) ->
  exists k : nat,
    (k < fuel)%nat
    /\ s' = sched_set_started (sched_set_n s (indexAfter k (sched_n s))) true
    /\ h = hasMore s (getCandidate s')
    /\ w = Sub (getCandidate s') (clk (S k))
    /\ (sched_started s = false -> k = 0%nat)
    /\ (sched_started s = true ->
        Before (getCandidate s') (clk k) = false
        /\ forall j, (j < k)%nat ->
             Before (candidateAt s (indexAfter j (sched_n s))) (clk j) = true).
Proof.
  rewrite next_c_next. intros Hrun.
  exact (c_next_inv fuel clk s s' h w Hrun).
Qed.

(** A call whose first candidate is not before the clock reports it,
    primed or not. *)
Lemma next_stay (fuel : nat) (clk : Clock) (s : scheduler) :
  Before (getCandidate s) (clk 0%nat) = false ->
  next (S fuel) clk s
  = Some (sched_set_started s true,
          (hasMore s (getCandidate s), Sub (getCandidate s) (clk 1%nat))).
Proof.
  intros Hstop.
  destruct (sched_started s) eqn:Hs.
  - rewrite (next_primed 0 (S fuel) clk s Hs).
    + change (indexAfter 0 (sched_n s)) with (sched_n s).
      rewrite candidateAt_n, sched_set_n_same, sched_set_started_same
        by assumption.
      reflexivity.
    + intros j Hj. lia.
    + change (indexAfter 0 (sched_n s)) with (sched_n s).
      rewrite candidateAt_n. exact Hstop.
    + lia.
  - apply next_unprimed. exact Hs.
Qed.

(** A primed call whose candidate is before the clock and whose
    following candidate is not reports the following one. *)
Lemma next_step (fuel : nat) (now : Time) (s : scheduler) :
  sched_started s = true ->
  Before (getCandidate s) now = true ->
  Before (candidateAt s (incr64 (sched_n s))) now = false ->
  next (S (S fuel)) (frozen now) s
  = Some (sched_set_n s (incr64 (sched_n s)),
          (hasMore s (candidateAt s (incr64 (sched_n s))),
           Sub (candidateAt s (incr64 (sched_n s))) now)).
Proof.
  intros Hs Hb Hstop.
  rewrite (next_primed 1 (S (S fuel)) (frozen now) s Hs).
  - reflexivity.
  - intros j Hj. assert (j = 0%nat) as -> by lia.
    change (indexAfter 0 (sched_n s)) with (sched_n s).
    rewrite candidateAt_n. exact Hb.
  - exact Hstop.
  - lia.
Qed.




(* ================================================================== *)
(** ** Candidates within range *)

Lemma periodic_candidate_exact (p : periodic) (n : Z) :
  in_int64 (n * periodic_ammount p) ->
  periodic_getCandidate (periodic_set_n p n)
  = periodic_start p + n * periodic_ammount p.
Proof.
  intros Hr. unfold periodic_getCandidate, periodic_set_n.
  cbn [periodic_start periodic_n periodic_ammount].
  rewrite Add_plus, mul64_small by exact Hr. reflexivity.
Qed.

Lemma periodic_candidate_n (p : periodic) :
  in_int64 (periodic_n p * periodic_ammount p) ->
  periodic_getCandidate p
  = periodic_start p + periodic_n p * periodic_ammount p.
Proof.
  intros Hr. unfold periodic_getCandidate.
  rewrite Add_plus, mul64_small by exact Hr. reflexivity.
Qed.

Lemma in_int64_mul_below (j n P : Z) :
  0 < P -> 0 <= j <= n -> in_int64 (n * P) -> in_int64 (j * P).
Proof.
  unfold in_int64, minInt64, maxInt64. intros HP Hj Hn.
  assert (j * P <= n * P) by (apply Z.mul_le_mono_nonneg_r; lia).
  assert (0 <= j * P) by (apply Z.mul_nonneg_nonneg; lia).
  lia.
Qed.

Lemma index_below_product (n P : Z) :
  0 < P -> 0 <= n -> in_int64 (n * P) -> n <= maxInt64.
Proof.
  unfold in_int64. intros HP Hn Hr.
  assert (n * 1 <= n * P) by (apply Z.mul_le_mono_nonneg_l; lia).
  lia.
Qed.

(** A product lies between zero and the product with a larger
    factor. *)
Lemma mul_between (i j a : Z) :
  0 <= i <= j -> 0 <= i * a <= j * a \/ j * a <= i * a <= 0.
Proof.
  intros Hij.
  destruct (Z.le_gt_cases 0 a) as [Ha | Ha].
  - left. split.
    + apply Z.mul_nonneg_nonneg; lia.
    + apply Z.mul_le_mono_nonneg_r; lia.
  - right. split.
    + apply Z.mul_le_mono_nonpos_r; lia.
    + apply Z.mul_nonneg_nonpos; lia.
Qed.

Lemma in_int64_mul_between (i j a : Z) :
  0 <= i <= j -> in_int64 (j * a) -> in_int64 (i * a).
Proof.
  intros Hij. pose proof (mul_between i j a Hij).
  unfold in_int64, minInt64, maxInt64. lia.
Qed.

Lemma monthly_getCandidate_clampTo (s : monthly) :
  monthly_getCandidate s
  = clampTo (monthly_loc s) (monthly_start s)
      (AddDate (monthly_loc s) (monthly_start s) 0
               (mul64 (monthly_n s) (monthly_ammount s)) 0).
Proof. reflexivity. Qed.

Lemma yearly_getCandidate_clampTo (s : yearly) :
  yearly_getCandidate s
  = clampTo (yearly_loc s) (yearly_start s)
      (AddDate (yearly_loc s) (yearly_start s)
               (mul64 (yearly_n s) (yearly_ammount s)) 0 0).
Proof. reflexivity. Qed.

(** The monthly candidate: the month that the shift leads to, the
    anchor's day or the month's last, the anchor's time of day, all in
    the anchor's location. *)
Lemma civil_monthly_getCandidate (s : monthly) (y m d Y M : Z) :
  plainLocation (monthly_loc s) ->
  civil (monthly_loc s) (monthly_start s) = (y, m, d) ->
  inYears y ->
  normMonth y (m + mul64 (monthly_n s) (monthly_ammount s)) = (Y, M) ->
  inYears Y ->
  monthly_getCandidate s
  = wallOf Y M (Z.min d (daysIn M Y))
           (timeOfDay (monthly_loc s) (monthly_start s))
    - loc_first (monthly_loc s) * nsPerSecond
  /\ civil (monthly_loc s) (monthly_getCandidate s)
     = (Y, M, Z.min d (daysIn M Y))
  /\ timeOfDay (monthly_loc s) (monthly_getCandidate s)
     = timeOfDay (monthly_loc s) (monthly_start s).
Proof.
  intros Hl Hciv Hy Hnorm HY.
  rewrite monthly_getCandidate_clampTo.
  assert (Hsy : small (y + 0))
    by (rewrite Z.add_0_r; now apply inYears_small).
  assert (Hsm : small (m + mul64 (monthly_n s) (monthly_ammount s)))
    by exact (normMonth_small_year _ _ _ _ Hnorm Hy HY).
  assert (Hnorm' : normMonth (y + 0)
                     (m + mul64 (monthly_n s) (monthly_ammount s)) = (Y, M))
    by (rewrite Z.add_0_r; exact Hnorm).
  split.
  - exact (clampTo_AddDate _ _ 0 _ y m d Y M Hl Hciv Hsy Hsm Hnorm' HY).
  - exact (civil_clampTo_AddDate _ _ 0 _ y m d Y M Hl Hciv Hsy Hsm Hnorm' HY).
Qed.

Lemma civil_yearly_getCandidate (s : yearly) (y m d : Z) :
  plainLocation (yearly_loc s) ->
  civil (yearly_loc s) (yearly_start s) = (y, m, d) ->
  inYears (y + mul64 (yearly_n s) (yearly_ammount s)) ->
  let Y := y + mul64 (yearly_n s) (yearly_ammount s) in
  yearly_getCandidate s
  = wallOf Y m (Z.min d (daysIn m Y))
           (timeOfDay (yearly_loc s) (yearly_start s))
    - loc_first (yearly_loc s) * nsPerSecond
  /\ civil (yearly_loc s) (yearly_getCandidate s)
     = (Y, m, Z.min d (daysIn m Y))
  /\ timeOfDay (yearly_loc s) (yearly_getCandidate s)
     = timeOfDay (yearly_loc s) (yearly_start s).
Proof.
  intros Hl Hciv HY Y.
  rewrite yearly_getCandidate_clampTo.
  pose proof (civil_valid (yearly_loc s) (yearly_start s)) as Hv.
  rewrite Hciv in Hv. destruct Hv as (Hm & _).
  assert (Hsy : small Y) by now apply inYears_small.
  assert (Hsm : small (m + 0)) by (unfold small; lia).
  assert (Hnorm : normMonth Y (m + 0) = (Y, m))
    by (rewrite Z.add_0_r; now apply normMonth_id).
  split.
  - exact (clampTo_AddDate _ _ _ 0 y m d Y m Hl Hciv Hsy Hsm Hnorm HY).
  - exact (civil_clampTo_AddDate _ _ _ 0 y m d Y m Hl Hciv Hsy Hsm Hnorm HY).
Qed.

Lemma inWindow_in_int64 (s : scheduler) (i : Z) :
  inWindow s i -> in_int64 (i * sched_ammount s).
Proof. destruct s as [p | m | y]; cbn [inWindow sched_ammount]; tauto. Qed.

Lemma inWindow_set_n (s : scheduler) (z i : Z) :
  inWindow (sched_set_n s z) i = inWindow s i.
Proof. destruct s as [c | c | c]; destruct c; reflexivity. Qed.

Lemma inWindow_set_started (s : scheduler) (b : bool) (i : Z) :
  inWindow (sched_set_started s b) i = inWindow s i.
Proof. destruct s as [c | c | c]; destruct c; reflexivity. Qed.

Lemma plainAnchor_set_n (s : scheduler) (z : Z) :
  plainAnchor (sched_set_n s z) = plainAnchor s.
Proof. destruct s as [c | c | c]; destruct c; reflexivity. Qed.

Lemma plainAnchor_set_started (s : scheduler) (b : bool) :
  plainAnchor (sched_set_started s b) = plainAnchor s.
Proof. destruct s as [c | c | c]; destruct c; reflexivity. Qed.

Lemma Month_range (l : Location) (t : Time) : 1 <= Month l t <= 12.
Proof.
  pose proof (civil_valid l t) as Hv. unfold Month.
  destruct (civil l t) as [[y m] d]. cbn [fst snd]. tauto.
Qed.


(** An index between 0 and an index within range is within range. *)
Lemma inWindow_between (s : scheduler) (i j : Z) :
  plainAnchor s -> 0 <= i <= j -> inWindow s j -> inWindow s i.
Proof.
  intros Hp Hij.
  destruct s as [p | m | y]; cbn [plainAnchor inWindow] in *.
  - now apply in_int64_mul_between.
  - intros [Hr HY]. split; [now apply (in_int64_mul_between i j) |].
    destruct Hp as [_ Hy].
    pose proof (Month_range (monthly_loc m) (monthly_start m)) as HM.
    pose proof (mul_between i j (monthly_ammount m) Hij) as Hk.
    revert Hy HY HM Hk.
    generalize (Year (monthly_loc m) (monthly_start m)).
    generalize (Month (monthly_loc m) (monthly_start m)).
    generalize (i * monthly_ammount m). generalize (j * monthly_ammount m).
    unfold inYears, normMonth. cbn [fst].
    intros kj ki M0 Y0 Hy HY HM Hk.
    Z.to_euclidean_division_equations; lia.
  - intros [Hr HY]. split; [now apply (in_int64_mul_between i j) |].
    destruct Hp as [_ Hy].
    pose proof (mul_between i j (yearly_ammount y) Hij) as Hk.
    unfold inYears in *. lia.
Qed.

(** Of two indices within range the one whose product with the step is
    larger has the later candidate: later by the difference of the
    products for a periodic cadence, by a day at the least for a
    calendar cadence. *)
Lemma candidateAt_shift (s : scheduler) (i j : Z) :
  plainAnchor s -> inWindow s i -> inWindow s j ->
  i * sched_ammount s < j * sched_ammount s ->
  match s with
  | Periodic _ =>
      candidateAt s j
      = candidateAt s i + (j * sched_ammount s - i * sched_ammount s)
  | _ => candidateAt s i + nsPerDay <= candidateAt s j
  end.
Proof.
  intros Hp Hi Hj Hlt.
  destruct s as [p | m | y]; unfold candidateAt;
    cbn [sched_set_n getCandidate sched_ammount plainAnchor inWindow] in *.
  - rewrite !periodic_candidate_exact by assumption. lia.
  - destruct Hp as [Hl Hy]. destruct Hi as [Hi HYi]. destruct Hj as [Hj HYj].
    rewrite !monthly_getCandidate_clampTo.
    cbn [monthly_set_n monthly_start monthly_loc monthly_n monthly_ammount].
    rewrite !mul64_small by assumption.
    apply clampTo_AddDate_lt; rewrite ?Z.add_0_r; try assumption;
      try (now apply inYears_small); try lia.
    + exact (normMonth_small_year _ _ _ _ (surjective_pairing _) Hy HYi).
    + exact (normMonth_small_year _ _ _ _ (surjective_pairing _) Hy HYj).
  - destruct Hp as [Hl Hy]. destruct Hi as [Hi HYi]. destruct Hj as [Hj HYj].
    pose proof (Month_range (yearly_loc y) (yearly_start y)) as HM.
    rewrite !yearly_getCandidate_clampTo.
    cbn [yearly_set_n yearly_start yearly_loc yearly_n yearly_ammount].
    rewrite !mul64_small by assumption.
    apply clampTo_AddDate_lt; rewrite ?Z.add_0_r; try assumption;
      try (now apply inYears_small); try (unfold small; lia);
      try (rewrite normMonth_id by exact HM; assumption).
Qed.

Lemma nsPerDay_pos : 0 < nsPerDay.
Proof. reflexivity. Qed.

Lemma candidateAt_shift_lt (s : scheduler) (i j : Z) :
  plainAnchor s -> inWindow s i -> inWindow s j ->
  i * sched_ammount s < j * sched_ammount s ->
  candidateAt s i < candidateAt s j.
Proof.
  intros Hp Hi Hj Hlt.
  pose proof (candidateAt_shift s i j Hp Hi Hj Hlt) as H.
  pose proof nsPerDay_pos.
  destruct s; lia.
Qed.

(** With a positive step the candidate of a larger index is later by
    [minStep] at the least. *)
Lemma candidateAt_step (s : scheduler) (i j : Z) :
  plainAnchor s -> 0 < sched_ammount s -> i < j ->
  inWindow s i -> inWindow s j ->
  candidateAt s i + minStep s <= candidateAt s j.
Proof.
  intros Hp Ha Hij Hi Hj.
  assert (Hlt : i * sched_ammount s < j * sched_ammount s)
    by (apply Z.mul_lt_mono_pos_r; assumption).
  pose proof (candidateAt_shift s i j Hp Hi Hj Hlt) as H.
  destruct s as [p | m | y]; cbn [minStep sched_ammount] in *;
    [nia | exact H | exact H].
Qed.

Lemma candidateAt_le (s : scheduler) (i j : Z) :
  plainAnchor s -> 0 < sched_ammount s -> i <= j ->
  inWindow s i -> inWindow s j ->
  candidateAt s i <= candidateAt s j.
Proof.
  intros Hp Ha Hij Hi Hj.
  destruct (Z.eq_dec i j) as [-> | Hne]; [lia |].
  apply Z.lt_le_incl, candidateAt_shift_lt; try assumption.
  apply Z.mul_lt_mono_pos_r; [assumption | lia].
Qed.

(** With a negative step the candidates do not come later as the index
    grows. *)
Lemma candidateAt_ge_negative (s : scheduler) (i j : Z) :
  plainAnchor s -> sched_ammount s < 0 -> i <= j ->
  inWindow s i -> inWindow s j ->
  candidateAt s j <= candidateAt s i.
Proof.
  intros Hp Ha Hij Hi Hj.
  destruct (Z.eq_dec i j) as [-> | Hne]; [lia |].
  apply Z.lt_le_incl, candidateAt_shift_lt; try assumption.
  apply Z.mul_lt_mono_neg_r; [assumption | lia].
Qed.


Lemma periodic_candidate_0 (p : periodic) :
  periodic_getCandidate (periodic_set_n p 0) = periodic_start p.
Proof.
  rewrite periodic_candidate_exact; [lia |].
  unfold in_int64, minInt64, maxInt64. lia.
Qed.

Lemma mul64_0_l (x : Z) : mul64 0 x = 0.
Proof.
  rewrite mul64_small; [reflexivity |].
  unfold in_int64, minInt64, maxInt64. cbn. lia.
Qed.

Lemma mul64_0_r (x : Z) : mul64 x 0 = 0.
Proof.
  rewrite mul64_small; [lia |].
  rewrite Z.mul_0_r. unfold in_int64, minInt64, maxInt64. lia.
Qed.

(** Shifting an instant by nothing and adjusting gives it back, in a
    location without transitions and a year within reach. *)
Lemma clampTo_AddDate_0 (l : Location) (t : Time) :
  plainLocation l -> inYears (Year l t) ->
  clampTo l t (AddDate l t 0 0 0) = t.
Proof.
  unfold Year. intros Hl Hy.
  destruct (civil l t) as [[y m] d] eqn:Hciv. cbn [fst] in Hy.
  pose proof (civil_valid l t) as Hv. rewrite Hciv in Hv.
  destruct Hv as (Hm & Hd & Ht).
  rewrite (clampTo_AddDate l t 0 0 y m d y m Hl Hciv).
  - rewrite Z.min_l by lia. rewrite wall_plain in Ht by exact Hl. lia.
  - rewrite Z.add_0_r. now apply inYears_small.
  - unfold small. lia.
  - rewrite !Z.add_0_r. now apply normMonth_id.
  - exact Hy.
Qed.

Lemma monthly_candidate_0 (m : monthly) :
  plainAnchor (Monthly m) ->
  monthly_getCandidate (monthly_set_n m 0) = monthly_start m.
Proof.
  intros [Hl Hy].
  rewrite monthly_getCandidate_clampTo.
  cbn [monthly_set_n monthly_n monthly_start monthly_loc monthly_ammount].
  rewrite mul64_0_l. now apply clampTo_AddDate_0.
Qed.

Lemma yearly_candidate_0 (y : yearly) :
  plainAnchor (Yearly y) ->
  yearly_getCandidate (yearly_set_n y 0) = yearly_start y.
Proof.
  intros [Hl Hy].
  rewrite yearly_getCandidate_clampTo.
  cbn [yearly_set_n yearly_n yearly_start yearly_loc yearly_ammount].
  rewrite mul64_0_l. now apply clampTo_AddDate_0.
Qed.




(** A primed cadence whose step is zero and whose anchor is before
    [now] does not return, however long its loop runs. *)
Lemma periodic_zero_step_none (p : periodic) (now : Time) (fuel : nat) :
  periodic_started p = true -> periodic_ammount p = 0 ->
  periodic_start p < now ->
  next fuel (frozen now) (Periodic p) = None.
Proof.
  intros Hs Hz Hlate.
  destruct (next fuel (frozen now) (Periodic p)) as [[s' [h w]] |] eqn:Hrun;
    [exfalso | reflexivity].
  destruct (next_inv fuel (frozen now) (Periodic p) s' h w Hrun)
    as (k & _ & Hs' & _ & _ & _ & Hpr).
  destruct (Hpr Hs) as [Hstop _].
  apply Before_false in Hstop. unfold frozen in Hstop.
  rewrite Hs', getCandidate_set_started in Hstop.
  cbn [sched_set_n getCandidate sched_n] in Hstop.
  unfold periodic_getCandidate in Hstop.
  cbn [periodic_set_n periodic_start periodic_n periodic_ammount] in Hstop.
  rewrite Hz, mul64_0_r, Add_plus in Hstop. lia.
Qed.

(** The calendar candidates in any location, as long as the location
    shows the wall clock that the shift names and the one that the
    adjustment names. *)
Lemma civil_monthly_getCandidate_shown (s : monthly) (y m d Y M : Z) :
  civil (monthly_loc s) (monthly_start s) = (y, m, d) ->
  inYears y ->
  normMonth y (m + mul64 (monthly_n s) (monthly_ammount s)) = (Y, M) ->
  inYears Y ->
  shown (monthly_loc s)
        (wallOf Y M d (timeOfDay (monthly_loc s) (monthly_start s))) ->
  shown (monthly_loc s)
        (wallOf Y M (Z.min d (daysIn M Y))
                (timeOfDay (monthly_loc s) (monthly_start s))) ->
  civil (monthly_loc s) (monthly_getCandidate s)
  = (Y, M, Z.min d (daysIn M Y))
  /\ timeOfDay (monthly_loc s) (monthly_getCandidate s)
     = timeOfDay (monthly_loc s) (monthly_start s).
Proof.
  intros Hciv Hy Hnorm HY Hshift Hlast.
  rewrite monthly_getCandidate_clampTo.
  apply (civil_clampTo_AddDate_shown _ _ 0 _ y m d Y M Hciv); try assumption.
  - rewrite Z.add_0_r. now apply inYears_small.
  - exact (normMonth_small_year _ _ _ _ Hnorm Hy HY).
  - rewrite Z.add_0_r. exact Hnorm.
Qed.

Lemma civil_yearly_getCandidate_shown (s : yearly) (y m d : Z) :
  civil (yearly_loc s) (yearly_start s) = (y, m, d) ->
  let Y := y + mul64 (yearly_n s) (yearly_ammount s) in
  inYears Y ->
  shown (yearly_loc s)
        (wallOf Y m d (timeOfDay (yearly_loc s) (yearly_start s))) ->
  shown (yearly_loc s)
        (wallOf Y m (Z.min d (daysIn m Y))
                (timeOfDay (yearly_loc s) (yearly_start s))) ->
  civil (yearly_loc s) (yearly_getCandidate s)
  = (Y, m, Z.min d (daysIn m Y))
  /\ timeOfDay (yearly_loc s) (yearly_getCandidate s)
     = timeOfDay (yearly_loc s) (yearly_start s).
Proof.
  intros Hciv Y HY Hshift Hlast.
  rewrite yearly_getCandidate_clampTo.
  pose proof (civil_valid (yearly_loc s) (yearly_start s)) as Hv.
  rewrite Hciv in Hv. destruct Hv as (Hm & _).
  apply (civil_clampTo_AddDate_shown _ _ _ 0 y m d Y m Hciv); try assumption.
  - now apply inYears_small.
  - unfold small. lia.
  - rewrite Z.add_0_r. now apply normMonth_id.
Qed.

(* ================================================================== *)
(** ** The catch-up loop of [next] *)


Lemma plainLocation_UTC : plainLocation UTC.
Proof. split; [reflexivity | cbn; lia]. Qed.



(* ================================================================== *)
(** ** Calendar steps *)

(** C2, as the code has it.  Dates are read in the location of the
    anchor.  A monthly or yearly candidate lies in the month that the
    step leads to, on the anchor's day of the month when that month has
    it and on the month's last day when it has not, never in the month
    after: as long as the years are within reach and the location shows
    the two wall clocks that [getCandidate] asks [time.Date] for, the
    anchor's time of day on the anchor's day counted from the target
    month and on the day it is clamped to.  A location without
    transitions, UTC or a fixed zone, shows every wall clock of the
    years within reach.  The anchor's day is taken anew at every step:
    there, from January 31 by single months, index 1 is February 28 (29
    in a leap year) and index 2 is March 31, and from February 29 by
    years every year that is not a leap year gets February 28. *)
Theorem C2_day_clamping :
  (forall (s : monthly) (y m d Y M : Z),
     let l := monthly_loc s in
     let tod := timeOfDay l (monthly_start s) in
     civil l (monthly_start s) = (y, m, d) ->
     inYears y ->
     normMonth y (m + mul64 (monthly_n s) (monthly_ammount s)) = (Y, M) ->
     inYears Y ->
     shown l (wallOf Y M d tod) ->
     shown l (wallOf Y M (Z.min d (daysIn M Y)) tod) ->
     civil l (monthly_getCandidate s) = (Y, M, Z.min d (daysIn M Y))
     /\ (daysIn M Y < d ->
         civil l (monthly_getCandidate s) = (Y, M, daysIn M Y)))
  /\ (forall (s : yearly) (y m d : Z),
        let l := yearly_loc s in
        let tod := timeOfDay l (yearly_start s) in
        let Y := y + mul64 (yearly_n s) (yearly_ammount s) in
        civil l (yearly_start s) = (y, m, d) ->
        inYears Y ->
        shown l (wallOf Y m d tod) ->
        shown l (wallOf Y m (Z.min d (daysIn m Y)) tod) ->
        civil l (yearly_getCandidate s) = (Y, m, Z.min d (daysIn m Y))
        /\ (daysIn m Y < d ->
            civil l (yearly_getCandidate s) = (Y, m, daysIn m Y)))
  /\ (forall (l : Location) (t : Time) (Y M d : Z),
        plainLocation l -> inYears Y -> 1 <= d <= 31 ->
        shown l (wallOf Y M d (timeOfDay l t)))
  /\ (forall (s : monthly) (y : Z),
        plainLocation (monthly_loc s) ->
        civil (monthly_loc s) (monthly_start s) = (y, 1, 31) ->
        inYears y ->
        monthly_ammount s = 1 ->
        (monthly_n s = 1 ->
         civil (monthly_loc s) (monthly_getCandidate s)
         = (y, 2, if isLeap y then 29 else 28))
        /\ (monthly_n s = 2 ->
            civil (monthly_loc s) (monthly_getCandidate s) = (y, 3, 31)))
  /\ (forall (s : yearly) (y : Z),
        plainLocation (yearly_loc s) ->
        civil (yearly_loc s) (yearly_start s) = (y, 2, 29) ->
        inYears (y + mul64 (yearly_n s) (yearly_ammount s)) ->
        isLeap (y + mul64 (yearly_n s) (yearly_ammount s)) = false ->
        civil (yearly_loc s) (yearly_getCandidate s)
        = (y + mul64 (yearly_n s) (yearly_ammount s), 2, 28)).
Proof.
  split; [| split; [| split; [| split]]].
  - intros s y m d Y M. cbv zeta. intros Hciv Hy Hnorm HY Hshift Hlast.
    destruct (civil_monthly_getCandidate_shown s y m d Y M Hciv Hy Hnorm HY
                Hshift Hlast) as [Hc _].
    split; [exact Hc |].
    intros Hlt. rewrite Hc, Z.min_r by lia. reflexivity.
  - intros s y m d. cbv zeta. intros Hciv HY Hshift Hlast.
    destruct (civil_yearly_getCandidate_shown s y m d Hciv HY Hshift Hlast)
      as [Hc _].
    split; [exact Hc |].
    intros Hlt. rewrite Hc. rewrite Z.min_r by lia. reflexivity.
  - intros l t Y M d. apply shown_plain_date.
  - intros s y Hl Hciv Hy Ha. split; intros Hn.
    + destruct (civil_monthly_getCandidate s y 1 31 y 2 Hl Hciv Hy)
        as (_ & Hc & _).
      { rewrite Hn, Ha, mul64_small by (vm_compute; split; discriminate).
        apply normMonth_id. lia. }
      { exact Hy. }
      rewrite Hc. unfold daysIn.
      change (2 =? 2) with true. cbn [andb].
      destruct (isLeap y); reflexivity.
    + destruct (civil_monthly_getCandidate s y 1 31 y 3 Hl Hciv Hy)
        as (_ & Hc & _).
      { rewrite Hn, Ha, mul64_small by (vm_compute; split; discriminate).
        apply normMonth_id. lia. }
      { exact Hy. }
      rewrite Hc. reflexivity.
  - intros s y Hl Hciv HY Hleap.
    destruct (civil_yearly_getCandidate s y 2 29 Hl Hciv HY) as (_ & Hc & _).
    rewrite Hc. unfold daysIn. rewrite Hleap. reflexivity.
Qed.

(** January 31, 2023, 23:30 five hours behind UTC, by single months at
    index 1: February 28 there (it is March 1, 04:30 in UTC).  January
    31, 2023, noon in a location that moves its clocks forward on March
    12 and back on November 5, at index 2: March 31, at noon.  February
    29, 2024 in UTC by years at index 1; January 31, 2024 in UTC by
    single months at indices 1 and 2. *)
Lemma C2_day_clamping_witness :
  (let l := FixedZone (-18000) in
   civil l (monthly_getCandidate
              (mkMonthly (Date 2023 1 31 (23 * Hour + 30 * Minute) l) l
                         0 true 1 1))
   = (2023, 2, 28))
  /\ (let l := mkLocation (-18000)
                 [(1678604400, -14400); (1699164000, -18000)] in
      civil l (monthly_getCandidate
                 (mkMonthly (Date 2023 1 31 (12 * Hour) l) l 0 true 1 2))
      = (2023, 3, Z.min 31 (daysIn 3 2023)))
  /\ civil UTC (yearly_getCandidate
                  (mkYearly (Date 2024 2 29 0 UTC) UTC 0 true 1 1))
     = (2024 + mul64 1 1, 2, 28)
  /\ civil UTC (monthly_getCandidate
                  (mkMonthly (Date 2024 1 31 0 UTC) UTC 0 true 1 1))
     = (2024, 2, 29)
  /\ civil UTC (monthly_getCandidate
                  (mkMonthly (Date 2024 1 31 0 UTC) UTC 0 true 1 2))
     = (2024, 3, 31).
Proof.
  destruct C2_day_clamping as (Hm & Hy & Hplain & Hjan & Hfeb).
  split; [| split; [| split; [| split]]].
  - cbv zeta.
    refine (proj2 (Hm (mkMonthly
                         (Date 2023 1 31 (23 * Hour + 30 * Minute)
                               (FixedZone (-18000)))
                         (FixedZone (-18000)) 0 true 1 1)
                      2023 1 31 2023 2 _ _ _ _ _ _) _).
    + vm_compute. reflexivity.
    + vm_compute. split; discriminate.
    + vm_compute. reflexivity.
    + vm_compute. split; discriminate.
    + apply Hplain.
      * split; [reflexivity | cbn; lia].
      * vm_compute. split; discriminate.
      * lia.
    + apply Hplain.
      * split; [reflexivity | cbn; lia].
      * vm_compute. split; discriminate.
      * vm_compute. split; discriminate.
    + vm_compute. reflexivity.
  - cbv zeta.
    refine (proj1 (Hm (mkMonthly
                         (Date 2023 1 31 (12 * Hour)
                               (mkLocation (-18000)
                                  [(1678604400, -14400);
                                   (1699164000, -18000)]))
                         (mkLocation (-18000)
                            [(1678604400, -14400); (1699164000, -18000)])
                         0 true 1 2)
                      2023 1 31 2023 3 _ _ _ _ _ _)).
    + vm_compute. reflexivity.
    + vm_compute. split; discriminate.
    + vm_compute. reflexivity.
    + vm_compute. split; discriminate.
    + unfold shown. vm_compute. reflexivity.
    + unfold shown. vm_compute. reflexivity.
  - refine (Hfeb (mkYearly (Date 2024 2 29 0 UTC) UTC 0 true 1 1) 2024 _ _ _ _).
    + exact plainLocation_UTC.
    + vm_compute. reflexivity.
    + vm_compute. split; discriminate.
    + vm_compute. reflexivity.
  - refine (proj1 (Hjan (mkMonthly (Date 2024 1 31 0 UTC) UTC 0 true 1 1)
                        2024 _ _ _ _) _).
    + exact plainLocation_UTC.
    + vm_compute. reflexivity.
    + vm_compute. split; discriminate.
    + reflexivity.
    + reflexivity.
  - refine (proj2 (Hjan (mkMonthly (Date 2024 1 31 0 UTC) UTC 0 true 1 2)
                        2024 _ _ _ _) _).
    + exact plainLocation_UTC.
    + vm_compute. reflexivity.
    + vm_compute. split; discriminate.
    + reflexivity.
    + reflexivity.
Defined.

(** C2, where it fails.  Every 300 billion years from February 29, 2024
    in UTC: the year that index 1 leads to is a leap year, but it is
    beyond what the 64 bits of seconds of a [Time] hold; what
    [time.Date] builds has wrapped around, it is adjusted as if its day
    had not existed, and the candidate is a March 31 some 284 billion
    years before the anchor, at another time of day.  The same from
    January 31, 2023 by 3600000000001 months: the step leads to a
    February, the candidate is a March 31.  Every month from August 31,
    2017, 00:30 in a location four hours behind UTC that puts its clocks
    forward from 00:00 to 01:00 on October 1, 2017: the day after
    September 30 at 00:30 is skipped there, [time.Date] gives September
    30, 23:30 for it, and the adjustment takes that for a day 30 that
    does not fit and goes 30 days back: the candidate for index 1 is
    August 31, where September has a 30th. *)
Lemma C2_counterexample :
  (let s := mkYearly (Date 2024 2 29 0 UTC) UTC 0 false 300000000000 0 in
   newYearly 0 UTC (Date 2024 2 29 0 UTC) UTC 0 300000000000 false = Ok s
   /\ civil UTC (yearly_start s) = (2024, 2, 29)
   /\ daysIn 2 (2024 + 1 * 300000000000) = 29
   /\ civil UTC (yearly_getCandidate (yearly_set_n s 1))
      = (-284554047230, 3, 31)
   /\ timeOfDay UTC (yearly_getCandidate (yearly_set_n s 1))
      <> timeOfDay UTC (yearly_start s)
   /\ yearly_getCandidate (yearly_set_n s 1) < yearly_start s)
  /\ (let s := mkMonthly (Date 2023 1 31 0 UTC) UTC 0 false 3600000000001 0 in
      newMonthly 0 UTC (Date 2023 1 31 0 UTC) UTC 0 3600000000001 false = Ok s
      /\ civil UTC (monthly_start s) = (2023, 1, 31)
      /\ normMonth 2023 (1 + 1 * 3600000000001) = (300000002023, 2)
      /\ civil UTC (monthly_getCandidate (monthly_set_n s 1))
         = (-284554047231, 3, 31))
  /\ (let l := mkLocation (-14400) [(1506830400, -10800)] in
      let s := mkMonthly (Date 2017 8 31 (30 * Minute) l) l 0 false 1 0 in
      newMonthly 0 UTC (Date 2017 8 31 (30 * Minute) l) l 0 1 false = Ok s
      /\ civil l (monthly_start s) = (2017, 8, 31)
      /\ timeOfDay l (monthly_start s) = 30 * Minute
      /\ daysIn 9 2017 = 30
      /\ ~ shown l (wallOf 2017 9 31 (30 * Minute))
      /\ civil l (AddDate l (monthly_start s) 0 1 0) = (2017, 9, 30)
      /\ civil l (monthly_getCandidate (monthly_set_n s 1)) = (2017, 8, 31)
      /\ timeOfDay l (monthly_getCandidate (monthly_set_n s 1))
         = 23 * Hour + 30 * Minute).
Proof.
  cbv zeta. repeat split; try (vm_compute; reflexivity).
  - vm_compute. discriminate.
  - unfold shown. vm_compute. discriminate.
Qed.

(* ================================================================== *)
(** ** Periodic candidates *)

(** With the clock one step after the candidate of a primed cadence at
    each call, each call moves the index by one and reports no wait. *)
Lemma periodic_calls_in_step (m : nat) :
  forall q : periodic,
    periodic_started q = true ->
    0 < periodic_ammount q ->
    0 <= periodic_n q ->
    in_int64 ((periodic_n q + Z.of_nat m) * periodic_ammount q) ->
    exists rs,
      calls 2 (Periodic q)
        (map frozen
           (map (fun i => periodic_getCandidate q
                          + (1 + Z.of_nat i) * periodic_ammount q)
                (seq 0 m)))
      = Some rs
      /\ map (fun r => (sched_n (fst r), snd (snd r))) rs
         = map (fun i => (periodic_n q + 1 + Z.of_nat i, 0)) (seq 0 m).
Proof.
  induction m as [| m IH]; intros q Hs HP Hn Hr.
  - exists []. split; reflexivity.
  - set (P := periodic_ammount q) in *.
    set (n := periodic_n q) in *.
    assert (Hn1 : n + 1 <= maxInt64).
    { pose proof (index_below_product (n + Z.of_nat (S m)) P HP ltac:(lia) Hr).
      lia. }
    assert (Hincr : incr64 n = n + 1)
      by (apply incr64_small; unfold minInt64, maxInt64 in *; lia).
    assert (Hc0 : periodic_getCandidate q = periodic_start q + n * P).
    { apply periodic_candidate_n.
      apply (in_int64_mul_below n (n + Z.of_nat (S m)) P HP); [lia | exact Hr]. }
    assert (Hc1 : periodic_getCandidate (periodic_set_n q (n + 1))
                  = periodic_start q + (n + 1) * P).
    { apply periodic_candidate_exact.
      apply (in_int64_mul_below (n + 1) (n + Z.of_nat (S m)) P HP);
        [lia | exact Hr]. }
    assert (Hclk :
      map (fun i => periodic_getCandidate q + (1 + Z.of_nat i) * P)
          (seq 0 (S m))
      = (periodic_getCandidate q + P)
        :: map (fun i => periodic_getCandidate (periodic_set_n q (n + 1))
                         + (1 + Z.of_nat i)
                           * periodic_ammount (periodic_set_n q (n + 1)))
               (seq 0 m)).
    { cbn [seq map]. f_equal; [cbn [Z.of_nat]; lia |].
      rewrite <- seq_shift, map_map. apply map_ext. intros i.
      cbn [periodic_set_n periodic_ammount]. fold P.
      rewrite Hc1, Hc0. lia. }
    assert (Hout :
      map (fun i => (n + 1 + Z.of_nat i, 0)) (seq 0 (S m))
      = (n + 1, 0)
        :: map (fun i => (n + 1 + 1 + Z.of_nat i, 0)) (seq 0 m)).
    { cbn [seq map]. f_equal; [f_equal; cbn [Z.of_nat]; lia |].
      rewrite <- seq_shift, map_map. apply map_ext. intros i.
      f_equal. lia. }
    rewrite Hclk, Hout. cbn [map calls].
    rewrite (next_step 0 _ (Periodic q) Hs).
    + cbn [sched_n]. fold n. rewrite Hincr.
      change (candidateAt (Periodic q) (n + 1))
        with (periodic_getCandidate (periodic_set_n q (n + 1))).
      destruct (IH (periodic_set_n q (n + 1))) as (rs & Hrs & Hmap).
      * exact Hs.
      * exact HP.
      * cbn [periodic_set_n periodic_n]. lia.
      * cbn [periodic_set_n periodic_n periodic_ammount]. fold P.
        replace (n + 1 + Z.of_nat m) with (n + Z.of_nat (S m)) by lia.
        exact Hr.
      * change (sched_set_n (Periodic q) (n + 1))
          with (Periodic (periodic_set_n q (n + 1))).
        rewrite Hrs.
        eexists. split; [reflexivity |].
        cbn [map fst snd sched_n sched_set_n periodic_set_n periodic_n].
        f_equal.
        -- f_equal. apply Sub_zero. rewrite Hc1, Hc0. lia.
        -- exact Hmap.
    + apply Before_true.
      change (getCandidate (Periodic q)) with (periodic_getCandidate q).
      lia.
    + apply Before_false. cbn [sched_n]. fold n. rewrite Hincr.
      change (candidateAt (Periodic q) (n + 1))
        with (periodic_getCandidate (periodic_set_n q (n + 1))).
      rewrite Hc1, Hc0. lia.
Qed.

Lemma newPeriodic_Ok (now start end_ : Time) (ammount : Z) (unit : Duration)
    (skip : bool) (p : periodic) :
  newPeriodic now start end_ ammount unit skip = Ok p ->
  ammount <> 0 /\ unit <> 0
  /\ p = mkPeriodic (if IsZero start then now else start) end_ skip
                    (mul64 ammount unit) (if skip then 1 else 0).
Proof.
  unfold newPeriodic.
  destruct (Z.eqb_spec ammount 0) as [| Ha]; [discriminate |].
  destruct (Z.eqb_spec unit 0) as [| Hu]; [discriminate |].
  cbn [orb]. intros Hok. injection Hok as <-. auto.
Qed.

(** C3, as the code has it.  For a periodic cadence whose step
    [ammount * unit] fits in 64 bits, the candidate for the index [n]
    is [start + n * (ammount * unit)] whenever that product fits in 64
    bits too; and when the step is positive, [m] calls made with a
    simulated clock that starts on the cadence's candidate and moves by
    one step from call to call report the indices [n], [n + 1], ...,
    each with a wait of zero, as far as the products stay in range. *)
Theorem C3_periodic_candidates (now start end_ : Time) (ammount : Z)
    (unit : Duration) (skip : bool) (p : periodic) :
  newPeriodic now start end_ ammount unit skip = Ok p ->
  in_int64 (ammount * unit) ->
  (forall n : Z,
     in_int64 (n * (ammount * unit)) ->
     periodic_getCandidate (periodic_set_n p n)
     = periodic_start p + n * (ammount * unit))
  /\ (0 < ammount * unit ->
      forall m : nat,
        in_int64 ((periodic_n p + Z.of_nat m) * (ammount * unit)) ->
        exists rs,
          calls 2 (Periodic p)
            (map frozen (ticks (periodic_getCandidate p) (ammount * unit) m))
          = Some rs
          /\ map (fun r => (sched_n (fst r), snd (snd r))) rs
             = map (fun i => (periodic_n p + Z.of_nat i, 0)) (seq 0 m)).
Proof.
  intros Hnew Hstep.
  destruct (newPeriodic_Ok _ _ _ _ _ _ _ Hnew) as (_ & _ & Hp).
  assert (HP : periodic_ammount p = ammount * unit).
  { rewrite Hp. cbn [periodic_ammount]. now apply mul64_small. }
  assert (Hn0 : 0 <= periodic_n p).
  { rewrite Hp. cbn [periodic_n]. destruct skip; lia. }
  split.
  - intros n Hr. rewrite <- HP in *. now apply periodic_candidate_exact.
  - intros Hpos [| m] Hr.
    + exists []. split; reflexivity.
    + rewrite <- HP in *.
      set (P := periodic_ammount p) in *.
      set (c := periodic_getCandidate p).
      assert (Hclk :
        ticks c P (S m)
        = c :: map (fun i => c + (1 + Z.of_nat i) * P) (seq 0 m)).
      { unfold ticks. cbn [seq map]. rewrite <- seq_shift, map_map.
        apply f_equal2; [cbn [Z.of_nat]; lia |].
        apply map_ext. intros i. lia. }
      assert (Hout :
        map (fun i => (periodic_n p + Z.of_nat i, 0)) (seq 0 (S m))
        = (periodic_n p, 0)
          :: map (fun i => (periodic_n p + 1 + Z.of_nat i, 0)) (seq 0 m)).
      { cbn [seq map]. rewrite <- seq_shift, map_map.
        f_equal; [f_equal; cbn [Z.of_nat]; lia |].
        apply map_ext. intros i. f_equal. lia. }
      rewrite Hclk, Hout. cbn [map calls].
      rewrite (next_stay 1 (frozen c) (Periodic p))
        by (apply Before_false; unfold frozen, c; cbn [getCandidate]; lia).
      change (sched_set_started (Periodic p) true)
        with (Periodic (periodic_set_started p true)).
      destruct (periodic_calls_in_step m (periodic_set_started p true))
        as (rs & Hrs & Hmap).
      * reflexivity.
      * exact Hpos.
      * exact Hn0.
      * cbn [periodic_set_started periodic_n periodic_ammount]. fold P.
        apply (in_int64_mul_below _ (periodic_n p + Z.of_nat (S m)) P Hpos);
          [lia | exact Hr].
      * change (periodic_getCandidate (periodic_set_started p true)) with c in Hrs.
        change (periodic_ammount (periodic_set_started p true)) with P in Hrs.
        rewrite Hrs. eexists. split; [reflexivity |].
        cbn [map fst snd sched_n periodic_set_started periodic_n].
        f_equal.
        -- f_equal. apply Sub_zero. reflexivity.
        -- exact Hmap.
Qed.

(** Every two times five nanoseconds from 1000: the candidate for index
    7, and three calls in step. *)
Lemma C3_periodic_candidates_witness :
  periodic_getCandidate (periodic_set_n (mkPeriodic 1000 0 false 10 0) 7)
  = 1000 + 7 * (2 * 5)
  /\ exists rs,
       calls 2 (Periodic (mkPeriodic 1000 0 false 10 0))
         (map frozen
            (ticks (periodic_getCandidate (mkPeriodic 1000 0 false 10 0))
                   (2 * 5) 3))
       = Some rs
       /\ map (fun r => (sched_n (fst r), snd (snd r))) rs
          = map (fun i => (0 + Z.of_nat i, 0)) (seq 0 3).
Proof.
  assert (Hstep : in_int64 (2 * 5))
    by (unfold in_int64, minInt64, maxInt64; lia).
  destruct (C3_periodic_candidates 0 1000 0 2 5 false
              (mkPeriodic 1000 0 false 10 0) eq_refl Hstep) as [Hcand Hrun].
  split.
  - apply (Hcand 7). unfold in_int64, minInt64, maxInt64. lia.
  - apply (Hrun ltac:(lia) 3%nat).
    unfold in_int64, minInt64, maxInt64. cbn. lia.
Defined.

(** C3, where it fails.  A weekly cadence anchored on January 1, 2024
    (UTC):
    [15251 * Week] is above the largest [int64], the product wraps
    around and the candidate for index 15251 lies in the year 1731, not
    15251 weeks after the anchor.  A cadence of every 110000 days: the
    step itself wraps around, and the candidate for index 1 lies before
    the anchor.  A cadence of minus one second: with the clock moved by
    one step the second call stays at index 0 and waits a second.  A
    cadence of ten nanoseconds whose clock starts five nanoseconds late:
    the waits are not zero and the index moves by two. *)
Lemma C3_counterexample :
  (newPeriodic 0 (Date 2024 1 1 0 UTC) 0 1 Week false
   = Ok (mkPeriodic (Date 2024 1 1 0 UTC) 0 false Week 0)
   /\ periodic_getCandidate
        (periodic_set_n (mkPeriodic (Date 2024 1 1 0 UTC) 0 false Week 0) 15251)
      <> Date 2024 1 1 0 UTC + 15251 * (1 * Week)
   /\ Year UTC (periodic_getCandidate
              (periodic_set_n (mkPeriodic (Date 2024 1 1 0 UTC) 0 false Week 0)
                              15251))
      = 1731)
  /\ (exists p,
        newPeriodic 0 (Date 2024 1 1 0 UTC) 0 110000 Day_ false = Ok p
        /\ periodic_getCandidate (periodic_set_n p 1)
           <> periodic_start p + 1 * (110000 * Day_)
        /\ periodic_getCandidate (periodic_set_n p 1) < periodic_start p)
  /\ (newPeriodic 0 5000000000 0 (-1) Second false
      = Ok (mkPeriodic 5000000000 0 false (-1000000000) 0)
      /\ calls 2 (Periodic (mkPeriodic 5000000000 0 false (-1000000000) 0))
           (map frozen (ticks 5000000000 (-1000000000) 2))
         = Some [(Periodic (mkPeriodic 5000000000 0 true (-1000000000) 0),
                  (true, 0));
                 (Periodic (mkPeriodic 5000000000 0 true (-1000000000) 0),
                  (true, 1000000000))])
  /\ (newPeriodic 0 1000 0 2 5 false = Ok (mkPeriodic 1000 0 false 10 0)
      /\ calls 3 (Periodic (mkPeriodic 1000 0 false 10 0))
           (map frozen (ticks 1005 10 2))
         = Some [(Periodic (mkPeriodic 1000 0 true 10 0), (true, -5));
                 (Periodic (mkPeriodic 1000 0 true 10 2), (true, 5))]).
Proof.
  split; [| split; [| split]].
  - repeat split; try (vm_compute; reflexivity).
    vm_compute. discriminate.
  - eexists. split; [vm_compute; reflexivity |].
    split; [vm_compute; discriminate | vm_compute; reflexivity].
  - split; vm_compute; reflexivity.
  - split; vm_compute; reflexivity.
Qed.
(* ================================================================== *)
(** ** Construction *)

(** C4.  A periodic cadence with a zero amount or a zero unit, and a
    monthly or yearly cadence with a zero amount, are refused by their
    constructors, which return the error and no cadence, and by [Done]
    with them; every other configuration is accepted.  [next] returns a
    flag and a duration and has no error to report: on a cadence value
    whose step is zero it answers as on any other. *)
Theorem C4_zero_step_rejected :
  (forall now start end_ ammount unit skip,
     ammount = 0 \/ unit = 0 ->
     newPeriodic now start end_ ammount unit skip
     = Err "0 is not a valid period")
  /\ (forall now local start loc end_ ammount skip,
        ammount = 0 ->
        newMonthly now local start loc end_ ammount skip
        = Err "0 months is not a valid period")
  /\ (forall now local start loc end_ ammount skip,
        ammount = 0 ->
        newYearly now local start loc end_ ammount skip
        = Err "0 years is not a valid period")
  /\ (forall (W : Type) (j : Job W) now local,
        aux_ammount (Job_aux j) = 0 ->
        0 <= aux_kind (Job_aux j) <= 2 ->
        exists msg, Done_schedule now local j = Err msg)
  /\ (forall now start end_ ammount unit skip,
        ammount <> 0 -> unit <> 0 ->
        exists p, newPeriodic now start end_ ammount unit skip = Ok p)
  /\ (forall now local start loc end_ ammount skip,
        ammount <> 0 ->
        (exists m, newMonthly now local start loc end_ ammount skip = Ok m)
        /\ (exists y, newYearly now local start loc end_ ammount skip = Ok y))
  /\ (forall (s : scheduler) (clk : Clock) (fuel : nat),
        sched_ammount s = 0 ->
        sched_started s = false ->
        next (S fuel) clk s
        = Some (sched_set_started s true,
                (hasMore s (getCandidate s),
                 Sub (getCandidate s) (clk 1%nat)))).
Proof.
  repeat split.
  - intros now start end_ ammount unit skip [-> | ->]; unfold newPeriodic.
    + reflexivity.
    + rewrite Bool.orb_true_r. reflexivity.
  - intros now local start loc end_ ammount skip ->. reflexivity.
  - intros now local start loc end_ ammount skip ->. reflexivity.
  - intros W j now local Ha Hk. unfold Done_schedule.
    unfold newPeriodic, newMonthly, newYearly. rewrite Ha. cbn [Z.eqb orb].
    unfold periodicKind, monthlyKind, yearlyKind.
    destruct (Z.eqb_spec (aux_kind (Job_aux j)) 0); [eexists; reflexivity |].
    destruct (Z.eqb_spec (aux_kind (Job_aux j)) 1); [eexists; reflexivity |].
    destruct (Z.eqb_spec (aux_kind (Job_aux j)) 2); [eexists; reflexivity |].
    lia.
  - intros now start end_ ammount unit skip Ha Hu. unfold newPeriodic.
    destruct (Z.eqb_spec ammount 0); [contradiction |].
    destruct (Z.eqb_spec unit 0); [contradiction |].
    eexists. reflexivity.
  - unfold newMonthly.
    destruct (Z.eqb_spec ammount 0); [contradiction |].
    destruct (IsZero start); eexists; reflexivity.
  - unfold newYearly.
    destruct (Z.eqb_spec ammount 0); [contradiction |].
    destruct (IsZero start); eexists; reflexivity.
  - intros s clk fuel _ Hs. now apply next_unprimed.
Qed.

(** Every zero seconds, every zero months, every zero years, the three
    through [Done], and a first call on a cadence with no step. *)
Lemma C4_zero_step_rejected_witness :
  newPeriodic 7 0 0 0 Second false = Err "0 is not a valid period"
  /\ newPeriodic 7 0 0 3 0 false = Err "0 is not a valid period"
  /\ newMonthly 7 UTC 0 UTC 0 0 true = Err "0 months is not a valid period"
  /\ newYearly 7 UTC 0 UTC 0 0 true = Err "0 years is not a valid period"
  /\ (exists msg,
        Done_schedule 7 UTC (Years (Schedule (fun w : nat => w))) = Err msg)
  /\ next 1 (frozen 50) (Monthly (mkMonthly 100 UTC 0 false 0 0))
     = Some (Monthly (mkMonthly 100 UTC 0 true 0 0), (true, 50)).
Proof.
  destruct C4_zero_step_rejected as (Hp & Hm & Hy & Hd & _ & _ & Hn).
  split; [| split; [| split; [| split; [| split]]]].
  - apply Hp. left. reflexivity.
  - apply Hp. right. reflexivity.
  - apply Hm. reflexivity.
  - apply Hy. reflexivity.
  - apply Hd; [reflexivity | vm_compute; split; discriminate].
  - exact (Hn (Monthly (mkMonthly 100 UTC 0 false 0 0)) (frozen 50) 0%nat
              eq_refl eq_refl).
Defined.
(* ================================================================== *)
(** ** The end of a cadence *)

(** The cadence [s] once primed and moved to the index that [i]
    increments lead to. *)
Lemma next_step_from (fuel : nat) (now : Time) (s : scheduler) (i : nat) :
  Before (candidateAt s (indexAfter i (sched_n s))) now = true ->
  Before (candidateAt s (indexAfter (S i) (sched_n s))) now = false ->
  next (S (S fuel)) (frozen now)
       (sched_set_n (sched_set_started s true) (indexAfter i (sched_n s)))
  = Some (sched_set_n (sched_set_started s true)
                      (indexAfter (S i) (sched_n s)),
          (hasMore s (candidateAt s (indexAfter (S i) (sched_n s))),
           Sub (candidateAt s (indexAfter (S i) (sched_n s))) now)).
Proof.
  intros Hb Hstop.
  set (st := sched_set_n (sched_set_started s true)
                         (indexAfter i (sched_n s))).
  assert (Hn : sched_n st = indexAfter i (sched_n s))
    by (unfold st; apply sched_n_set_n).
  assert (Hi : incr64 (sched_n st) = indexAfter (S i) (sched_n s))
    by (rewrite Hn; reflexivity).
  assert (Hat : forall j, candidateAt st j = candidateAt s j).
  { intros j. unfold st.
    rewrite candidateAt_set_n, candidateAt_set_started. reflexivity. }
  rewrite (next_step fuel now st).
  - rewrite Hi, Hat. unfold st at 1. rewrite sched_set_n_set_n.
    unfold hasMore, st.
    rewrite sched_end_set_n, sched_end_set_started. reflexivity.
  - unfold st. rewrite sched_started_set_n. apply sched_started_set_started.
  - rewrite <- candidateAt_n, Hn, Hat. exact Hb.
  - rewrite Hi, Hat. exact Hstop.
Qed.

Lemma primed_at_0 (s : scheduler) :
  sched_set_n (sched_set_started s true) (indexAfter 0 (sched_n s))
  = sched_set_started s true.
Proof.
  change (indexAfter 0 (sched_n s)) with (sched_n s).
  rewrite <- (sched_n_set_started s true). apply sched_set_n_same.
Qed.

Lemma hasMore_true (s : scheduler) (c : Time) :
  hasMore s c = true <-> sched_end s = 0 \/ c < sched_end s.
Proof.
  unfold hasMore. rewrite Bool.orb_true_iff, IsZero_true, Before_true.
  reflexivity.
Qed.

(** C5.  The flag that [next] returns is true exactly when the end is
    the zero instant (unset) or the candidate the call has settled on
    is strictly before the end.  So when the end is set and exactly the
    three occurrences from the current one lie before it, four calls,
    each made after the occurrence reported before and not after the
    one that follows, report the four occurrences in turn with the flag
    true, true, true and false. *)
Theorem C5_hasMore :
  (forall (fuel : nat) (clk : Clock) (s s' : scheduler) (h : bool)
          (w : Duration),
     next fuel clk s = Some (s', (h, w)) ->
     sched_end s' = sched_end s
     /\ (h = true <-> sched_end s = 0 \/ getCandidate s' < sched_end s))
  /\ (forall (s : scheduler) (t1 t2 t3 t4 : Time),
        let c := fun i : nat => candidateAt s (indexAfter i (sched_n s)) in
        sched_end s <> 0 ->
        c 0%nat < sched_end s -> c 1%nat < sched_end s ->
        c 2%nat < sched_end s -> sched_end s <= c 3%nat ->
        sched_started s = false \/ t1 <= c 0%nat ->
        c 0%nat < t2 <= c 1%nat ->
        c 1%nat < t3 <= c 2%nat ->
        c 2%nat < t4 <= c 3%nat ->
        exists s1 s2 s3 s4 w1 w2 w3 w4,
          calls 2 s (map frozen [t1; t2; t3; t4])
          = Some [(s1, (true, w1)); (s2, (true, w2));
                  (s3, (true, w3)); (s4, (false, w4))]
          /\ getCandidate s1 = c 0%nat /\ getCandidate s2 = c 1%nat
          /\ getCandidate s3 = c 2%nat /\ getCandidate s4 = c 3%nat).
Proof.
  split.
  - intros fuel clk s s' h w Hrun.
    destruct (next_inv fuel clk s s' h w Hrun) as (k & _ & Hs' & Hh & _).
    split.
    + rewrite Hs', sched_end_set_started, sched_end_set_n. reflexivity.
    + rewrite Hh. apply hasMore_true.
  - intros s t1 t2 t3 t4 c Hend H0 H1 H2 H3 Hfirst Ht2 Ht3 Ht4.
    assert (Hc0 : getCandidate s = c 0%nat)
      by (symmetry; apply candidateAt_n).
    assert (Hcall1 :
      next 2 (frozen t1) s
      = Some (sched_set_started s true,
              (hasMore s (c 0%nat), Sub (c 0%nat) t1))).
    { rewrite <- Hc0. destruct Hfirst as [Hun | Hle].
      - apply (next_unprimed 1 (frozen t1) s Hun).
      - apply (next_stay 1 (frozen t1) s).
        apply Before_false. unfold frozen. lia. }
    assert (Hm : forall i, c i < sched_end s -> hasMore s (c i) = true)
      by (intros i Hi; apply hasMore_true; right; exact Hi).
    assert (Hm3 : hasMore s (c 3%nat) = false).
    { destruct (hasMore s (c 3%nat)) eqn:E; [| reflexivity].
      apply hasMore_true in E. lia. }
    cbn [map calls]. rewrite Hcall1.
    rewrite <- (primed_at_0 s).
    rewrite (next_step_from 0 t2 s 0)
      by (fold (c 0%nat); fold (c 1%nat);
          first [apply Before_true | apply Before_false]; lia).
    rewrite (next_step_from 0 t3 s 1)
      by (fold (c 1%nat); fold (c 2%nat);
          first [apply Before_true | apply Before_false]; lia).
    rewrite (next_step_from 0 t4 s 2)
      by (fold (c 2%nat); fold (c 3%nat);
          first [apply Before_true | apply Before_false]; lia).
    fold (c 1%nat); fold (c 2%nat); fold (c 3%nat).
    rewrite (Hm 0%nat H0), (Hm 1%nat H1), (Hm 2%nat H2), Hm3.
    do 8 eexists. split; [reflexivity |].
    unfold c.
    repeat split;
      rewrite <- candidateAt_n, sched_n_set_n, candidateAt_set_n,
        candidateAt_set_started; reflexivity.
Qed.

(** Every ten nanoseconds from 100 until 125: the occurrences 100, 110
    and 120 lie before the end, the fourth call reports 130 with the
    flag false. *)
Lemma C5_hasMore_witness :
  (sched_end (Periodic (mkPeriodic 100 125 true 10 0)) = 125
   /\ (true = true <-> 125 = 0 \/ 100 < 125))
  /\ exists s1 s2 s3 s4 w1 w2 w3 w4,
       calls 2 (Periodic (mkPeriodic 100 125 false 10 0))
             (map frozen [100; 105; 115; 125])
       = Some [(s1, (true, w1)); (s2, (true, w2));
               (s3, (true, w3)); (s4, (false, w4))]
       /\ getCandidate s1 = 100 /\ getCandidate s2 = 110
       /\ getCandidate s3 = 120 /\ getCandidate s4 = 130.
Proof.
  split.
  - exact (proj1 C5_hasMore 1%nat (frozen 100)
             (Periodic (mkPeriodic 100 125 false 10 0))
             (Periodic (mkPeriodic 100 125 true 10 0)) true 0 eq_refl).
  - refine (proj2 C5_hasMore (Periodic (mkPeriodic 100 125 false 10 0))
              100 105 115 125 _ _ _ _ _ _ _ _ _).
    + vm_compute. discriminate.
    + vm_compute. reflexivity.
    + vm_compute. reflexivity.
    + vm_compute. reflexivity.
    + vm_compute. discriminate.
    + left. reflexivity.
    + vm_compute. split; [reflexivity | discriminate].
    + vm_compute. split; [reflexivity | discriminate].
    + vm_compute. split; [reflexivity | discriminate].
Defined.

(* ================================================================== *)
(** ** The ceiling of [run] *)

Section RunFacts.

Context {W : Type}.

Lemma run_below (j : Job W) (w : W) :
  Job_times j <> -1 -> Job_n j < Job_times j ->
  minInt64 <= Job_n j -> Job_times j <= maxInt64 ->
  run (j, w)
  = (mkJob (Job_task j) (Job_times j) (Job_n j + 1) (Job_aux j)
           (Job_schedule j),
     Job_task j w).
Proof.
  intros Hs Hlt Hlo Hhi. unfold run.
  destruct (Z.eqb_spec (Job_times j) (-1)) as [| _]; [contradiction |].
  destruct (Z.ltb_spec (Job_n j) (Job_times j)) as [_ |]; [| lia].
  cbn [orb]. rewrite incr64_small by lia. reflexivity.
Qed.

Lemma run_at_ceiling (j : Job W) (w : W) :
  Job_times j <> -1 -> Job_times j <= Job_n j -> run (j, w) = (j, w).
Proof.
  intros Hs Hge. unfold run.
  destruct (Z.eqb_spec (Job_times j) (-1)) as [| _]; [contradiction |].
  destruct (Z.ltb_spec (Job_n j) (Job_times j)) as [| _]; [lia |].
  reflexivity.
Qed.

(** [m] calls of [run] on a job whose count is not above its ceiling. *)
Lemma runs_bounded (j : Job W) (w : W) (m : nat) :
  Job_times j <> -1 -> Job_times j <= maxInt64 ->
  minInt64 <= Job_n j -> Job_n j <= Job_times j ->
  let r := Nat.iter m run (j, w) in
  Job_task (fst r) = Job_task j
  /\ Job_times (fst r) = Job_times j
  /\ Job_n (fst r) = Z.min (Job_n j + Z.of_nat m) (Job_times j)
  /\ snd r = Nat.iter (Z.to_nat (Job_n (fst r) - Job_n j)) (Job_task j) w.
Proof.
  intros Hs Hhi Hlo Hle.
  induction m as [| m IH]; cbn zeta.
  - cbn [Nat.iter nat_rect fst snd].
    rewrite Z.add_0_r, Z.min_l, Z.sub_diag by lia.
    repeat split; reflexivity.
  - rewrite Nat.iter_succ.
    cbn zeta in IH.
    destruct (Nat.iter m run (j, w)) as [jm wm].
    cbn [fst snd] in IH. destruct IH as (Ht & Hc & Hn & Hw).
    destruct (Z.lt_ge_cases (Job_n jm) (Job_times jm)) as [Hlt | Hge].
    + rewrite run_below by lia. cbn [fst snd Job_task Job_times Job_n].
      repeat split; try assumption; try lia.
      rewrite Hw, Ht.
      replace (Z.to_nat (Job_n jm + 1 - Job_n j))
        with (S (Z.to_nat (Job_n jm - Job_n j))) by lia.
      rewrite Nat.iter_succ. reflexivity.
    + rewrite run_at_ceiling by lia. cbn [fst snd].
      repeat split; try assumption; lia.
Qed.

End RunFacts.

(** C6, as the code has it.  A job whose ceiling is not the sentinel -1
    and whose count is not above the ceiling keeps the count at or
    below the ceiling through any number of calls of [run]: each call
    below the ceiling adds one to the count and invokes the task once,
    each call at the ceiling does nothing.  For a fresh job that holds
    when the ceiling is not negative; with a ceiling of 2 the task is
    invoked twice, whatever the number of calls from two on. *)
Theorem C6_runs_bounded (W : Type) :
  (forall (j : Job W) (w : W) (m : nat),
     Job_times j <> -1 -> Job_times j <= maxInt64 ->
     minInt64 <= Job_n j -> Job_n j <= Job_times j ->
     let r := Nat.iter m run (j, w) in
     Job_n (fst r) <= Job_times (fst r)
     /\ Job_times (fst r) = Job_times j
     /\ Job_n (fst r) = Z.min (Job_n j + Z.of_nat m) (Job_times j)
     /\ snd r = Nat.iter (Z.to_nat (Job_n (fst r) - Job_n j)) (Job_task j) w)
  /\ (forall (f : W -> W) (k : Z) (w : W) (m : nat),
        0 <= k <= maxInt64 ->
        let r := Nat.iter m run (NTimes (Schedule f) k, w) in
        Job_n (fst r) <= k
        /\ snd r = Nat.iter (Z.to_nat (Z.min (Z.of_nat m) k)) f w)
  /\ (forall (f : W -> W) (w : W) (m : nat),
        (2 <= m)%nat ->
        let r := Nat.iter m run (Twice (Schedule f), w) in
        Job_n (fst r) = 2 /\ snd r = f (f w))
  /\ (forall (j : Job W) (w : W),
        Job_times j <> -1 -> Job_times j <= Job_n j -> run (j, w) = (j, w)).
Proof.
  split; [| split; [| split]].
  - intros j w m Hs Hhi Hlo Hle r.
    destruct (runs_bounded j w m Hs Hhi Hlo Hle) as (_ & Hc & Hn & Hw).
    fold r in Hc, Hn, Hw.
    repeat split; try assumption. lia.
  - intros f k w m Hk r.
    assert (Hs : Job_times (NTimes (Schedule f) k) <> -1)
      by (cbn [NTimes Job_times]; lia).
    destruct (runs_bounded (NTimes (Schedule f) k) w m Hs)
      as (_ & _ & Hn & Hw);
      try (cbn [NTimes Schedule Job_times Job_n]; unfold minInt64; lia).
    fold r in Hn, Hw.
    cbn [NTimes Schedule Job_times Job_n Job_task] in Hn, Hw.
    split; [lia |].
    rewrite Hw, Hn. do 2 f_equal. lia.
  - intros f w m Hm r.
    assert (Hs : Job_times (Twice (Schedule f)) <> -1)
      by (cbn; discriminate).
    destruct (runs_bounded (Twice (Schedule f)) w m Hs)
      as (_ & _ & Hn & Hw);
      try (cbn [Twice NTimes Schedule Job_times Job_n];
           unfold minInt64, maxInt64; lia).
    fold r in Hn, Hw.
    cbn [Twice NTimes Schedule Job_times Job_n Job_task] in Hn, Hw.
    assert (Hn2 : Job_n (fst r) = 2) by lia.
    split; [exact Hn2 |].
    rewrite Hw, Hn2. reflexivity.
  - intros j w. apply run_at_ceiling.
Qed.

(** A task that counts its invocations, scheduled twice, run five
    times. *)
Lemma C6_runs_bounded_witness :
  (let r := Nat.iter 5 run (Twice (Schedule Nat.succ), 0%nat) in
   Job_n (fst r) <= Job_times (fst r)
   /\ Job_times (fst r) = 2
   /\ Job_n (fst r) = Z.min (0 + Z.of_nat 5) 2
   /\ snd r = Nat.iter (Z.to_nat (Job_n (fst r) - 0)) Nat.succ 0%nat)
  /\ (let r := Nat.iter 5 run (NTimes (Schedule Nat.succ) 3, 0%nat) in
      Job_n (fst r) <= 3
      /\ snd r = Nat.iter (Z.to_nat (Z.min (Z.of_nat 5) 3)) Nat.succ 0%nat)
  /\ (let r := Nat.iter 5 run (Twice (Schedule Nat.succ), 0%nat) in
      Job_n (fst r) = 2 /\ snd r = 2%nat)
  /\ run (mkJob Nat.succ 2 2 (mkAuxiliar 0 0 false 0 UTC 0 0) None, 2%nat)
     = (mkJob Nat.succ 2 2 (mkAuxiliar 0 0 false 0 UTC 0 0) None, 2%nat).
Proof.
  destruct (C6_runs_bounded nat) as (Hinv & Hfresh & Htwice & Hstop).
  split; [| split; [| split]].
  - apply (Hinv (Twice (Schedule Nat.succ)) 0%nat 5%nat);
      vm_compute; discriminate.
  - apply (Hfresh Nat.succ 3 0%nat 5%nat).
    vm_compute. split; discriminate.
  - apply (Htwice Nat.succ 0%nat 5%nat). lia.
  - apply Hstop; vm_compute; discriminate.
Defined.

(** C6, where it fails.  A job scheduled with a ceiling of -2: the
    ceiling is not the sentinel, no call of [run] invokes the task, and
    the count, 0, is above the ceiling from the start. *)
Lemma C6_counterexample :
  let j := NTimes (Schedule Nat.succ) (-2) in
  Job_times j <> -1
  /\ ~ (Job_n j <= Job_times j)
  /\ Nat.iter 3 run (j, 0%nat) = (j, 0%nat)
  /\ ~ (Job_n (fst (Nat.iter 3 run (j, 0%nat)))
        <= Job_times (fst (Nat.iter 3 run (j, 0%nat)))).
Proof.
  cbn zeta. repeat split.
  - vm_compute. discriminate.
  - vm_compute. intros H. apply H. reflexivity.
  - vm_compute. intros H. apply H. reflexivity.
Qed.

(* ================================================================== *)
(** ** The wait *)

(** C8, as the code has it.  The wait that [next(now)] returns is the
    candidate minus [now] as [Time.Sub] computes it: the difference
    itself when it fits a [Duration], and of the sign of the difference
    always.  A primed call returns a wait that is zero or positive, zero
    exactly when the candidate is [now]; a negative wait comes from an
    unprimed call only. *)
Theorem C8_wait (fuel : nat) (now : Time) (s s' : scheduler) (h : bool)
    (w : Duration) :
  next fuel (frozen now) s = Some (s', (h, w)) ->
  w = Sub (getCandidate s') now
  /\ (in_int64 (getCandidate s' - now) -> w = getCandidate s' - now)
  /\ (0 < w <-> now < getCandidate s')
  /\ (w = 0 <-> getCandidate s' = now)
  /\ (sched_started s = true -> 0 <= w)
  /\ (w < 0 -> sched_started s = false).
Proof.
  intros Hrun.
  destruct (next_inv fuel (frozen now) s s' h w Hrun)
    as (k & _ & _ & _ & Hw & _ & Hpr).
  unfold frozen in Hw, Hpr.
  assert (Hprimed : sched_started s = true -> 0 <= w).
  { intros Hs. destruct (Hpr Hs) as [Hstop _].
    apply Before_false in Hstop.
    destruct (Z.eq_dec (getCandidate s') now) as [Heq | Hne].
    - apply Sub_zero in Heq. lia.
    - assert (0 < Sub (getCandidate s') now) by (apply Sub_pos; lia). lia. }
  split; [exact Hw | split; [| split; [| split; [| split]]]].
  - intros Hr. rewrite Hw. now apply Sub_exact.
  - rewrite Hw. apply Sub_pos.
  - rewrite Hw. apply Sub_zero.
  - exact Hprimed.
  - intros Hneg. destruct (sched_started s); [| reflexivity].
    specialize (Hprimed eq_refl). lia.
Qed.

(** A primed call asked at 125 when the next candidate is 130. *)
Lemma C8_wait_witness :
  5 = Sub (getCandidate (Periodic (mkPeriodic 100 0 true 10 3))) 125
  /\ (in_int64 (getCandidate (Periodic (mkPeriodic 100 0 true 10 3)) - 125) ->
      5 = getCandidate (Periodic (mkPeriodic 100 0 true 10 3)) - 125)
  /\ (0 < 5 <-> 125 < getCandidate (Periodic (mkPeriodic 100 0 true 10 3)))
  /\ (5 = 0 <-> getCandidate (Periodic (mkPeriodic 100 0 true 10 3)) = 125)
  /\ (sched_started (Periodic (mkPeriodic 100 0 true 10 0)) = true -> 0 <= 5)
  /\ (5 < 0 -> sched_started (Periodic (mkPeriodic 100 0 true 10 0)) = false).
Proof.
  exact (C8_wait 4 125 (Periodic (mkPeriodic 100 0 true 10 0))
                 (Periodic (mkPeriodic 100 0 true 10 3)) true 5 eq_refl).
Defined.

(** C8, where it fails.  Every ten nanoseconds from 100: the first call,
    made at 100, primes the cadence; the second, made at 110 on the
    primed cadence, reports the candidate 110 with a wait of zero. *)
Lemma C8_counterexample :
  newPeriodic 0 100 0 2 5 false = Ok (mkPeriodic 100 0 false 10 0)
  /\ calls 2 (Periodic (mkPeriodic 100 0 false 10 0)) (map frozen [100; 110])
     = Some [(Periodic (mkPeriodic 100 0 true 10 0), (true, 0));
             (Periodic (mkPeriodic 100 0 true 10 1), (true, 0))]
  /\ exists s' h w,
       next 2 (frozen 110) (Periodic (mkPeriodic 100 0 true 10 0))
       = Some (s', (h, w))
       /\ sched_started (Periodic (mkPeriodic 100 0 true 10 0)) = true
       /\ ~ (0 < w).
Proof.
  split; [vm_compute; reflexivity | split; [vm_compute; reflexivity |]].
  exists (Periodic (mkPeriodic 100 0 true 10 1)), true, 0.
  split; [vm_compute; reflexivity | split; [reflexivity | lia]].
Qed.

(* ================================================================== *)
(** ** The occurrence index *)

(** What a call leaves of the cadence: the anchor, the end and the step
    as they were, the index moved by the increments of the loop. *)
Lemma next_frame (fuel : nat) (clk : Clock) (s s' : scheduler)
    (r : bool * Duration) :
  next fuel clk s = Some (s', r) ->
  sched_start s' = sched_start s
  /\ sched_end s' = sched_end s
  /\ sched_ammount s' = sched_ammount s
  /\ sched_started s' = true
  /\ getCandidate s' = candidateAt s (sched_n s')
  /\ exists k : nat,
       (k < fuel)%nat /\ sched_n s' = indexAfter k (sched_n s)
       /\ (sched_started s = false
           \/ Before (getCandidate s) (clk 0%nat) = false -> k = 0%nat).
Proof.
  destruct r as [h w]. intros Hrun.
  destruct (next_inv fuel clk s s' h w Hrun)
    as (k & Hk & Hs' & _ & _ & Hun & Hpr).
  assert (Hn : sched_n s' = indexAfter k (sched_n s))
    by (rewrite Hs', sched_n_set_started, sched_n_set_n; reflexivity).
  repeat split.
  - rewrite Hs', sched_start_set_started, sched_start_set_n. reflexivity.
  - rewrite Hs', sched_end_set_started, sched_end_set_n. reflexivity.
  - rewrite Hs', sched_ammount_set_started, sched_ammount_set_n. reflexivity.
  - rewrite Hs'. apply sched_started_set_started.
  - rewrite Hn. rewrite Hs', getCandidate_set_started. reflexivity.
  - exists k. repeat split; try assumption.
    intros [Hs | Hstop]; [now apply Hun |].
    destruct (sched_started s) eqn:Hs; [| now apply Hun].
    destruct (Hpr eq_refl) as [_ Hbefore].
    destruct k as [| k]; [reflexivity |].
    specialize (Hbefore 0%nat ltac:(lia)).
    change (indexAfter 0 (sched_n s)) with (sched_n s) in Hbefore.
    rewrite candidateAt_n in Hbefore. congruence.
Qed.

(** While the counter stays in range an index never goes down. *)
Lemma next_index_bounds (fuel : nat) (clk : Clock) (s s' : scheduler)
    (r : bool * Duration) :
  next fuel clk s = Some (s', r) ->
  minInt64 <= sched_n s -> sched_n s + Z.of_nat fuel <= maxInt64 ->
  sched_n s <= sched_n s' <= sched_n s + Z.of_nat fuel.
Proof.
  intros Hrun Hlo Hhi.
  destruct (next_frame fuel clk s s' r Hrun)
    as (_ & _ & _ & _ & _ & k & Hk & Hn & _).
  rewrite Hn, indexAfter_small by lia. lia.
Qed.

Lemma calls_sorted (clks : list Clock) :
  forall (fuel : nat) (s : scheduler) rs,
    calls fuel s clks = Some rs ->
    minInt64 <= sched_n s ->
    sched_n s + Z.of_nat (List.length clks * fuel) <= maxInt64 ->
    StronglySorted Z.le (sched_n s :: map (fun r => sched_n (fst r)) rs).
Proof.
  induction clks as [| clk clks IH]; intros fuel s rs Hcalls Hlo Hhi.
  - cbn [calls] in Hcalls. injection Hcalls as <-.
    constructor; constructor.
  - cbn [calls] in Hcalls.
    destruct (next fuel clk s) as [[s' r] |] eqn:Hnext; [| discriminate].
    destruct (calls fuel s' clks) as [rs' |] eqn:Hrest; [| discriminate].
    injection Hcalls as <-.
    cbn [List.length Nat.mul] in Hhi.
    pose proof (next_index_bounds fuel clk s s' r Hnext Hlo ltac:(lia)) as Hb.
    specialize (IH fuel s' rs' Hrest ltac:(lia) ltac:(lia)).
    cbn [map fst].
    constructor; [exact IH |].
    constructor; [lia |].
    apply StronglySorted_inv in IH. destruct IH as [_ Hall].
    eapply Forall_impl; [| exact Hall].
    cbn beta. intros z Hz. lia.
Qed.

(** C9.  Across any run of calls of [next] the occurrence index never
    goes down, as long as the 64-bit counter has room for the
    increments that the run can make.  A call changes nothing of the
    cadence but the index and the priming flag; the index moves by the
    increments of the loop alone, and stays when the loop body does not
    run.  The candidate after a call is the candidate of the cadence as
    it was for the new index: each [getCandidate] computes it from the
    anchor and index times step, not from the candidate before.  From
    January 31 by single months (in UTC), index 2 is March 31, where a
    month added to the candidate for index 1 would be March 28. *)
Theorem C9_index_and_candidates :
  (forall (fuel : nat) (s : scheduler) (clks : list Clock) rs,
     calls fuel s clks = Some rs ->
     minInt64 <= sched_n s ->
     sched_n s + Z.of_nat (List.length clks * fuel) <= maxInt64 ->
     StronglySorted Z.le (sched_n s :: map (fun r => sched_n (fst r)) rs))
  /\ (forall (fuel : nat) (clk : Clock) (s s' : scheduler) r,
        next fuel clk s = Some (s', r) ->
        sched_start s' = sched_start s
        /\ sched_end s' = sched_end s
        /\ sched_ammount s' = sched_ammount s
        /\ getCandidate s' = candidateAt s (sched_n s')
        /\ exists k : nat,
             (k < fuel)%nat /\ sched_n s' = indexAfter k (sched_n s)
             /\ (sched_started s = false
                 \/ Before (getCandidate s) (clk 0%nat) = false ->
                 sched_n s' = sched_n s))
  /\ (forall p : periodic,
        periodic_getCandidate p
        = Add (periodic_start p)
              (mul64 (periodic_n p) (periodic_ammount p)))
  /\ (forall m : monthly,
        monthly_getCandidate m
        = clampTo (monthly_loc m) (monthly_start m)
            (AddDate (monthly_loc m) (monthly_start m) 0
                     (mul64 (monthly_n m) (monthly_ammount m)) 0))
  /\ (forall y : yearly,
        yearly_getCandidate y
        = clampTo (yearly_loc y) (yearly_start y)
            (AddDate (yearly_loc y) (yearly_start y)
                     (mul64 (yearly_n y) (yearly_ammount y)) 0 0))
  /\ (let s := mkMonthly (Date 2023 1 31 0 UTC) UTC 0 true 1 2 in
      let previous := monthly_getCandidate (monthly_set_n s 1) in
      civil UTC previous = (2023, 2, 28)
      /\ civil UTC (monthly_getCandidate s) = (2023, 3, 31)
      /\ civil UTC (clampTo UTC previous (AddDate UTC previous 0 1 0))
         = (2023, 3, 28)).
Proof.
  split; [| split; [| split; [| split; [| split]]]].
  - intros fuel s clks rs. apply calls_sorted.
  - intros fuel clk s s' r Hrun.
    destruct (next_frame fuel clk s s' r Hrun)
      as (H1 & H2 & H3 & _ & H5 & k & Hk & Hn & H0).
    repeat split; try assumption.
    exists k. repeat split; try assumption.
    intros Hc. rewrite Hn, (H0 Hc). reflexivity.
  - reflexivity.
  - reflexivity.
  - reflexivity.
  - vm_compute. repeat split; reflexivity.
Qed.

(** Five calls on a cadence of ten nanoseconds, and one of them. *)
Lemma C9_index_and_candidates_witness :
  StronglySorted Z.le
    (0 :: map (fun r : scheduler * (bool * Duration) => sched_n (fst r))
              [(Periodic (mkPeriodic 100 0 true 10 0), (true, 10));
               (Periodic (mkPeriodic 100 0 true 10 3), (true, 5));
               (Periodic (mkPeriodic 100 0 true 10 3), (true, 2))])
  /\ sched_start (Periodic (mkPeriodic 100 0 true 10 3)) = 100
  /\ getCandidate (Periodic (mkPeriodic 100 0 true 10 3))
     = candidateAt (Periodic (mkPeriodic 100 0 true 10 0)) 3.
Proof.
  destruct C9_index_and_candidates as (Hsorted & Hframe & _).
  split.
  - apply (Hsorted 4%nat (Periodic (mkPeriodic 100 0 false 10 0))
                   (map frozen [90; 125; 128])).
    + vm_compute. reflexivity.
    + vm_compute. discriminate.
    + vm_compute. discriminate.
  - destruct (Hframe 4%nat (frozen 125)
                (Periodic (mkPeriodic 100 0 true 10 0))
                (Periodic (mkPeriodic 100 0 true 10 3)) (true, 5) eq_refl)
      as (H1 & _ & _ & H4 & _).
    split; [exact H1 | exact H4].
Defined.
(* ================================================================== *)
(** ** Cadences that skip their anchor *)

Lemma newMonthly_Ok (now : Time) (local : Location) (start : Time)
    (loc : Location) (end_ : Time) (ammount : Z) (skip : bool) (m : monthly) :
  newMonthly now local start loc end_ ammount skip = Ok m ->
  ammount <> 0
  /\ m = mkMonthly (if IsZero start then now else start)
                   (if IsZero start then local else loc) end_ skip ammount
                   (if skip then 1 else 0).
Proof.
  unfold newMonthly.
  destruct (Z.eqb_spec ammount 0) as [| Ha]; [discriminate |].
  destruct (IsZero start); intros Hok; injection Hok as <-; auto.
Qed.

Lemma newYearly_Ok (now : Time) (local : Location) (start : Time)
    (loc : Location) (end_ : Time) (ammount : Z) (skip : bool) (y : yearly) :
  newYearly now local start loc end_ ammount skip = Ok y ->
  ammount <> 0
  /\ y = mkYearly (if IsZero start then now else start)
                  (if IsZero start then local else loc) end_ skip ammount
                  (if skip then 1 else 0).
Proof.
  unfold newYearly.
  destruct (Z.eqb_spec ammount 0) as [| Ha]; [discriminate |].
  destruct (IsZero start); intros Hok; injection Hok as <-; auto.
Qed.


(** Through a run of calls every index lies between the first index and
    the first index plus the tests that the loops can make; what a call
    reports is the candidate of the first cadence for the index reached,
    and the flag is the one of that candidate. *)
Lemma calls_reports (clks : list Clock) :
  forall (fuel : nat) (s0 s : scheduler) rs,
    (forall j, candidateAt s j = candidateAt s0 j) ->
    sched_end s = sched_end s0 ->
    calls fuel s clks = Some rs ->
    minInt64 <= sched_n s ->
    sched_n s + Z.of_nat (List.length clks * fuel) <= maxInt64 ->
    Forall (fun r =>
              sched_n s <= sched_n (fst r)
                        <= sched_n s + Z.of_nat (List.length clks * fuel)
              /\ getCandidate (fst r) = candidateAt s0 (sched_n (fst r))
              /\ fst (snd r)
                 = hasMore s0 (candidateAt s0 (sched_n (fst r)))) rs.
Proof.
  induction clks as [| clk clks IH];
    intros fuel s0 s rs Hat Hend Hcalls Hlo Hhi.
  - cbn [calls] in Hcalls. injection Hcalls as <-. constructor.
  - cbn [calls] in Hcalls.
    destruct (next fuel clk s) as [[s' [h w]] |] eqn:Hnext; [| discriminate].
    destruct (calls fuel s' clks) as [rs' |] eqn:Hrest; [| discriminate].
    injection Hcalls as <-.
    cbn [List.length Nat.mul] in *.
    pose proof (next_index_bounds fuel clk s s' (h, w) Hnext Hlo ltac:(lia))
      as Hb.
    destruct (next_frame fuel clk s s' (h, w) Hnext)
      as (_ & Hend' & _ & _ & Hcand & _).
    destruct (next_inv fuel clk s s' h w Hnext) as (k & _ & Hs' & Hh & _).
    assert (Hat' : forall j, candidateAt s' j = candidateAt s0 j).
    { intros j. rewrite <- Hat, Hs'.
      rewrite candidateAt_set_started, candidateAt_set_n. reflexivity. }
    constructor.
    + cbn [fst snd]. split; [lia | split].
      * rewrite Hcand. apply Hat.
      * rewrite Hh, Hcand, Hat. unfold hasMore. rewrite Hend. reflexivity.
    + eapply Forall_impl;
        [| apply (IH fuel s0 s' rs' Hat' (eq_trans Hend' Hend) Hrest); lia].
      cbn beta. intros r [Hr Hf]. split; [lia | exact Hf].
Qed.









(* ================================================================== *)
(** ** Further properties: the candidates as a sequence *)

(** X1.  For each of the three cadences the candidate for the index 0
    is the anchor itself, whatever the step: a product with 0 does not
    overflow, and a date shifted by no month or year is the same
    instant, day and time of day.  For the calendar cadences the anchor
    is held in a location without transitions and lies in a year within
    reach. *)
Theorem X1_candidate_0_is_anchor (s : scheduler) :
  plainAnchor s -> candidateAt s 0 = sched_start s.
Proof.
  intros Hp.
  destruct s as [p | m | y]; unfold candidateAt;
    cbn [sched_set_n getCandidate sched_start].
  - apply periodic_candidate_0.
  - apply monthly_candidate_0. exact Hp.
  - apply yearly_candidate_0. exact Hp.
Qed.

(** Every month from January 31, 2023, 23:30 five hours behind UTC. *)
Lemma X1_candidate_0_is_anchor_witness :
  candidateAt
    (Monthly (mkMonthly (Date 2023 1 31 (23 * Hour + 30 * Minute)
                              (FixedZone (-18000)))
                        (FixedZone (-18000)) 0 true 1 5)) 0
  = Date 2023 1 31 (23 * Hour + 30 * Minute) (FixedZone (-18000)).
Proof.
  apply (X1_candidate_0_is_anchor
           (Monthly (mkMonthly (Date 2023 1 31 (23 * Hour + 30 * Minute)
                                     (FixedZone (-18000)))
                               (FixedZone (-18000)) 0 true 1 5))).
  split.
  - split; [reflexivity | cbn; lia].
  - unfold inYears. vm_compute. split; discriminate.
Defined.

(** X2.  A monthly or yearly candidate falls at the anchor's time of
    day, on a day of the month that is never above the anchor's: it is
    the anchor's day, or else the last day of the candidate's month.
    Date and time of day are read in the anchor's location; the years
    are within reach and the location shows the two wall clocks that
    [getCandidate] asks [time.Date] for, as every location without
    transitions does. *)
Theorem X2_calendar_candidate_time_of_day :
  (forall (s : monthly) (y m d Y M : Z),
     let l := monthly_loc s in
     let tod := timeOfDay l (monthly_start s) in
     civil l (monthly_start s) = (y, m, d) ->
     inYears y ->
     normMonth y (m + mul64 (monthly_n s) (monthly_ammount s)) = (Y, M) ->
     inYears Y ->
     shown l (wallOf Y M d tod) ->
     shown l (wallOf Y M (Z.min d (daysIn M Y)) tod) ->
     timeOfDay l (monthly_getCandidate s) = tod
     /\ Day l (monthly_getCandidate s) <= d
     /\ (Day l (monthly_getCandidate s) = d
         \/ Day l (monthly_getCandidate s)
            = daysIn (Month l (monthly_getCandidate s))
                     (Year l (monthly_getCandidate s))))
  /\ (forall (s : yearly) (y m d : Z),
        let l := yearly_loc s in
        let tod := timeOfDay l (yearly_start s) in
        let Y := y + mul64 (yearly_n s) (yearly_ammount s) in
        civil l (yearly_start s) = (y, m, d) ->
        inYears Y ->
        shown l (wallOf Y m d tod) ->
        shown l (wallOf Y m (Z.min d (daysIn m Y)) tod) ->
        timeOfDay l (yearly_getCandidate s) = tod
        /\ Day l (yearly_getCandidate s) <= d
        /\ (Day l (yearly_getCandidate s) = d
            \/ Day l (yearly_getCandidate s)
               = daysIn (Month l (yearly_getCandidate s))
                        (Year l (yearly_getCandidate s))))
  /\ (forall s : scheduler,
        plainAnchor s -> inWindow s (sched_n s) ->
        match s with
        | Periodic _ => True
        | Monthly m =>
            timeOfDay (monthly_loc m) (getCandidate s)
            = timeOfDay (monthly_loc m) (monthly_start m)
            /\ Day (monthly_loc m) (getCandidate s)
               <= Day (monthly_loc m) (monthly_start m)
        | Yearly y =>
            timeOfDay (yearly_loc y) (getCandidate s)
            = timeOfDay (yearly_loc y) (yearly_start y)
            /\ Day (yearly_loc y) (getCandidate s)
               <= Day (yearly_loc y) (yearly_start y)
        end).
Proof.
  split; [| split].
  - intros s y m d Y M. cbv zeta. intros Hciv Hy Hnorm HY Hshift Hlast.
    destruct (civil_monthly_getCandidate_shown s y m d Y M Hciv Hy Hnorm HY
                Hshift Hlast) as [Hc Ht].
    rewrite !Day_civil. unfold Month, Year. rewrite Hc. cbn [fst snd].
    split; [exact Ht | split; lia].
  - intros s y m d. cbv zeta. intros Hciv HY Hshift Hlast.
    destruct (civil_yearly_getCandidate_shown s y m d Hciv HY Hshift Hlast)
      as [Hc Ht].
    rewrite !Day_civil. unfold Month, Year. rewrite Hc. cbn [fst snd].
    split; [exact Ht | split; lia].
  - intros [p | m | y]; cbn [plainAnchor inWindow getCandidate sched_n];
      [trivial | |].
    + intros [Hl Hy] [Hr HY]. rewrite !Day_civil. unfold Year, Month in *.
      destruct (civil (monthly_loc m) (monthly_start m)) as [[y0 m0] d0]
        eqn:Hciv.
      cbn [fst snd] in *.
      rewrite <- (mul64_small _ _ Hr) in HY.
      destruct (civil_monthly_getCandidate m y0 m0 d0 _ _ Hl Hciv Hy
                  (surjective_pairing _) HY) as (_ & Hc & Ht).
      rewrite Hc. cbn [snd]. split; [exact Ht | lia].
    + intros [Hl Hy] [Hr HY]. rewrite !Day_civil. unfold Year, Month in *.
      destruct (civil (yearly_loc y) (yearly_start y)) as [[y0 m0] d0]
        eqn:Hciv.
      cbn [fst snd] in *.
      rewrite <- (mul64_small _ _ Hr) in HY.
      destruct (civil_yearly_getCandidate y y0 m0 d0 Hl Hciv HY)
        as (_ & Hc & Ht).
      rewrite Hc. cbn [snd]. split; [exact Ht | lia].
Qed.

(** January 31, 2023, noon in a location that moves its clocks forward
    on March 12 and back on November 5, by single months at index 3:
    April 30 at noon there.  February 29, 2024, 10:00 in UTC by years at
    index 1. *)
Lemma X2_calendar_candidate_time_of_day_witness :
  (let l := mkLocation (-18000)
              [(1678604400, -14400); (1699164000, -18000)] in
   let s := mkMonthly (Date 2023 1 31 (12 * Hour) l) l 0 true 1 3 in
   timeOfDay l (monthly_getCandidate s) = timeOfDay l (monthly_start s)
   /\ Day l (monthly_getCandidate s) <= 31
   /\ (Day l (monthly_getCandidate s) = 31
       \/ Day l (monthly_getCandidate s)
          = daysIn (Month l (monthly_getCandidate s))
                   (Year l (monthly_getCandidate s))))
  /\ (let s := Yearly (mkYearly (Date 2024 2 29 (10 * Hour) UTC) UTC 0
                                true 1 1) in
      timeOfDay UTC (getCandidate s)
      = timeOfDay UTC (Date 2024 2 29 (10 * Hour) UTC)
      /\ Day UTC (getCandidate s) <= Day UTC (Date 2024 2 29 (10 * Hour) UTC)).
Proof.
  destruct X2_calendar_candidate_time_of_day as (Hm & _ & Hplain).
  split.
  - cbv zeta.
    refine (Hm (mkMonthly
                  (Date 2023 1 31 (12 * Hour)
                        (mkLocation (-18000)
                           [(1678604400, -14400); (1699164000, -18000)]))
                  (mkLocation (-18000)
                     [(1678604400, -14400); (1699164000, -18000)])
                  0 true 1 3)
               2023 1 31 2023 4 _ _ _ _ _ _).
    + vm_compute. reflexivity.
    + vm_compute. split; discriminate.
    + vm_compute. reflexivity.
    + vm_compute. split; discriminate.
    + unfold shown. vm_compute. reflexivity.
    + unfold shown. vm_compute. reflexivity.
  - cbv zeta.
    refine (Hplain (Yearly (mkYearly (Date 2024 2 29 (10 * Hour) UTC) UTC 0
                                     true 1 1)) _ _).
    + split; [exact plainLocation_UTC |].
      unfold inYears. vm_compute. split; discriminate.
    + split; [vm_compute; split; discriminate |].
      unfold inYears. vm_compute. split; discriminate.
Defined.

(** X3.  The candidates of a monthly or yearly cadence with a positive
    amount come in the order of their indices, a day apart at the
    least, clamping or not: for an anchor held in a location without
    transitions and two indices within range, whose products with the
    amount fit in 64 bits and whose years are within reach. *)
Theorem X3_calendar_candidates_increase :
  (forall (m : monthly) (i j : Z),
     plainAnchor (Monthly m) ->
     0 < monthly_ammount m -> i < j ->
     inWindow (Monthly m) i -> inWindow (Monthly m) j ->
     monthly_getCandidate (monthly_set_n m i)
     < monthly_getCandidate (monthly_set_n m j)
     /\ monthly_getCandidate (monthly_set_n m i) + nsPerDay
        <= monthly_getCandidate (monthly_set_n m j))
  /\ (forall (y : yearly) (i j : Z),
        plainAnchor (Yearly y) ->
        0 < yearly_ammount y -> i < j ->
        inWindow (Yearly y) i -> inWindow (Yearly y) j ->
        yearly_getCandidate (yearly_set_n y i)
        < yearly_getCandidate (yearly_set_n y j)
        /\ yearly_getCandidate (yearly_set_n y i) + nsPerDay
           <= yearly_getCandidate (yearly_set_n y j)).
Proof.
  split.
  - intros m i j Hp Ha Hij Hi Hj.
    pose proof (candidateAt_step (Monthly m) i j Hp Ha Hij Hi Hj) as H.
    unfold candidateAt in H. cbn [sched_set_n getCandidate minStep] in H.
    pose proof nsPerDay_pos. split; [lia | exact H].
  - intros y i j Hp Ha Hij Hi Hj.
    pose proof (candidateAt_step (Yearly y) i j Hp Ha Hij Hi Hj) as H.
    unfold candidateAt in H. cbn [sched_set_n getCandidate minStep] in H.
    pose proof nsPerDay_pos. split; [lia | exact H].
Qed.

(** From January 31, 2023 by single months, indices 1 and 2; from
    February 29, 2024 by years, indices 0 and 1; both in UTC. *)
Lemma X3_calendar_candidates_increase_witness :
  (monthly_getCandidate
     (monthly_set_n (mkMonthly (Date 2023 1 31 0 UTC) UTC 0 true 1 0) 1)
   < monthly_getCandidate
       (monthly_set_n (mkMonthly (Date 2023 1 31 0 UTC) UTC 0 true 1 0) 2)
   /\ monthly_getCandidate
        (monthly_set_n (mkMonthly (Date 2023 1 31 0 UTC) UTC 0 true 1 0) 1)
      + nsPerDay
      <= monthly_getCandidate
           (monthly_set_n (mkMonthly (Date 2023 1 31 0 UTC) UTC 0 true 1 0) 2))
  /\ (yearly_getCandidate
        (yearly_set_n (mkYearly (Date 2024 2 29 0 UTC) UTC 0 true 1 0) 0)
      < yearly_getCandidate
          (yearly_set_n (mkYearly (Date 2024 2 29 0 UTC) UTC 0 true 1 0) 1)
      /\ yearly_getCandidate
           (yearly_set_n (mkYearly (Date 2024 2 29 0 UTC) UTC 0 true 1 0) 0)
         + nsPerDay
         <= yearly_getCandidate
              (yearly_set_n (mkYearly (Date 2024 2 29 0 UTC) UTC 0 true 1 0)
                            1)).
Proof.
  destruct X3_calendar_candidates_increase as [Hm Hy].
  split.
  - apply Hm.
    + split; [exact plainLocation_UTC |].
      unfold inYears. vm_compute. split; discriminate.
    + reflexivity.
    + reflexivity.
    + split; [vm_compute; split; discriminate |].
      unfold inYears. vm_compute. split; discriminate.
    + split; [vm_compute; split; discriminate |].
      unfold inYears. vm_compute. split; discriminate.
  - apply Hy.
    + split; [exact plainLocation_UTC |].
      unfold inYears. vm_compute. split; discriminate.
    + reflexivity.
    + reflexivity.
    + split; [vm_compute; split; discriminate |].
      unfold inYears. vm_compute. split; discriminate.
    + split; [vm_compute; split; discriminate |].
      unfold inYears. vm_compute. split; discriminate.
Defined.

(** X4.  A yearly cadence is the monthly cadence of twelve times its
    amount: with the same anchor, location and index the two candidates
    are the same instant, in any location, as long as the anchor's year
    and the years shifted by are within reach. *)
Theorem X4_yearly_is_twelve_monthly (start : Time) (loc : Location)
    (end_ : Time) (started : bool) (ammount n : Z) :
  inYears (Year loc start) -> inYears (n * ammount) ->
  yearly_getCandidate (mkYearly start loc end_ started ammount n)
  = monthly_getCandidate (mkMonthly start loc end_ started (12 * ammount) n).
Proof.
  unfold Year. intros Hy Hk.
  rewrite yearly_getCandidate_clampTo, monthly_getCandidate_clampTo.
  cbn [yearly_start yearly_loc yearly_n yearly_ammount
       monthly_start monthly_loc monthly_n monthly_ammount].
  destruct (civil loc start) as [[y m] d] eqn:Hciv. cbn [fst] in Hy.
  pose proof (civil_valid loc start) as Hv. rewrite Hciv in Hv.
  destruct Hv as (Hm & Hd & _).
  pose proof (daysIn_bounds m y Hm) as Hdim.
  set (k := n * ammount) in *.
  assert (Hk12 : n * (12 * ammount) = 12 * k) by (subst k; lia).
  rewrite !mul64_small
    by (rewrite ?Hk12; unfold inYears, yearMax, in_int64, minInt64, maxInt64
          in *; lia).
  rewrite Hk12. fold k.
  f_equal.
  rewrite (AddDate_fromWall loc start k 0 y m d (y + k) m Hciv);
    [| unfold inYears, yearMax, small in *; lia
     | unfold small; lia
     | rewrite Z.add_0_r; now apply normMonth_id].
  rewrite (AddDate_fromWall loc start 0 (12 * k) y m d (y + k) m Hciv);
    [reflexivity
    | unfold inYears, yearMax, small in *; lia
    | unfold inYears, yearMax, small in *; lia |].
  rewrite Z.add_0_r, <- (normMonth_years y k m). now apply normMonth_id.
Qed.

(** From February 29, 2024 in UTC: every 3 years at index 5, every 36
    months at index 5. *)
Lemma X4_yearly_is_twelve_monthly_witness :
  yearly_getCandidate (mkYearly (Date 2024 2 29 7 UTC) UTC 0 true 3 5)
  = monthly_getCandidate
      (mkMonthly (Date 2024 2 29 7 UTC) UTC 0 true (12 * 3) 5).
Proof.
  apply X4_yearly_is_twelve_monthly;
    unfold inYears; vm_compute; split; discriminate.
Defined.

(* ================================================================== *)
(** ** Further properties: calls of [next] *)

(** X5.  A primed periodic cadence with a positive step, asked at
    [now], returns after a known number of increments: none when its
    candidate is not before [now], and otherwise the number [K] of
    whole steps that it takes to reach [now], rounded up.  The
    occurrence reported is the one in the step that starts at [now]: not
    before [now] and less than a step after it.  The products must fit
    in 64 bits up to the index reached. *)
Theorem X5_periodic_catch_up_lands (p : periodic) (now : Time) :
  periodic_started p = true ->
  0 < periodic_ammount p ->
  0 <= periodic_n p ->
  let P := periodic_ammount p in
  let c := periodic_start p + periodic_n p * P in
  let K := Z.max 0 ((now - c + P - 1) / P) in
  in_int64 ((periodic_n p + K) * P) ->
  next (S (Z.to_nat K)) (frozen now) (Periodic p)
  = Some (Periodic (periodic_set_n p (periodic_n p + K)),
          (hasMore (Periodic p) (c + K * P), Sub (c + K * P) now))
  /\ now <= c + K * P
  /\ (c < now -> c + K * P < now + P)
  /\ (now <= c -> K = 0).
Proof.
  intros Hs HP Hn P c K Hr.
  assert (HK0 : 0 <= K) by (subst K; lia).
  assert (Hq : P * ((now - c + P - 1) / P) <= now - c + P - 1
               < P * ((now - c + P - 1) / P) + P).
  { pose proof (Z.div_mod (now - c + P - 1) P ltac:(lia)) as Hdm.
    pose proof (Z.mod_pos_bound (now - c + P - 1) P HP). lia. }
  assert (Hstop : now <= c + K * P) by (subst K; nia).
  assert (Hlast : c < now -> c + K * P < now + P) by (subst K; nia).
  assert (Hzero : now <= c -> K = 0) by (subst K; nia).
  assert (Hmax : periodic_n p + K <= maxInt64)
    by (apply (index_below_product _ P HP); [lia | exact Hr]).
  assert (Hidx : forall j : nat,
            Z.of_nat j <= K ->
            indexAfter j (periodic_n p) = periodic_n p + Z.of_nat j).
  { intros j Hj. apply indexAfter_small; unfold minInt64 in *; lia. }
  assert (Hcand : forall j : nat,
            Z.of_nat j <= K ->
            candidateAt (Periodic p) (indexAfter j (periodic_n p))
            = c + Z.of_nat j * P).
  { intros j Hj. rewrite (Hidx j Hj).
    change (candidateAt (Periodic p) (periodic_n p + Z.of_nat j))
      with (periodic_getCandidate
              (periodic_set_n p (periodic_n p + Z.of_nat j))).
    rewrite periodic_candidate_exact.
    - subst c P. lia.
    - apply (in_int64_mul_below _ (periodic_n p + K) _ HP); [lia | exact Hr]. }
  split; [| split; [exact Hstop | split; [exact Hlast | exact Hzero]]].
  rewrite (next_primed (Z.to_nat K) _ (frozen now) (Periodic p) Hs).
  - cbn [sched_n]. rewrite (Hcand (Z.to_nat K)) by lia.
    rewrite (Hidx (Z.to_nat K)) by lia.
    rewrite Z2Nat.id by lia. reflexivity.
  - intros j Hj. cbn [sched_n]. rewrite Hcand by lia.
    apply Before_true. unfold frozen.
    assert (Z.of_nat j <= K - 1) by lia.
    assert (1 <= K) by lia.
    subst K. nia.
  - cbn [sched_n]. rewrite Hcand by lia. rewrite Z2Nat.id by lia.
    apply Before_false. unfold frozen. lia.
  - lia.
Qed.

(** Every ten nanoseconds from 100, primed at index 0, asked at 125:
    three increments, and 130 is reported. *)
Lemma X5_periodic_catch_up_lands_witness :
  next 4 (frozen 125) (Periodic (mkPeriodic 100 0 true 10 0))
  = Some (Periodic (mkPeriodic 100 0 true 10 3), (true, 5))
  /\ 125 <= 100 + 0 * 10 + 3 * 10
  /\ (100 + 0 * 10 < 125 -> 100 + 0 * 10 + 3 * 10 < 125 + 10)
  /\ (125 <= 100 + 0 * 10 -> 3 = 0).
Proof.
  refine (X5_periodic_catch_up_lands (mkPeriodic 100 0 true 10 0) 125
            eq_refl _ _ _).
  - reflexivity.
  - discriminate.
  - vm_compute. split; discriminate.
Defined.

(** X6.  [newPeriodic] refuses a zero amount and a zero unit, not a
    zero product: an amount and a unit whose product is a multiple of
    2^64 give a cadence whose stored step is 0.  All its candidates are
    the anchor, and once it is primed a call made after the anchor never
    returns, at whatever index, however long the loop runs. *)
Theorem X6_zero_step_never_returns (now0 start end_ : Time) (ammount : Z)
    (unit : Duration) (skip : bool) :
  ammount <> 0 -> unit <> 0 -> mul64 ammount unit = 0 ->
  exists p : periodic,
    newPeriodic now0 start end_ ammount unit skip = Ok p
    /\ periodic_ammount p = 0
    /\ (forall n : Z, periodic_getCandidate (periodic_set_n p n)
                      = periodic_start p)
    /\ forall (n : Z) (now : Time) (fuel : nat),
         periodic_start p < now ->
         next fuel (frozen now)
              (Periodic (periodic_set_started (periodic_set_n p n) true))
         = None.
Proof.
  intros Ha Hu Hz.
  exists (mkPeriodic (if IsZero start then now0 else start) end_ skip
                     (mul64 ammount unit) (if skip then 1 else 0)).
  split; [| split; [exact Hz | split]].
  - unfold newPeriodic.
    destruct (Z.eqb_spec ammount 0); [contradiction |].
    destruct (Z.eqb_spec unit 0); [contradiction |].
    reflexivity.
  - intros n. unfold periodic_getCandidate.
    cbn [periodic_set_n periodic_start periodic_n periodic_ammount].
    rewrite Hz, mul64_0_r, Add_plus. lia.
  - intros n now fuel Hlate.
    apply periodic_zero_step_none; [reflexivity | exact Hz | exact Hlate].
Qed.

(** Every 2^48 weeks: the product with the nanoseconds of a week is
    189 * 5^11 * 2^64. *)
Lemma X6_zero_step_never_returns_witness :
  exists p : periodic,
    newPeriodic 7 100 0 281474976710656 Week false = Ok p
    /\ periodic_ammount p = 0
    /\ (forall n : Z, periodic_getCandidate (periodic_set_n p n)
                      = periodic_start p)
    /\ forall (n : Z) (now : Time) (fuel : nat),
         periodic_start p < now ->
         next fuel (frozen now)
              (Periodic (periodic_set_started (periodic_set_n p n) true))
         = None.
Proof.
  apply X6_zero_step_never_returns.
  - discriminate.
  - vm_compute. discriminate.
  - vm_compute. reflexivity.
Defined.
(* ================================================================== *)
(** ** Further properties: from the configuration to the first call *)

(** What [Done] builds carries the configuration: the start, the
    construction time standing in for a zero start, the end, and
    [notInmediately] as priming flag and first index. *)
Lemma Done_schedule_fields {W : Type} (j : Job W) (now : Time)
    (local : Location) (s : scheduler) :
  Done_schedule now local j = Ok (Some s) ->
  sched_start s = (if IsZero (aux_start (Job_aux j)) then now
                   else aux_start (Job_aux j))
  /\ sched_end s = aux_end (Job_aux j)
  /\ sched_started s = aux_notInmediately (Job_aux j)
  /\ sched_n s = (if aux_notInmediately (Job_aux j) then 1 else 0).
Proof.
  unfold Done_schedule.
  destruct (aux_kind (Job_aux j) =? periodicKind).
  - destruct (newPeriodic now (aux_start (Job_aux j)) (aux_end (Job_aux j))
                (aux_ammount (Job_aux j)) (aux_unit (Job_aux j))
                (aux_notInmediately (Job_aux j))) as [p | e] eqn:Hnew;
      [| discriminate].
    destruct (newPeriodic_Ok _ _ _ _ _ _ _ Hnew) as (_ & _ & ->).
    intros Hok. injection Hok as <-. repeat split.
  - destruct (aux_kind (Job_aux j) =? monthlyKind).
    + destruct (newMonthly now local (aux_start (Job_aux j))
                  (aux_loc (Job_aux j)) (aux_end (Job_aux j))
                  (aux_ammount (Job_aux j))
                  (aux_notInmediately (Job_aux j))) as [m | e] eqn:Hnew;
        [| discriminate].
      destruct (newMonthly_Ok _ _ _ _ _ _ _ _ Hnew) as (_ & ->).
      intros Hok. injection Hok as <-. repeat split.
    + destruct (aux_kind (Job_aux j) =? yearlyKind); [| discriminate].
      destruct (newYearly now local (aux_start (Job_aux j))
                  (aux_loc (Job_aux j)) (aux_end (Job_aux j))
                  (aux_ammount (Job_aux j))
                  (aux_notInmediately (Job_aux j))) as [y | e] eqn:Hnew;
        [| discriminate].
      destruct (newYearly_Ok _ _ _ _ _ _ _ _ Hnew) as (_ & ->).
      intros Hok. injection Hok as <-. repeat split.
Qed.

(** X7.  The cadence that [Done] builds for a job without
    [NotInmediately] reports its anchor at its first call, whatever the
    clock and whatever the kind and the step: the wait is the anchor
    minus the clock, and the anchor is the configured start, or the time
    of the construction when no start (or the zero instant) was given,
    so that a job without a start is due at once.  The flag tells
    whether the anchor is before the end.  For the calendar cadences
    the anchor is held in a location without transitions and lies in a
    year within reach. *)
Theorem X7_first_call_reports_anchor (W : Type) (j : Job W) (now : Time)
    (local : Location) (s : scheduler) :
  Done_schedule now local j = Ok (Some s) ->
  aux_notInmediately (Job_aux j) = false ->
  plainAnchor s ->
  let anchor := if IsZero (aux_start (Job_aux j)) then now
                else aux_start (Job_aux j) in
  sched_start s = anchor
  /\ forall (clk : Clock) (fuel : nat),
       next (S fuel) clk s
       = Some (sched_set_started s true,
               (IsZero (aux_end (Job_aux j))
                || Before anchor (aux_end (Job_aux j)),
                Sub anchor (clk 1%nat))).
Proof.
  intros Hdone Hskip Hp anchor.
  destruct (Done_schedule_fields j now local s Hdone)
    as (Hstart & Hend & Hs & Hn).
  rewrite Hskip in Hs, Hn.
  split; [exact Hstart |].
  intros clk fuel.
  rewrite (next_unprimed fuel clk s Hs).
  unfold hasMore.
  assert (Hc : getCandidate s = sched_start s).
  { rewrite <- candidateAt_n, Hn. unfold candidateAt.
    destruct s as [p | m | y]; cbn [sched_set_n getCandidate sched_start].
    - apply periodic_candidate_0.
    - apply monthly_candidate_0. exact Hp.
    - apply yearly_candidate_0. exact Hp. }
  rewrite Hc, Hstart, Hend. reflexivity.
Qed.

(** Every two months, no start given, built on January 31, 2023, 23:30
    five hours behind UTC, the local zone. *)
Lemma X7_first_call_reports_anchor_witness :
  let now := Date 2023 1 31 (23 * Hour + 30 * Minute) (FixedZone (-18000)) in
  let s := Monthly (mkMonthly now (FixedZone (-18000)) 0 false 2 0) in
  sched_start s = now
  /\ forall (clk : Clock) (fuel : nat),
       next (S fuel) clk s
       = Some (sched_set_started s true,
               (IsZero 0 || Before now 0, Sub now (clk 1%nat))).
Proof.
  cbv zeta.
  assert (Hj : exists j : Job nat,
            Every (Months (Schedule Nat.succ)) [2] = Some j
            /\ Done_schedule
                 (Date 2023 1 31 (23 * Hour + 30 * Minute)
                       (FixedZone (-18000)))
                 (FixedZone (-18000)) j
               = Ok (Some (Monthly
                             (mkMonthly
                                (Date 2023 1 31 (23 * Hour + 30 * Minute)
                                      (FixedZone (-18000)))
                                (FixedZone (-18000)) 0 false 2 0)))
            /\ aux_notInmediately (Job_aux j) = false
            /\ IsZero (aux_start (Job_aux j)) = true
            /\ aux_end (Job_aux j) = 0).
  { eexists. split; [reflexivity |]. repeat split. }
  destruct Hj as (j & _ & Hdone & Hskip & Hst & Hen).
  assert (Hp : plainAnchor
                 (Monthly
                    (mkMonthly
                       (Date 2023 1 31 (23 * Hour + 30 * Minute)
                             (FixedZone (-18000)))
                       (FixedZone (-18000)) 0 false 2 0))).
  { split; [split; [reflexivity | cbn; lia] |].
    unfold inYears. vm_compute. split; discriminate. }
  pose proof (X7_first_call_reports_anchor nat j _ _ _ Hdone Hskip Hp) as H.
  cbn zeta in H. rewrite Hst, Hen in H. exact H.
Defined.

(* ================================================================== *)
(** ** Further properties: runs of calls *)

Lemma hasMore_false (s : scheduler) (c : Time) :
  hasMore s c = false <-> sched_end s <> 0 /\ sched_end s <= c.
Proof.
  pose proof (hasMore_true s c) as H.
  destruct (hasMore s c); split; intros H1; try discriminate; try reflexivity.
  - exfalso. destruct (proj1 H eq_refl); lia.
  - split; [intros E | destruct (Z.le_gt_cases (sched_end s) c); [assumption |]];
      exfalso; assert (false = true) by (apply H; lia); discriminate.
Qed.

(** With clocks that do not go back during a call, a cadence whose
    candidate is not before its end keeps reporting candidates that are
    not before its end. *)
Lemma calls_exhausted (clks : list Clock) :
  forall (fuel : nat) (s : scheduler) rs,
    Forall (fun clk : Clock => forall k : nat, clk 0%nat <= clk k) clks ->
    hasMore s (getCandidate s) = false ->
    calls fuel s clks = Some rs ->
    Forall (fun r => fst (snd r) = false) rs.
Proof.
  induction clks as [| clk clks IH]; intros fuel s rs Hmono Hout Hcalls.
  - cbn [calls] in Hcalls. injection Hcalls as <-. constructor.
  - cbn [calls] in Hcalls.
    destruct (next fuel clk s) as [[s' [h w]] |] eqn:Hnext; [| discriminate].
    destruct (calls fuel s' clks) as [rs' |] eqn:Hrest; [| discriminate].
    injection Hcalls as <-.
    apply Forall_cons_iff in Hmono. destruct Hmono as [Hclk Hmono].
    destruct (next_frame fuel clk s s' (h, w) Hnext)
      as (_ & Hend & _ & _ & _ & _).
    destruct (next_inv fuel clk s s' h w Hnext)
      as (k & _ & Hs' & Hh & _ & Hun & Hpr).
    assert (Hle : getCandidate s <= getCandidate s').
    { destruct k as [| k].
      - rewrite Hs', getCandidate_set_started.
        change (indexAfter 0 (sched_n s)) with (sched_n s).
        rewrite sched_set_n_same. lia.
      - destruct (sched_started s) eqn:Hst;
          [| specialize (Hun eq_refl); discriminate].
        destruct (Hpr eq_refl) as [Hstop Hbefore].
        specialize (Hbefore 0%nat ltac:(lia)).
        change (indexAfter 0 (sched_n s)) with (sched_n s) in Hbefore.
        rewrite candidateAt_n in Hbefore.
        apply Before_true in Hbefore. apply Before_false in Hstop.
        specialize (Hclk (S k)). lia. }
    assert (Hout' : hasMore s (getCandidate s') = false).
    { apply hasMore_false. apply hasMore_false in Hout. lia. }
    constructor.
    + cbn [fst snd]. rewrite Hh. exact Hout'.
    + apply (IH fuel s' rs' Hmono); [| exact Hrest].
      unfold hasMore in *. rewrite Hend. exact Hout'.
Qed.

(** X8.  A cadence that has run out stays run out.  For a cadence
    whose candidate is not before its end (as after a call that
    returned the flag false), every later call returns the flag false:
    with clocks that do not go back during a call, for every cadence;
    and whatever the clocks for a cadence with a positive step, as long
    as the index is within range as far as the loops can take it, its
    product with the step within 64 bits and, for the calendar
    cadences, the years within reach of an anchor held in a location
    without transitions. *)
Theorem X8_exhausted_stays_exhausted (s : scheduler) (fuel : nat)
    (clks : list Clock) rs :
  hasMore s (getCandidate s) = false ->
  calls fuel s clks = Some rs ->
  Forall (fun clk : Clock => forall k : nat, clk 0%nat <= clk k) clks
  \/ (plainAnchor s /\ 0 < sched_ammount s /\ 0 <= sched_n s
      /\ inWindow s (sched_n s + Z.of_nat (List.length clks * fuel))) ->
  Forall (fun r => fst (snd r) = false) rs.
Proof.
  intros Hout Hcalls [Hmono | (Hp & Ha & Hn & Hw)].
  { exact (calls_exhausted clks fuel s rs Hmono Hout Hcalls). }
  assert (Hmax : sched_n s + Z.of_nat (List.length clks * fuel) <= maxInt64)
    by (apply (index_below_product _ (sched_ammount s) Ha);
        [lia | now apply inWindow_in_int64]).
  eapply Forall_impl;
    [| apply (calls_reports clks fuel s s rs (fun j => eq_refl) eq_refl Hcalls);
       [unfold minInt64; lia | exact Hmax]].
  cbn beta. intros r (Hidx & _ & Hflag). rewrite Hflag.
  apply hasMore_false. apply hasMore_false in Hout.
  assert (Hwr : inWindow s (sched_n (fst r)))
    by (apply (inWindow_between s (sched_n (fst r))
                 (sched_n s + Z.of_nat (List.length clks * fuel)) Hp);
        [lia | exact Hw]).
  assert (Hwn : inWindow s (sched_n s))
    by (apply (inWindow_between s (sched_n s)
                 (sched_n s + Z.of_nat (List.length clks * fuel)) Hp);
        [lia | exact Hw]).
  pose proof (candidateAt_le s (sched_n s) (sched_n (fst r)) Hp Ha
                (proj1 Hidx) Hwn Hwr) as Hle.
  rewrite candidateAt_n in Hle. lia.
Qed.

(** Every month from January 31, 2023 until March 1, 2023, at index 2
    (March 31), in UTC: three more calls, over the following year. *)
Lemma X8_exhausted_stays_exhausted_witness :
  Forall (fun r : scheduler * (bool * Duration) => fst (snd r) = false)
    [(Monthly (mkMonthly (Date 2023 1 31 0 UTC) UTC (Date 2023 3 1 0 UTC)
                         true 1 2),
      (false, Sub (Date 2023 3 31 0 UTC) (Date 2023 3 15 0 UTC)));
     (Monthly (mkMonthly (Date 2023 1 31 0 UTC) UTC (Date 2023 3 1 0 UTC)
                         true 1 3),
      (false, Sub (Date 2023 4 30 0 UTC) (Date 2023 4 15 0 UTC)));
     (Monthly (mkMonthly (Date 2023 1 31 0 UTC) UTC (Date 2023 3 1 0 UTC)
                         true 1 12),
      (false, Sub (Date 2024 1 31 0 UTC) (Date 2024 1 15 0 UTC)))].
Proof.
  apply (X8_exhausted_stays_exhausted
           (Monthly (mkMonthly (Date 2023 1 31 0 UTC) UTC
                               (Date 2023 3 1 0 UTC) true 1 2))
           12
           (map frozen [Date 2023 3 15 0 UTC; Date 2023 4 15 0 UTC;
                        Date 2024 1 15 0 UTC])).
  - vm_compute. reflexivity.
  - vm_compute. reflexivity.
  - right. split; [| split; [| split]].
    + split; [exact plainLocation_UTC |].
      unfold inYears. vm_compute. split; discriminate.
    + reflexivity.
    + discriminate.
    + split; [vm_compute; split; discriminate |].
      unfold inYears. vm_compute. split; discriminate.
Defined.

(** X10.  Asking again does not lose an occurrence.  After a call has
    reported an occurrence, a call made while the clock has not passed
    it reports the same occurrence with the same flag and leaves the
    cadence as it is; a call made once the clock has passed it moves the
    index by at least one increment, to a candidate that is not before
    the clock. *)
Theorem X10_asking_again (fuel : nat) (clk : Clock) (s s' : scheduler)
    (h : bool) (w : Duration) :
  next fuel clk s = Some (s', (h, w)) ->
  (forall (fuel2 : nat) (now2 : Time),
     Before (getCandidate s') now2 = false ->
     next (S fuel2) (frozen now2) s'
     = Some (s', (h, Sub (getCandidate s') now2)))
  /\ (forall (fuel2 : nat) (now2 : Time) (s2 : scheduler) (h2 : bool)
             (w2 : Duration),
        Before (getCandidate s') now2 = true ->
        next fuel2 (frozen now2) s' = Some (s2, (h2, w2)) ->
        Before (getCandidate s2) now2 = false
        /\ exists k : nat, sched_n s2 = indexAfter (S k) (sched_n s')).
Proof.
  intros Hrun.
  destruct (next_frame fuel clk s s' (h, w) Hrun)
    as (_ & Hend & _ & Hs' & _).
  destruct (next_inv fuel clk s s' h w Hrun) as (_ & _ & _ & Hh & _).
  split.
  - intros fuel2 now2 Hstop.
    rewrite (next_stay fuel2 (frozen now2) s' Hstop).
    rewrite sched_set_started_same by exact Hs'.
    unfold hasMore in *. rewrite Hend, <- Hh. reflexivity.
  - intros fuel2 now2 s2 h2 w2 Hpast Hrun2.
    destruct (next_inv fuel2 (frozen now2) s' s2 h2 w2 Hrun2)
      as (k & _ & Hs2 & _ & _ & _ & Hpr).
    destruct (Hpr Hs') as [Hstop _]. unfold frozen in Hstop.
    split; [exact Hstop |].
    destruct k as [| k].
    + exfalso.
      change (indexAfter 0 (sched_n s')) with (sched_n s') in Hs2.
      rewrite sched_set_n_same, sched_set_started_same in Hs2 by exact Hs'.
      subst s2. congruence.
    + exists k. rewrite Hs2, sched_n_set_started, sched_n_set_n. reflexivity.
Qed.

(** Every ten nanoseconds from 100: after the call at 125 has reported
    130, a call at 130 reports 130 again and a call at 131 reports
    140. *)
Lemma X10_asking_again_witness :
  next 1 (frozen 130) (Periodic (mkPeriodic 100 0 true 10 3))
  = Some (Periodic (mkPeriodic 100 0 true 10 3),
          (true, Sub (getCandidate (Periodic (mkPeriodic 100 0 true 10 3)))
                     130))
  /\ (Before (getCandidate (Periodic (mkPeriodic 100 0 true 10 4))) 131 = false
      /\ exists k : nat,
           sched_n (Periodic (mkPeriodic 100 0 true 10 4))
           = indexAfter (S k) (sched_n (Periodic (mkPeriodic 100 0 true 10 3)))).
Proof.
  destruct (X10_asking_again 4 (frozen 125)
              (Periodic (mkPeriodic 100 0 true 10 0))
              (Periodic (mkPeriodic 100 0 true 10 3)) true 5 eq_refl)
    as [Hsame Hmove].
  split.
  - apply (Hsame 0%nat 130). reflexivity.
  - apply (Hmove 2%nat 131 _ true 9); reflexivity.
Defined.

(** X12.  With a clock that runs during the call, the candidate that a
    primed call settles on is not before the reading of the loop's last
    test, and the wait is the candidate minus the reading taken after
    it: the wait is negative only when that last reading has passed the
    candidate, and never when the clock has not moved on between the
    two. *)
Theorem X12_wait_with_running_clock (fuel : nat) (clk : Clock)
    (s s' : scheduler) (h : bool) (w : Duration) :
  sched_started s = true ->
  next fuel clk s = Some (s', (h, w)) ->
  exists k : nat,
    (k < fuel)%nat
    /\ sched_n s' = indexAfter k (sched_n s)
    /\ clk k <= getCandidate s'
    /\ w = Sub (getCandidate s') (clk (S k))
    /\ (w < 0 <-> getCandidate s' < clk (S k))
    /\ (clk (S k) <= clk k -> 0 <= w).
Proof.
  intros Hs Hrun.
  destruct (next_inv fuel clk s s' h w Hrun)
    as (k & Hk & Hs' & _ & Hw & _ & Hpr).
  destruct (Hpr Hs) as [Hstop _]. apply Before_false in Hstop.
  exists k. repeat split; try assumption.
  - rewrite Hs', sched_n_set_started, sched_n_set_n. reflexivity.
  - rewrite Hw. apply Sub_neg.
  - rewrite Hw. apply Sub_neg.
  - intros Hclk.
    destruct (Z.lt_ge_cases w 0) as [Hneg | Hpos]; [| exact Hpos].
    rewrite Hw in Hneg. apply (proj1 (Sub_neg _ _)) in Hneg. lia.
Qed.

(** Every ten nanoseconds from 100, primed: the tests read 125 four
    times, the last reading is 133 and the wait is minus three. *)
Lemma X12_wait_with_running_clock_witness :
  exists k : nat,
    (k < 4)%nat
    /\ sched_n (Periodic (mkPeriodic 100 0 true 10 3))
       = indexAfter k (sched_n (Periodic (mkPeriodic 100 0 true 10 0)))
    /\ (fun i : nat => if (i <? 4)%nat then 125 else 133) k
       <= getCandidate (Periodic (mkPeriodic 100 0 true 10 3))
    /\ -3 = Sub (getCandidate (Periodic (mkPeriodic 100 0 true 10 3)))
                ((fun i : nat => if (i <? 4)%nat then 125 else 133) (S k))
    /\ (-3 < 0 <-> getCandidate (Periodic (mkPeriodic 100 0 true 10 3))
                   < (fun i : nat => if (i <? 4)%nat then 125 else 133) (S k))
    /\ ((fun i : nat => if (i <? 4)%nat then 125 else 133) (S k)
        <= (fun i : nat => if (i <? 4)%nat then 125 else 133) k -> 0 <= -3).
Proof.
  exact (X12_wait_with_running_clock 4
           (fun i : nat => if (i <? 4)%nat then 125 else 133)
           (Periodic (mkPeriodic 100 0 true 10 0))
           (Periodic (mkPeriodic 100 0 true 10 3)) true (-3)
           eq_refl eq_refl).
Defined.

(* ================================================================== *)
(** ** Further properties: the job *)

(** X9.  A job without a ceiling (the sentinel -1) has its task invoked
    at every call of [run], whatever its count: [m] calls are [m]
    invocations and leave the ceiling at the sentinel; the count has
    gone up by [m] as far as it fits in 64 bits. *)
Theorem X9_unbounded_runs (W : Type) (j : Job W) (w : W) (m : nat) :
  Job_times j = -1 ->
  let r := Nat.iter m run (j, w) in
  snd r = Nat.iter m (Job_task j) w
  /\ Job_times (fst r) = -1
  /\ Job_task (fst r) = Job_task j
  /\ (minInt64 <= Job_n j -> Job_n j + Z.of_nat m <= maxInt64 ->
      Job_n (fst r) = Job_n j + Z.of_nat m).
Proof.
  intros Hs. cbn zeta.
  induction m as [| m IH].
  - cbn [Nat.iter nat_rect fst snd]. repeat split; try assumption. lia.
  - rewrite !Nat.iter_succ.
    destruct (Nat.iter m run (j, w)) as [jm wm].
    cbn [fst snd] in IH. destruct IH as (Hw & Ht & Hf & Hn).
    unfold run. rewrite Ht. cbn [Z.eqb Pos.eqb orb fst snd].
    cbn [Job_times Job_task Job_n].
    rewrite Hw, Hf. repeat split.
    intros Hlo Hhi. rewrite Hn by lia.
    rewrite incr64_small by lia. lia.
Qed.

(** A task that counts its invocations, scheduled without a ceiling and
    run five times. *)
Lemma X9_unbounded_runs_witness :
  let r := Nat.iter 5 run (Schedule Nat.succ, 0%nat) in
  snd r = Nat.iter 5 Nat.succ 0%nat
  /\ Job_times (fst r) = -1
  /\ Job_task (fst r) = Nat.succ
  /\ (minInt64 <= 0 -> 0 + Z.of_nat 5 <= maxInt64 ->
      Job_n (fst r) = 0 + Z.of_nat 5).
Proof.
  exact (X9_unbounded_runs nat (Schedule Nat.succ) 0%nat 5 eq_refl).
Defined.
(** X11.  [Every] panics on more than one argument and on nothing else;
    without an argument it means every 1.  The unit method called after
    it decides the kind of cadence that [Done] builds, whatever kind was
    set before: a duration gives a periodic cadence whose step is the
    64-bit product of amount and unit, [Months] and [Years] a calendar
    cadence of that amount; the start with its location (the time of the
    construction with the local zone when no start was given), the end
    and [NotInmediately] configured before are carried over, and a zero
    amount (or unit) is the only configuration that [Done] refuses. *)
Theorem X11_every_then_done (W : Type) (j : Job W) :
  (forall ks : list Z, Every j ks = None <-> (2 <= List.length ks)%nat)
  /\ Every j [] = Every j [1]
  /\ forall (k : Z) (d : Duration) (now : Time) (local : Location),
       let a := Job_aux j in
       let start := if IsZero (aux_start a) then now else aux_start a in
       let loc := if IsZero (aux_start a) then local else aux_loc a in
       let skip := aux_notInmediately a in
       let n0 := if skip then 1 else 0 in
       exists j' : Job W,
         Every j [k] = Some j'
         /\ Job_times j' = Job_times j /\ Job_n j' = Job_n j
         /\ Done_schedule now local (duration j' d)
            = (if (k =? 0) || (d =? 0) then Err "0 is not a valid period"
               else Ok (Some (Periodic
                        (mkPeriodic start (aux_end a) skip (mul64 k d) n0))))
         /\ Done_schedule now local (Months j')
            = (if k =? 0 then Err "0 months is not a valid period"
               else Ok (Some (Monthly
                        (mkMonthly start loc (aux_end a) skip k n0))))
         /\ Done_schedule now local (Years j')
            = (if k =? 0 then Err "0 years is not a valid period"
               else Ok (Some (Yearly
                        (mkYearly start loc (aux_end a) skip k n0)))).
Proof.
  split; [| split].
  - intros [| k [| k' ks]]; cbn [Every List.length]; split;
      try discriminate; try lia; reflexivity.
  - reflexivity.
  - intros k d now local a start loc skip n0.
    eexists. split; [reflexivity |].
    split; [reflexivity | split; [reflexivity |]].
    unfold Done_schedule, duration, Months, Years, Job_set_aux,
      newPeriodic, newMonthly, newYearly.
    cbn [Job_aux aux_kind aux_ammount aux_notInmediately aux_start aux_loc
         aux_end aux_unit Job_task Job_times Job_n Job_schedule].
    change (periodicKind =? periodicKind) with true.
    change (monthlyKind =? periodicKind) with false.
    change (monthlyKind =? monthlyKind) with true.
    change (yearlyKind =? periodicKind) with false.
    change (yearlyKind =? monthlyKind) with false.
    change (yearlyKind =? yearlyKind) with true.
    cbv iota.
    subst start loc. fold a.
    destruct (k =? 0); [repeat split |].
    destruct (d =? 0); destruct (IsZero (aux_start a)); repeat split.
Qed.

(* ================================================================== *)
(** ** Further properties: steps that go back, steps of whole days *)

(** X13.  The constructors accept a negative amount, and the cadence
    then runs backwards.  Once such a cadence is primed and its
    candidate is before [now], a call does not return: the loop goes on
    for as many tests as keep the index within range, its product with
    the amount within 64 bits and, for the calendar cadences, the years
    within reach of an anchor held in a location without transitions. *)
Theorem X13_negative_step_does_not_return (s : scheduler) (now : Time)
    (fuel : nat) :
  sched_started s = true ->
  plainAnchor s ->
  sched_ammount s < 0 ->
  0 <= sched_n s ->
  inWindow s (sched_n s + Z.of_nat fuel) ->
  Before (getCandidate s) now = true ->
  next fuel (frozen now) s = None.
Proof.
  intros Hs Hp Ha Hn Hw Hb.
  destruct (next fuel (frozen now) s) as [[s' [h w]] |] eqn:Hrun;
    [exfalso | reflexivity].
  destruct (next_frame fuel (frozen now) s s' (h, w) Hrun)
    as (_ & _ & _ & _ & Hcand & k & Hk & Hidx & _).
  destruct (next_inv fuel (frozen now) s s' h w Hrun)
    as (k2 & _ & _ & _ & _ & _ & Hpr).
  destruct (Hpr Hs) as [Hstop _].
  apply Before_false in Hstop. apply Before_true in Hb.
  unfold frozen in Hstop.
  pose proof (inWindow_in_int64 s _ Hw) as Hr.
  assert (Hbound : forall z, 0 <= z <= sched_n s + Z.of_nat fuel ->
                             inWindow s z)
    by (intros z Hz;
        exact (inWindow_between s z (sched_n s + Z.of_nat fuel) Hp Hz Hw)).
  assert (Hmax : sched_n s + Z.of_nat fuel <= maxInt64 + 1).
  { assert ((sched_n s + Z.of_nat fuel) * sched_ammount s
            <= (sched_n s + Z.of_nat fuel) * (-1))
      by (apply Z.mul_le_mono_nonneg_l; lia).
    unfold in_int64, minInt64, maxInt64 in *. lia. }
  rewrite indexAfter_small in Hidx by (try unfold minInt64; lia).
  assert (Hwn : inWindow s (sched_n s)) by (apply Hbound; lia).
  assert (Hwr : inWindow s (sched_n s')) by (apply Hbound; lia).
  pose proof (candidateAt_ge_negative s (sched_n s) (sched_n s') Hp Ha
                ltac:(lia) Hwn Hwr) as Hle.
  rewrite candidateAt_n, <- Hcand in Hle. lia.
Qed.

(** Every minus one second from the instant 5 s, primed, asked a
    nanosecond later: no return within a thousand tests.  Every minus
    one year from February 29, 2024 in UTC, primed, asked on March 1,
    2023: no return within a thousand tests. *)
Lemma X13_negative_step_does_not_return_witness :
  newPeriodic 0 5000000000 0 (-1) Second true
  = Ok (mkPeriodic 5000000000 0 true (-1000000000) 1)
  /\ next 1000 (frozen 5000000001)
          (Periodic (mkPeriodic 5000000000 0 true (-1000000000) 1))
     = None
  /\ next 1000 (frozen (Date 2023 3 1 0 UTC))
          (Yearly (mkYearly (Date 2024 2 29 0 UTC) UTC 0 true (-1) 1))
     = None.
Proof.
  split; [reflexivity |].
  split.
  - apply X13_negative_step_does_not_return.
    + reflexivity.
    + exact I.
    + reflexivity.
    + discriminate.
    + vm_compute. split; discriminate.
    + reflexivity.
  - apply X13_negative_step_does_not_return.
    + reflexivity.
    + split; [exact plainLocation_UTC |].
      unfold inYears. vm_compute. split; discriminate.
    + reflexivity.
    + discriminate.
    + split; [vm_compute; split; discriminate |].
      unfold inYears. vm_compute. split; discriminate.
    + vm_compute. reflexivity.
Defined.

(** X14.  A periodic cadence whose step is a whole number of days
    (every [k] days, every [k] weeks) keeps the anchor's time of day in
    UTC and in every other location without transitions, and moves by
    that number of days for each index, as long as the index times the
    step fits in 64 bits. *)
Theorem X14_whole_days (now start end_ : Time) (k : Z) (days : Z)
    (skip : bool) (p : periodic) (n : Z) :
  newPeriodic now start end_ k (days * Day_) skip = Ok p ->
  in_int64 (k * (days * Day_)) ->
  in_int64 (n * (k * (days * Day_))) ->
  (forall l : Location,
     plainLocation l ->
     timeOfDay l (periodic_getCandidate (periodic_set_n p n))
     = timeOfDay l (periodic_start p))
  /\ timeOfDay UTC (periodic_getCandidate (periodic_set_n p n))
     = timeOfDay UTC (periodic_start p)
  /\ periodic_getCandidate (periodic_set_n p n) / nsPerDay
     = periodic_start p / nsPerDay + n * (k * days).
Proof.
  intros Hnew Hstep Hr.
  destruct (newPeriodic_Ok _ _ _ _ _ _ _ Hnew) as (_ & _ & Hp).
  assert (HP : periodic_ammount p = k * (days * Day_)).
  { rewrite Hp. cbn [periodic_ammount]. now apply mul64_small. }
  rewrite periodic_candidate_exact by (rewrite HP; exact Hr).
  rewrite HP.
  replace (n * (k * (days * Day_))) with (n * (k * days) * nsPerDay)
    by (unfold Day_, Hour, Minute, Second, Millisecond, Microsecond,
          Nanosecond, nsPerDay; lia).
  assert (Hplain : forall l : Location,
            plainLocation l ->
            timeOfDay l (periodic_start p + n * (k * days) * nsPerDay)
            = timeOfDay l (periodic_start p)).
  { intros l Hl. rewrite !timeOfDay_wall, !wall_plain by exact Hl.
    unfold clockOf.
    replace (periodic_start p + n * (k * days) * nsPerDay
             + loc_first l * nsPerSecond)
      with (periodic_start p + loc_first l * nsPerSecond
            + n * (k * days) * nsPerDay) by lia.
    apply Z.mod_add. unfold nsPerDay. lia. }
  split; [exact Hplain | split].
  - apply Hplain. exact plainLocation_UTC.
  - apply Z.div_add. unfold nsPerDay. lia.
Qed.

(** Every two weeks from 10:00 on January 1, 2024, at index 3: 10:00 on
    February 12, 2024. *)
Lemma X14_whole_days_witness :
  (forall l : Location,
     plainLocation l ->
     timeOfDay l (periodic_getCandidate
                    (periodic_set_n
                       (mkPeriodic (Date 2024 1 1 (10 * Hour) UTC) 0 false
                                   (mul64 2 (7 * Day_)) 0) 3))
     = timeOfDay l (Date 2024 1 1 (10 * Hour) UTC))
  /\ timeOfDay UTC (periodic_getCandidate
                      (periodic_set_n
                         (mkPeriodic (Date 2024 1 1 (10 * Hour) UTC) 0 false
                                     (mul64 2 (7 * Day_)) 0) 3))
     = timeOfDay UTC (Date 2024 1 1 (10 * Hour) UTC)
  /\ periodic_getCandidate
       (periodic_set_n
          (mkPeriodic (Date 2024 1 1 (10 * Hour) UTC) 0 false
                      (mul64 2 (7 * Day_)) 0) 3) / nsPerDay
     = Date 2024 1 1 (10 * Hour) UTC / nsPerDay + 3 * (2 * 7).
Proof.
  apply (X14_whole_days 0 (Date 2024 1 1 (10 * Hour) UTC) 0 2 7 false
           (mkPeriodic (Date 2024 1 1 (10 * Hour) UTC) 0 false
                       (mul64 2 (7 * Day_)) 0) 3).
  - reflexivity.
  - vm_compute. split; discriminate.
  - vm_compute. split; discriminate.
Defined.


